(** * EventDrops: the adaptive time-bucketing engine

    A shallow embedding of [timeScale.js] (granularity resolution and
    refinement; its code follows that of [dropLine.js] in
    [src/dropLine.js], from line 135 on) and of the aggregation and
    normalisation part of [src/heatmap.js], with the properties of the
    specification proved or refuted on it.

    Conventions.
    - An instant is the time value of a JavaScript [Date]: an integer number
      of milliseconds since the epoch, here a [Z].  A [Date] whose time value
      is [NaN] is [Date None].
    - The bucket widths compared by the refinement and the intensities are
      JavaScript numbers taken in exact arithmetic, as rationals [Q]; where
      the value of a pixel offset itself is at stake (the rectangle of a
      bucket) numbers are IEEE 754 doubles, [Double.number].
    - d3's intervals are first taken on instants, as functions on [Z]
      ([D3.interval]); [DateRange] then takes them on the [Date]s of a
      host, where a result beyond 100,000,000 days from the epoch is an
      Invalid Date.
    - Granularities are the strings the code uses.
    - The [d3] handle and the scale [xScale] are arguments of every function
      of the source; they are records of functions here. *)

From Stdlib Require Import ZArith QArith Qminmax Bool List String Lia.
From Stdlib Require SpecFloat.
From Stdlib Require Import Permutation Sorted.
Import ListNotations.

Open Scope string_scope.
Open Scope Z_scope.

(** ** JavaScript values reaching the code *)

Module Js.

(** What a domain bound or the result of the [dropDate] accessor can be. *)
Inductive value : Type :=
| Date (time : option Z)
| Other.

(** [date.getTime()], [None] being [NaN]. *)
Definition getTime (v : value) : option Z :=
  match v with
  | Date t => t
  | Other => None
  end.

(** [date instanceof Date]. *)
Definition instanceofDate (v : value) : bool :=
  match v with
  | Date _ => true
  | Other => false
  end.

(** [Array.prototype.indexOf], [-1] when the element is absent. *)
Fixpoint indexOfFrom (l : list string) (s : string) (i : Z) : Z :=
  match l with
  | [] => -1
  | x :: r => if String.eqb x s then i else indexOfFrom r s (i + 1)
  end.

Definition indexOf (l : list string) (s : string) : Z := indexOfFrom l s 0.

(** [Array.prototype.includes] on strings. *)
Definition includes (l : list string) (s : string) : bool :=
  existsb (String.eqb s) l.

(** [x < y] and [x >= y] on numbers. *)
Definition ltb (x y : Q) : bool := negb (Qle_bool y x).
Definition geb (x y : Q) : bool := Qle_bool y x.
Definition gtb (x y : Q) : bool := negb (Qle_bool x y).
Definition leb (x y : Q) : bool := Qle_bool x y.

(** The largest time value of a [Date]: 100,000,000 days on either side
    of the epoch. *)
Definition MAX_TIME : Z := 8640000000000000.

(** ECMAScript's [TimeClip]: the time value of the [Date] made from the
    instant [t], [None] (an Invalid Date) when [t] is out of range. *)
Definition timeClip (t : Z) : option Z :=
  if Z.abs t <=? MAX_TIME then Some t else None.

(** [a >= b] and [a <= b] on two [Date]s, compared through their time
    values: false when one of them is [NaN]. *)
Definition timeGeb (a b : option Z) : bool :=
  match a, b with
  | Some x, Some y => x >=? y
  | _, _ => false
  end.

Definition timeLeb (a b : option Z) : bool :=
  match a, b with
  | Some x, Some y => x <=? y
  | _, _ => false
  end.

End Js.

(** ** JavaScript numbers as doubles

    IEEE 754 binary64 as the Standard Library specifies it, with the
    operations [calculateBucketPosition] applies to pixel offsets. *)

Module Double.

Import SpecFloat.

Definition number : Type := spec_float.

Definition NaN : number := S754_nan.

(** The literal [0], that is [+0]. *)
Definition zero : number := S754_zero false.

(** [a - b], rounded to nearest, ties to even. *)
Definition sub (a b : number) : number := SFsub 53 1024 a b.

(** [a + b] and [a / b] *)
Definition add (a b : number) : number := SFadd 53 1024 a b.
Definition div (a b : number) : number := SFdiv 53 1024 a b.

(** [a < b], [a <= b] and [a === b]: false when an argument is [NaN];
    [-0] and [+0] are equal. *)
Definition ltb (a b : number) : bool := SFltb a b.
Definition leb (a b : number) : bool := SFleb a b.
Definition eqb (a b : number) : bool := SFeqb a b.

Definition isNaN (a : number) : bool :=
  match a with
  | S754_nan => true
  | _ => false
  end.

(** [Math.max(a, b)]: [NaN] when an argument is [NaN]; [+0] is larger than
    [-0]. *)
Definition max (a b : number) : number :=
  if isNaN a || isNaN b then NaN
  else if ltb a b then b
  else if ltb b a then a
  else match a with
       | S754_zero true => b
       | _ => a
       end.

(** The double nearest to an integer. *)
Definition ofZ (z : Z) : number := binary_normalize 53 1024 z 0 false.

End Double.

(** ** The part of d3 the code calls *)

Module D3.

(** A d3 time interval: [interval.floor(date)], [interval.ceil(date)],
    [interval.offset(date, step)] and [interval.count(start, end)], on
    instants.  [DateRange.onDates] gives its [floor] and [ceil] on the
    [Date]s of a host, where they can be Invalid Dates. *)
Record interval : Type := Interval {
  floor : Z -> Z;
  ceil : Z -> Z;
  offset : Z -> Z -> Z;
  count : Z -> Z -> Z
}.

(** The [d3] object: the intervals [timeScale.js] reads from it.
    [timeYear_every k] is [d3.timeYear.every(k)]. *)
Record library : Type := Library {
  timeYear : interval;
  timeYear_every : Z -> interval;
  timeMonth : interval;
  timeWeek : interval;
  timeDay : interval;
  timeHour : interval;
  timeMinute : interval;
  timeSecond : interval
}.

(** A d3 time scale: [xScale.domain()], [xScale.ticks(count)] and the
    call [xScale(date)]. *)
Record scale : Type := Scale {
  domain : option (list Js.value);
  ticks : Z -> list Z;
  apply : Z -> Q
}.

End D3.

(** ** timeScale.js (src/dropLine.js, lines 135-522) *)

Module TimeScale.

Import Js D3.

Definition TIMESCALE_HIERARCHY : list string :=
  [ "milliseconds"; "seconds"; "minutes"; "hours"; "days";
    "weeks"; "months"; "years"; "decades" ].

(** The object literal [BUCKET_SCALE_MAP], as its list of entries. *)
Definition BUCKET_SCALE_MAP : list (string * string) :=
  [ ("millennium", "decades");
    ("decades", "years");
    ("years", "months");
    ("months", "weeks");
    ("weeks", "days");
    ("days", "hours");
    ("hours", "minutes");
    ("minutes", "seconds");
    ("seconds", "milliseconds");
    ("milliseconds", "milliseconds") ].

(** [BUCKET_SCALE_MAP[key]], [None] being [undefined]. *)
Fixpoint lookup (m : list (string * string)) (key : string) : option string :=
  match m with
  | [] => None
  | (k, v) :: r => if String.eqb k key then Some v else lookup r key
  end.

Definition getD3TimeInterval (d3 : library) (scale : string) : interval :=
  if String.eqb scale "millennium" then timeYear_every d3 1000
  else if String.eqb scale "decades" then timeYear_every d3 10
  else if String.eqb scale "years" then timeYear d3
  else if String.eqb scale "months" then timeMonth d3
  else if String.eqb scale "weeks" then timeWeek d3
  else if String.eqb scale "days" then timeDay d3
  else if String.eqb scale "hours" then timeHour d3
  else if String.eqb scale "minutes" then timeMinute d3
  else if String.eqb scale "seconds" then timeSecond d3
  else if String.eqb scale "milliseconds" then timeSecond d3
  else timeDay d3.

Definition isValidDate (date : value) : bool :=
  instanceofDate date &&
  match getTime date with Some _ => true | None => false end.

(** The object [{ start, end }] returned by [validateDomain]; both bounds
    passed [isValidDate], so they are kept as their time values. *)
Record domainInfo : Type := DomainInfo {
  start : Z;
  end_ : Z
}.

Definition validateDomain (domain : option (list value)) : option domainInfo :=
  match domain with
  | None => None
  | Some d =>
      if Z.of_nat (List.length d) <? 2 then None
      else
        let start := nth 0 d Other in
        let end_ := nth 1 d Other in
        if negb (isValidDate start) || negb (isValidDate end_) then None
        else
          match getTime start, getTime end_ with
          | Some s, Some e => Some (DomainInfo s e)
          | _, _ => None
          end
  end.

Definition calculateBucketWidth (d3 : library) (xScale : scale)
    (bucketScale : string) : Q :=
  match validateDomain (domain xScale) with
  | None => 0%Q
  | Some domainInfo =>
      let timeInterval := getD3TimeInterval d3 bucketScale in
      let bucketStartDate := floor timeInterval (start domainInfo) in
      let bucketEndDate := offset timeInterval bucketStartDate 1 in
      let bucketStart := apply xScale bucketStartDate in
      let bucketEnd := apply xScale bucketEndDate in
      Qmax 0 (bucketEnd - bucketStart)
  end.

Definition MS_PER_DAY : Z := 1000 * 60 * 60 * 24.

Definition detectTickScaleFromDuration (duration : Z) : string :=
  let durationDays := (inject_Z duration / inject_Z MS_PER_DAY)%Q in
  let durationYears := (durationDays / (36525 # 100))%Q in
  if geb durationYears 1000 then "millennium"
  else if geb durationYears 10 then "decades"
  else if geb durationDays 365 then "years"
  else if geb durationDays 30 then "months"
  else if geb durationDays 7 then "weeks"
  else if geb durationDays 1 then "days"
  else if duration >=? 1000 * 60 * 60 then "hours"
  else if duration >=? 1000 * 60 then "minutes"
  else if duration >=? 1000 then "seconds"
  else "milliseconds".

(** An element of the array [candidates]. *)
Record candidate : Type := Candidate {
  scale : string;
  expectedDuration : Z;
  count : Z
}.

(** [if (cond) { candidates.push(c); }] *)
Definition pushIf (cond : bool) (c : candidate) : list candidate :=
  if cond then [c] else [].

(** The array [candidates] built by [detectTickScaleFromTicks], in the
    order of its [push] calls. *)
Definition tickCandidates (d3 : library) (tick1 tick2 : Z) : list candidate :=
  let tickDuration := tick2 - tick1 in
  let yearCount := D3.count (timeYear d3) tick1 tick2 in
  let monthCount := D3.count (timeMonth d3) tick1 tick2 in
  let weekCount := D3.count (timeWeek d3) tick1 tick2 in
  let dayCount := D3.count (timeDay d3) tick1 tick2 in
  let hourCount := D3.count (timeHour d3) tick1 tick2 in
  let minuteCount := D3.count (timeMinute d3) tick1 tick2 in
  let secondCount := D3.count (timeSecond d3) tick1 tick2 in
  pushIf (yearCount >=? 1000)
    (Candidate "millennium" (offset (timeYear d3) tick1 yearCount - tick1)
       (yearCount / 1000))
  ++ pushIf (yearCount >=? 10)
    (Candidate "decades" (offset (timeYear d3) tick1 yearCount - tick1)
       (yearCount / 10))
  ++ pushIf (yearCount >=? 1)
    (Candidate "years" (offset (timeYear d3) tick1 yearCount - tick1)
       yearCount)
  ++ pushIf (monthCount >=? 1)
    (Candidate "months" (offset (timeMonth d3) tick1 monthCount - tick1)
       monthCount)
  ++ pushIf (weekCount >=? 1)
    (Candidate "weeks" (offset (timeWeek d3) tick1 weekCount - tick1)
       weekCount)
  ++ pushIf (dayCount >=? 1)
    (Candidate "days" (offset (timeDay d3) tick1 dayCount - tick1)
       dayCount)
  ++ pushIf (hourCount >=? 1)
    (Candidate "hours" (offset (timeHour d3) tick1 hourCount - tick1)
       hourCount)
  ++ pushIf (minuteCount >=? 1)
    (Candidate "minutes" (offset (timeMinute d3) tick1 minuteCount - tick1)
       minuteCount)
  ++ pushIf (secondCount >=? 1)
    (Candidate "seconds" (offset (timeSecond d3) tick1 secondCount - tick1)
       secondCount)
  ++ [Candidate "milliseconds" tickDuration 1].

(** The loop [for (const candidate of candidates)]: the state is
    [(bestScale, minDifference)], [None] being [Infinity]. *)
Fixpoint closestCandidate (tickDuration : Z) (candidates : list candidate)
    (bestScale : string) (minDifference : option Z) : string :=
  match candidates with
  | [] => bestScale
  | candidate :: rest =>
      let difference := Z.abs (expectedDuration candidate - tickDuration) in
      let smaller :=
        match minDifference with
        | None => true
        | Some m => difference <? m
        end in
      if smaller
      then closestCandidate tickDuration rest (scale candidate) (Some difference)
      else closestCandidate tickDuration rest bestScale minDifference
  end.

Definition detectTickScaleFromTicks (d3 : library) (sampleTicks : list Z)
    : string :=
  match sampleTicks with
  | tick1 :: tick2 :: _ =>
      let tickDuration := tick2 - tick1 in
      closestCandidate tickDuration (tickCandidates d3 tick1 tick2)
        "milliseconds" None
  | _ => "days"
  end.

(** The argument [bucketSize]: [{ minWidth, maxWidth }], [None] being
    [null]. *)
Record bucketSize : Type := BucketSize {
  minWidth : option Q;
  maxWidth : option Q
}.

(** [TIMESCALE_HIERARCHY[i]] *)
Definition hierarchyAt (i : Z) : string :=
  nth (Z.to_nat i) TIMESCALE_HIERARCHY "".

Definition HIERARCHY_LENGTH : Z := Z.of_nat (List.length TIMESCALE_HIERARCHY).

Section Refinement.

Variable d3 : library.
Variable xScale : D3.scale.

(** The loop [for (let i = currentScaleIndex + 1; i < length; i++)] of
    [refineBucketScale]; the state is [(bucketScale, currentWidth)] and
    [remaining] is the number of iterations left, [length - i]. *)
Fixpoint widenLoop (minWidth : Q) (remaining : nat) (i : Z)
    (st : string * Q) : string * Q :=
  match remaining with
  | O => st
  | S k =>
      let testScale := hierarchyAt i in
      let testWidth := calculateBucketWidth d3 xScale testScale in
      if geb testWidth minWidth then (testScale, testWidth)
      else
        let st' :=
          if i =? HIERARCHY_LENGTH - 1 then (testScale, testWidth) else st in
        widenLoop minWidth k (i + 1) st'
  end.

(** The loop [for (let i = currentScaleIndex - 1; i >= 0; i--)]; [remaining]
    is [i + 1]. *)
Fixpoint narrowLoop (maxWidth : Q) (remaining : nat) (i : Z)
    (st : string * Q) : string * Q :=
  match remaining with
  | O => st
  | S k =>
      let testScale := hierarchyAt i in
      let testWidth := calculateBucketWidth d3 xScale testScale in
      if leb testWidth maxWidth then (testScale, testWidth)
      else
        let st' := if i =? 0 then (testScale, testWidth) else st in
        narrowLoop maxWidth k (i - 1) st'
  end.

(** The first lines of [refineBucketScale]: the triple
    [(currentScaleIndex, bucketScale, currentWidth)] after the defaulting
    to ['days']. *)
Definition refineStart (bucketScale : string) : Z * string * Q :=
  let currentWidth := calculateBucketWidth d3 xScale bucketScale in
  let currentScaleIndex := indexOf TIMESCALE_HIERARCHY bucketScale in
  if currentScaleIndex =? -1
  then (indexOf TIMESCALE_HIERARCHY "days", "days",
        calculateBucketWidth d3 xScale "days")
  else (currentScaleIndex, bucketScale, currentWidth).

(** The block [// Adjust for minWidth]. *)
Definition adjustMinWidth (bucketSize : bucketSize) (currentScaleIndex : Z)
    (st : string * Q) : string * Q :=
  match minWidth bucketSize with
  | Some m =>
      if ltb (snd st) m
      then widenLoop m
             (Z.to_nat (HIERARCHY_LENGTH - (currentScaleIndex + 1)))
             (currentScaleIndex + 1) st
      else st
  | None => st
  end.

(** The block [// Adjust for maxWidth]. *)
Definition adjustMaxWidth (bucketSize : bucketSize) (currentScaleIndex : Z)
    (st : string * Q) : string * Q :=
  match maxWidth bucketSize with
  | Some m =>
      if gtb (snd st) m
      then narrowLoop m (Z.to_nat currentScaleIndex) (currentScaleIndex - 1) st
      else st
  | None => st
  end.

Definition refineBucketScale (bucketScale : string) (bucketSize : bucketSize)
    : string :=
  let '(currentScaleIndex, bucketScale, currentWidth) :=
    refineStart bucketScale in
  let st := adjustMinWidth bucketSize currentScaleIndex
              (bucketScale, currentWidth) in
  let st := adjustMaxWidth bucketSize currentScaleIndex st in
  fst st.

(** [numberDisplayedTicks[breakpointLabel]], [None] being [undefined]. *)
Fixpoint tickCountOf (numberDisplayedTicks : list (string * Z))
    (breakpointLabel : string) : option Z :=
  match numberDisplayedTicks with
  | [] => None
  | (k, v) :: r =>
      if String.eqb k breakpointLabel then Some v
      else tickCountOf r breakpointLabel
  end.

(** The expression computing [tickCount] in [getTimeScale]; a missing
    object and a missing or empty label are falsy. *)
Definition tickCount (numberDisplayedTicks : option (list (string * Z)))
    (breakpointLabel : option string) : Z :=
  match numberDisplayedTicks, breakpointLabel with
  | Some n, Some l =>
      if String.eqb l "" then 10
      else match tickCountOf n l with
           | Some c => c
           | None => 10
           end
  | _, _ => 10
  end.

(** The tick granularity detected by [getTimeScale] for a validated
    domain. *)
Definition tickScale (domainInfo : domainInfo)
    (numberDisplayedTicks : option (list (string * Z)))
    (breakpointLabel : option string) : string :=
  let sampleTicks :=
    ticks xScale (tickCount numberDisplayedTicks breakpointLabel) in
  if Z.of_nat (List.length sampleTicks) <? 2
  then detectTickScaleFromDuration (end_ domainInfo - start domainInfo)
  else detectTickScaleFromTicks d3 sampleTicks.

Definition getTimeScale
    (numberDisplayedTicks : option (list (string * Z)))
    (breakpointLabel : option string)
    (bucketSize : option bucketSize) : string :=
  match validateDomain (domain xScale) with
  | None => "days"
  | Some domainInfo =>
      let tickScale := tickScale domainInfo numberDisplayedTicks breakpointLabel in
      let bucketScale :=
        match lookup BUCKET_SCALE_MAP tickScale with
        | Some s => s
        | None => "days"
        end in
      match bucketSize with
      | Some bs =>
          match minWidth bs, maxWidth bs with
          | None, None => bucketScale
          | _, _ => refineBucketScale bucketScale bs
          end
      | None => bucketScale
      end
  end.

Definition HEATMAP_SCALES : list string :=
  [ "days"; "weeks"; "months"; "years"; "decades" ].

Definition shouldUseHeatmap
    (numberDisplayedTicks : option (list (string * Z)))
    (breakpointLabel : option string)
    (bucketSize : option bucketSize) : bool :=
  match validateDomain (domain xScale) with
  | None => false
  | Some domainInfo =>
      if negb (isValidDate (Date (Some (start domainInfo))))
         || negb (isValidDate (Date (Some (end_ domainInfo))))
      then false
      else
        let timeScale :=
          getTimeScale numberDisplayedTicks breakpointLabel bucketSize in
        includes HEATMAP_SCALES timeScale
  end.

Definition getTimeInterval
    (numberDisplayedTicks : option (list (string * Z)))
    (breakpointLabel : option string)
    (bucketSize : option bucketSize) : interval :=
  match validateDomain (domain xScale) with
  | None => timeDay d3
  | Some _ =>
      let timeScale :=
        getTimeScale numberDisplayedTicks breakpointLabel bucketSize in
      getD3TimeInterval d3 timeScale
  end.

End Refinement.

End TimeScale.

(** ** src/heatmap.js: aggregation, normalisation and position
    (lines 13-82, 171-194, 250-264) *)

Module Heatmap.

Import Js D3 TimeScale.

(** What [events] (the [data] of a row) can be: missing or falsy, a truthy
    value that is not an array, or an array. *)
Inductive data (Event : Type) : Type :=
| Missing
| NotArray
| Array (items : list Event).

Arguments Missing {Event}.
Arguments NotArray {Event}.
Arguments Array {Event} items.

(** The bucket object [{ date, count, events }]; [date] is the time value of
    the bucket's start. *)
Record bucket (Event : Type) : Type := Bucket {
  date : Z;
  count : Z;
  events : list Event
}.

Arguments Bucket {Event} date count events.
Arguments date {Event} b.
Arguments count {Event} b.
Arguments events {Event} b.

(** The object [{ ...bucket, intensity }] of [getHeatmapBucketData]. *)
Record heatmapBucket (Event : Type) : Type := HeatmapBucket {
  base : bucket Event;
  intensity : Q
}.

Arguments HeatmapBucket {Event} base intensity.
Arguments base {Event} h.
Arguments intensity {Event} h.

Section Aggregation.

Context {Event : Type}.

(** The [Map] named [buckets]: its entries in insertion order, which is the
    order [buckets.values()] yields them in. *)
Definition bucketMap : Type := list (Z * bucket Event).

Fixpoint has (buckets : bucketMap) (key : Z) : bool :=
  match buckets with
  | [] => false
  | (k, _) :: r => (k =? key) || has r key
  end.

(** [buckets.set(key, b)] for a key the map does not hold: a new last
    entry. *)
Definition set (buckets : bucketMap) (key : Z) (b : bucket Event) : bucketMap :=
  (buckets ++ [(key, b)])%list.

(** [const bucket = buckets.get(key); bucket.count += 1;
    bucket.events.push(event);]: the object held under [key] is changed in
    place. *)
Fixpoint addTo (buckets : bucketMap) (key : Z) (event : Event) : bucketMap :=
  match buckets with
  | [] => []
  | (k, b) :: r =>
      if k =? key
      then (k, Bucket (date b) (count b + 1) (events b ++ [event])) :: r
      else (k, b) :: addTo r key event
  end.

Definition values (buckets : bucketMap) : list (bucket Event) :=
  map snd buckets.

(** [array.sort((a, b) => a.date - b.date)]: a stable sort by [date]. *)
Fixpoint insertByDate (b : bucket Event) (l : list (bucket Event))
    : list (bucket Event) :=
  match l with
  | [] => [b]
  | x :: r => if date b <=? date x then b :: l else x :: insertByDate b r
  end.

Definition sortByDate (l : list (bucket Event)) : list (bucket Event) :=
  fold_right insertByDate [] l.

Variable xScale : D3.scale.
Variable dropDate : Event -> value.

(** The test of the two early [return]s of the [forEach] callback: the
    instant of the event when it is a valid date within
    [domainStart, domainEnd). *)
Definition instantInDomain (domainStart domainEnd : Z) (event : Event)
    : option Z :=
  let eventDate := dropDate event in
  if negb (instanceofDate eventDate) then None
  else
    match getTime eventDate with
    | None => None
    | Some t =>
        if (t <? domainStart) || (t >=? domainEnd) then None else Some t
    end.

(** The callback of [events.forEach], as a function of the map. *)
Definition addEvent (timeInterval : interval)
    (domainStart domainEnd bucketStartBound bucketEndBound : Z)
    (buckets : bucketMap) (event : Event) : bucketMap :=
  match instantInDomain domainStart domainEnd event with
  | None => buckets
  | Some t =>
      let bucketDate := floor timeInterval t in
      if (bucketDate >=? bucketStartBound) && (bucketDate <=? bucketEndBound)
      then
        let bucketKey := bucketDate in
        let buckets :=
          if negb (has buckets bucketKey)
          then set buckets bucketKey (Bucket bucketDate 0 [])
          else buckets in
        addTo buckets bucketKey event
      else buckets
  end.

Definition aggregateEvents (events : data Event) (timeInterval : interval)
    : list (bucket Event) :=
  match validateDomain (domain xScale) with
  | None => []
  | Some domainInfo =>
      let domainStart := start domainInfo in
      let domainEnd := end_ domainInfo in
      let bucketStartBound := floor timeInterval domainStart in
      let bucketEndBound := ceil timeInterval domainEnd in
      let buckets :=
        match events with
        | Array items =>
            fold_left
              (addEvent timeInterval domainStart domainEnd
                 bucketStartBound bucketEndBound)
              items []
        | _ => []
        end in
      sortByDate (values buckets)
  end.

(** [Math.max(...buckets.map(b => b.count), 0)] *)
Definition maxOfCounts (buckets : list (bucket Event)) : Z :=
  fold_right Z.max 0 (map count buckets).

Definition getMaxIntensity (buckets : list (bucket Event)) : Z :=
  if Z.of_nat (List.length buckets) =? 0 then 1
  else
    let maxCount := maxOfCounts buckets in
    if maxCount >? 0 then maxCount else 1.

(** The function mapped over the buckets by [getHeatmapBucketData]:
    [bucket => ({ ...bucket, intensity: ... })]. *)
Definition withIntensity (maxCount : Z) (bucket : bucket Event)
    : heatmapBucket Event :=
  HeatmapBucket bucket
    (if maxCount >? 0
     then Qmin (inject_Z (count bucket) / inject_Z maxCount) 1
     else 0%Q).

(** The datum [d] of a row: [None] when [d] itself is missing, else its
    [data]. *)
Definition getHeatmapBucketData (timeInterval : interval)
    (d : option (data Event)) : list (heatmapBucket Event) :=
  match d with
  | None | Some Missing => []
  | Some events =>
      let buckets := aggregateEvents events timeInterval in
      let maxCount := getMaxIntensity buckets in
      map (withIntensity maxCount) buckets
  end.

End Aggregation.

(** The object [{ x, width }] returned by [calculateBucketPosition]
    (lines 171-194). *)
Record position : Type := Position {
  x : Double.number;
  width : Double.number
}.

(** [xScale] is the call [xScale(date)] of the scale on a [Date] that may
    be invalid, and gives a double; [minBucketWidth] is the number
    [Math.max] makes of the argument, [NaN] for [undefined]. *)
Definition calculateBucketPosition {Event : Type} (d : bucket Event)
    (xScale : option Z -> Double.number) (timeInterval : interval)
    (minBucketWidth : Double.number) : position :=
  let bucketStartDate := date d in
  let bucketEndDate := timeClip (offset timeInterval bucketStartDate 1) in
  let bucketStart := xScale (Some bucketStartDate) in
  let bucketEnd := xScale bucketEndDate in
  let x := Double.max Double.zero bucketStart in
  let rawWidth := Double.sub bucketEnd bucketStart in
  let width := Double.max rawWidth minBucketWidth in
  if Double.eqb x Double.zero && Double.ltb bucketStart Double.zero
  then Position x (Double.max minBucketWidth (Double.sub bucketEnd x))
  else Position x width.

End Heatmap.

(** ** src/heatmap.js on the [Date]s of a host (lines 13-63)

    [aggregateEvents] with an interval whose [floor] and [ceil] can give
    an Invalid Date, as d3's do at the ends of the range of [Date]. *)

Module DateRange.

Import Js D3 TimeScale.

(** [interval.floor(date)] and [interval.ceil(date)] on a valid [Date]:
    the time value of the result, [None] for an Invalid Date. *)
Record interval : Type := Interval {
  floor : Z -> option Z;
  ceil : Z -> option Z
}.

(** A setter applied to a [Date]: the time value it computes is clipped,
    and an Invalid Date stays one. *)
Definition andThen (date : option Z) (f : Z -> Z) : option Z :=
  match date with
  | Some t => timeClip (f t)
  | None => None
  end.

(** What d3-time makes of [floori] and [offseti] on [Date]s:
    [floor = date => (floori(date = new Date(+date)), date)] and
    [ceil = date => (floori(date = new Date(date - 1)), offseti(date, 1),
    floori(date), date)]. *)
Definition onDates (i : D3.interval) : interval :=
  {| floor := fun date => andThen (Some date) (D3.floor i);
     ceil := fun date =>
       andThen
         (andThen (andThen (timeClip (date - 1)) (D3.floor i))
            (fun d => D3.offset i d 1))
         (D3.floor i) |}.

(** An interval on instants, which gives no Invalid Date. *)
Definition total (i : D3.interval) : interval :=
  {| floor := fun date => Some (D3.floor i date);
     ceil := fun date => Some (D3.ceil i date) |}.

Section Aggregation.

Context {Event : Type}.
Variable xScale : D3.scale.
Variable dropDate : Event -> value.

(** The callback of [events.forEach].  The map is reached with a valid
    [bucketDate] only: a comparison with an Invalid Date is false. *)
Definition addEvent (timeInterval : interval)
    (domainStart domainEnd : Z) (bucketStartBound bucketEndBound : option Z)
    (buckets : @Heatmap.bucketMap Event) (event : Event)
    : @Heatmap.bucketMap Event :=
  match Heatmap.instantInDomain dropDate domainStart domainEnd event with
  | None => buckets
  | Some t =>
      let bucketDate := floor timeInterval t in
      if timeGeb bucketDate bucketStartBound
         && timeLeb bucketDate bucketEndBound
      then
        match bucketDate with
        | Some bucketKey =>
            let buckets :=
              if negb (Heatmap.has buckets bucketKey)
              then Heatmap.set buckets bucketKey
                     (Heatmap.Bucket bucketKey 0 [])
              else buckets in
            Heatmap.addTo buckets bucketKey event
        | None => buckets
        end
      else buckets
  end.

Definition aggregateEvents (events : Heatmap.data Event)
    (timeInterval : interval) : list (Heatmap.bucket Event) :=
  match validateDomain (domain xScale) with
  | None => []
  | Some domainInfo =>
      let domainStart := start domainInfo in
      let domainEnd := end_ domainInfo in
      let bucketStartBound := floor timeInterval domainStart in
      let bucketEndBound := ceil timeInterval domainEnd in
      let buckets :=
        match events with
        | Heatmap.Array items =>
            fold_left
              (addEvent timeInterval domainStart domainEnd
                 bucketStartBound bucketEndBound)
              items []
        | _ => []
        end in
      Heatmap.sortByDate (Heatmap.values buckets)
  end.

End Aggregation.

End DateRange.

(** ** A concrete d3 handle

    d3-time's intervals on a host whose local time zone is UTC, written
    after d3-time's [timeInterval(floori, offseti, count)] constructor and
    the [Date] methods the intervals call.  It is the [d3] argument of the
    concrete runs below. *)

Module D3Utc.

Import Js D3.

Definition durationSecond : Z := 1000.
Definition durationMinute : Z := durationSecond * 60.
Definition durationHour : Z := durationMinute * 60.
Definition durationDay : Z := durationHour * 24.
Definition durationWeek : Z := durationDay * 7.

(** Day number (days since 1970-01-01) of the civil date [y]-[m]-[d] of the
    proleptic Gregorian calendar, [m] in 1..12; [d] may leave the month. *)
Definition daysFromCivil (y m d : Z) : Z :=
  let y := if m <=? 2 then y - 1 else y in
  let era := y / 400 in
  let yoe := y - era * 400 in
  let doy := (153 * (if m >? 2 then m - 3 else m + 9) + 2) / 5 + d - 1 in
  let doe := yoe * 365 + yoe / 4 - yoe / 100 + doy in
  era * 146097 + doe - 719468.

(** The civil date [(year, month, day)] of a day number, month in 1..12. *)
Definition civilFromDays (z : Z) : Z * Z * Z :=
  let z := z + 719468 in
  let era := z / 146097 in
  let doe := z - era * 146097 in
  let yoe := (doe - doe / 1460 + doe / 36524 - doe / 146096) / 365 in
  let y := yoe + era * 400 in
  let doy := doe - (365 * yoe + yoe / 4 - yoe / 100) in
  let mp := (5 * doy + 2) / 153 in
  let d := doy - (153 * mp + 2) / 5 + 1 in
  let m := if mp <? 10 then mp + 3 else mp - 9 in
  (if m <=? 2 then y + 1 else y, m, d).

(** The [Date] getters, in UTC. *)
Definition dayOf (t : Z) : Z := t / durationDay.
Definition timeInDay (t : Z) : Z := t mod durationDay.
Definition getFullYear (t : Z) : Z := fst (fst (civilFromDays (dayOf t))).
(** [getMonth] counts from 0, as in JavaScript. *)
Definition getMonth (t : Z) : Z := snd (fst (civilFromDays (dayOf t))) - 1.
Definition getDate (t : Z) : Z := snd (civilFromDays (dayOf t)).
Definition getDay (t : Z) : Z := (dayOf t + 4) mod 7.
Definition getMinutes (t : Z) : Z := (t / durationMinute) mod 60.
Definition getSeconds (t : Z) : Z := (t / durationSecond) mod 60.
Definition getMilliseconds (t : Z) : Z := t mod durationSecond.

(** ECMAScript's [MakeDay(year, month, date)], [month] counted from 0 and
    free to leave 0..11. *)
Definition makeDay (year month date : Z) : Z :=
  daysFromCivil (year + month / 12) (month mod 12 + 1) 1 + date - 1.

(** The [Date] setters the intervals call. *)
Definition setHours0 (t : Z) : Z := t - timeInDay t.
Definition setDate (t date : Z) : Z :=
  makeDay (getFullYear t) (getMonth t) date * durationDay + timeInDay t.
Definition setMonth (t month : Z) : Z :=
  makeDay (getFullYear t) month (getDate t) * durationDay + timeInDay t.
Definition setMonthDate (t month date : Z) : Z :=
  makeDay (getFullYear t) month date * durationDay + timeInDay t.
Definition setFullYear (t year : Z) : Z :=
  makeDay year (getMonth t) (getDate t) * durationDay + timeInDay t.

(** d3-time's [timeInterval(floori, offseti, count)]. *)
Definition timeInterval (floori : Z -> Z) (offseti : Z -> Z -> Z)
    (count : Z -> Z -> Z) : interval :=
  {| floor := floori;
     ceil := fun date => floori (offseti (floori (date - 1)) 1);
     offset := offseti;
     count := fun start end_ => count (floori start) (floori end_) |}.

Definition timeSecond : interval :=
  timeInterval
    (fun date => date - getMilliseconds date)
    (fun date step => date + step * durationSecond)
    (fun start end_ => (end_ - start) / durationSecond).

Definition timeMinute : interval :=
  timeInterval
    (fun date => date - getMilliseconds date - getSeconds date * durationSecond)
    (fun date step => date + step * durationMinute)
    (fun start end_ => (end_ - start) / durationMinute).

Definition timeHour : interval :=
  timeInterval
    (fun date => date - getMilliseconds date - getSeconds date * durationSecond
                 - getMinutes date * durationMinute)
    (fun date step => date + step * durationHour)
    (fun start end_ => (end_ - start) / durationHour).

Definition timeDay : interval :=
  timeInterval
    setHours0
    (fun date step => setDate date (getDate date + step))
    (fun start end_ => (end_ - start) / durationDay).

(** [d3.timeWeek] is [d3.timeSunday]. *)
Definition timeWeek : interval :=
  timeInterval
    (fun date => setHours0 (setDate date (getDate date - (getDay date + 7 - 0) mod 7)))
    (fun date step => setDate date (getDate date + step * 7))
    (fun start end_ => (end_ - start) / durationWeek).

Definition timeMonth : interval :=
  timeInterval
    (fun date => setHours0 (setDate date 1))
    (fun date step => setMonth date (getMonth date + step))
    (fun start end_ =>
       getMonth end_ - getMonth start
       + (getFullYear end_ - getFullYear start) * 12).

Definition timeYear : interval :=
  timeInterval
    (fun date => setHours0 (setMonthDate date 0 1))
    (fun date step => setFullYear date (getFullYear date + step))
    (fun start end_ => getFullYear end_ - getFullYear start).

(** [d3.timeYear.every(k)] for [k > 0]; d3 gives it no [count]. *)
Definition timeYear_every (k : Z) : interval :=
  timeInterval
    (fun date =>
       setHours0 (setMonthDate (setFullYear date (getFullYear date / k * k)) 0 1))
    (fun date step => setFullYear date (getFullYear date + step * k))
    (fun _ _ => 0).

Definition d3 : library :=
  {| D3.timeYear := timeYear;
     D3.timeYear_every := timeYear_every;
     D3.timeMonth := timeMonth;
     D3.timeWeek := timeWeek;
     D3.timeDay := timeDay;
     D3.timeHour := timeHour;
     D3.timeMinute := timeMinute;
     D3.timeSecond := timeSecond |}.

(** The instant of midnight UTC on [y]-[m]-[d], [m] in 1..12. *)
Definition utc (y m d : Z) : Z := daysFromCivil y m d * durationDay.

(** A linear time scale from the domain [[d0, d1]] to the range
    [[r0, r1]]; its tick generator answers [sampleTicks] whatever the
    count asked for. *)
Definition scaleTime (d0 d1 : Z) (r0 r1 : Q) (sampleTicks : list Z) : scale :=
  {| domain := Some [Date (Some d0); Date (Some d1)];
     ticks := fun _ => sampleTicks;
     apply := fun t =>
       (r0 + inject_Z (t - d0) / inject_Z (d1 - d0) * (r1 - r0))%Q |}.

End D3Utc.

(** * Vocabulary of the properties

    The predicates in which the properties below are stated, and the
    concrete inputs they are run on. *)

Import Js D3 TimeScale.

(** The closed set of granularities, finest to coarsest. *)
Definition GRANULARITIES : list string :=
  [ "milliseconds"; "seconds"; "minutes"; "hours"; "days";
    "weeks"; "months"; "years"; "decades"; "millennium" ].

(** ** Domains *)

(** A domain supplies two valid bounds [s] and [e]: it is an array whose
    first two elements are dates with time values [s] and [e]. *)
Definition twoValidBounds (domain : option (list value)) (s e : Z) : Prop :=
  exists rest, domain = Some (Date (Some s) :: Date (Some e) :: rest).

(** The well-formedness of the data model: two valid bounds with
    [start < end]. *)
Definition wellFormed (domain : option (list value)) : Prop :=
  exists s e, twoValidBounds domain s e /\ s < e.

(** The malformed domains of the error-handling design: missing, fewer than
    two values, or a bound that is not a valid instant. *)
Definition malformed (domain : option (list value)) : Prop :=
  match domain with
  | None => True
  | Some d =>
      (List.length d < 2)%nat
      \/ isValidDate (nth 0 d Other) = false
      \/ isValidDate (nth 1 d Other) = false
  end.

(** ** Closest-unit inference *)

(** The fixed order in which the candidates are enumerated. *)
Definition CANDIDATE_ORDER : list string :=
  [ "millennium"; "decades"; "years"; "months"; "weeks"; "days"; "hours";
    "minutes"; "seconds"; "milliseconds" ].

(** [subsequence l k]: [l] is [k] with some elements left out. *)
Inductive subsequence {A : Type} : list A -> list A -> Prop :=
| subsequence_nil : subsequence [] []
| subsequence_skip x l k : subsequence l k -> subsequence l (x :: k)
| subsequence_keep x l k : subsequence l k -> subsequence (x :: l) (x :: k).

(** The distance of a candidate from the observed spacing. *)
Definition difference (tickDuration : Z) (c : candidate) : Z :=
  Z.abs (expectedDuration c - tickDuration).

(** [c] is the first candidate of [cs] at the least distance: the ones
    before it are strictly farther, the ones after it are not nearer. *)
Definition firstClosest (tickDuration : Z) (cs : list candidate)
    (c : candidate) : Prop :=
  exists pre post,
    cs = (pre ++ c :: post)%list
    /\ (forall c', In c' pre -> difference tickDuration c < difference tickDuration c')
    /\ (forall c', In c' post -> difference tickDuration c <= difference tickDuration c').

(** The nine calendar units of the inference, coarsest first. *)
Definition UNITS : list string :=
  [ "millennium"; "decades"; "years"; "months"; "weeks"; "days"; "hours";
    "minutes"; "seconds" ].

(** The interval whose [count] and [offset] the code applies for a unit:
    [d3.timeYear] for millennium, decades and years, the unit's own interval
    otherwise. *)
Definition countingInterval (d3 : library) (unit : string) : interval :=
  if String.eqb unit "millennium" then timeYear d3
  else if String.eqb unit "decades" then timeYear d3
  else getD3TimeInterval d3 unit.

(** The least count of the counting interval at which a unit qualifies. *)
Definition threshold (unit : string) : Z :=
  if String.eqb unit "millennium" then 1000
  else if String.eqb unit "decades" then 10
  else 1.

(** The integer count of a unit, from the count [n] of its counting
    interval. *)
Definition unitCount (unit : string) (n : Z) : Z :=
  if String.eqb unit "millennium" then n / 1000
  else if String.eqb unit "decades" then n / 10
  else n.

(** C3 as stated: the expected duration of every unit's candidate is the
    time elapsed when [tick1] is advanced by the candidate's count of that
    unit. *)
Definition expectedDurationAdvancesByUnitCount (d3 : library)
    (tick1 tick2 : Z) : Prop :=
  forall c,
    In c (tickCandidates d3 tick1 tick2) ->
    In (scale c) UNITS ->
    expectedDuration c
    = offset (getD3TimeInterval d3 (scale c)) tick1 (TimeScale.count c) - tick1.

(** Splits off the first alternative of [H], the candidate of unit [u]. *)
Ltac pick H u :=
  let Hge := fresh "Hge" in
  destruct H as [[Hge ->]|H];
  [right; exists u; split; [simpl; tauto|split; [exact Hge|reflexivity]]|].

(** ** Aggregation and normalisation *)

(** The laws of d3's intervals the aggregation relies on: [floor] never
    exceeds its argument and is monotone, [ceil] is never below its
    argument. *)
Record lawful (i : interval) : Prop := Lawful {
  floor_le : forall t, floor i t <= t;
  floor_monotone : forall a b, a <= b -> floor i a <= floor i b;
  ceil_ge : forall t, t <= ceil i t
}.

(** The same laws where a result can be an Invalid Date, asked on the
    domain [[s, e)] only: the floor of each of its instants is a valid
    date, never after the instant, and monotone; the ceiling of [e] is a
    valid date, never before [e]. *)
Record lawfulWithin (i : DateRange.interval) (s e : Z) : Prop :=
  LawfulWithin {
    floor_within :
      forall t, s <= t < e ->
                exists f, DateRange.floor i t = Some f /\ f <= t;
    floor_monotone_within :
      forall a b fa fb,
        s <= a -> a <= b -> b < e ->
        DateRange.floor i a = Some fa -> DateRange.floor i b = Some fb ->
        fa <= fb;
    ceil_end : exists c, DateRange.ceil i e = Some c /\ e <= c
  }.

(** The event's instant is valid and lies in [[s, e)]. *)
Definition validInstantWithin (s e : Z) (v : value) : bool :=
  match v with
  | Date (Some t) => (s <=? t) && (t <? e)
  | _ => false
  end.

Section AggregationVocabulary.

Import Heatmap.

Context {Event : Type}.

(** The sum of [count] over a sequence of buckets. *)
Definition sumCounts (l : list (bucket Event)) : Z :=
  fold_right Z.add 0 (map Heatmap.count l).

(** Every bucket of the map holds at least one event. *)
Definition populated (m : @bucketMap Event) : Prop :=
  Forall (fun kb => 1 <= Heatmap.count (snd kb)) m.

End AggregationVocabulary.

(** The intensity given to a bucket of count [count] in a row of maximum
    [maxCount]. *)
Definition normalised (count maxCount : Z) : Q :=
  Qmin (inject_Z count / inject_Z maxCount) 1.

(** ** Refinement *)

Section RefinementVocabulary.

Variable d3 : library.
Variable xScale : D3.scale.

(** The pixel width of one bucket at the granularity of index [i] of the
    hierarchy. *)
Definition widthAt (i : Z) : Q :=
  calculateBucketWidth d3 xScale (hierarchyAt i).

(** The index in the hierarchy the walks start from: that of the initial
    granularity, or that of ['days'] when it is not in the hierarchy. *)
Definition startIndex (bucketScale : string) : Z :=
  fst (fst (refineStart d3 xScale bucketScale)).

(** [k] is the nearest granularity coarser than [i0] whose width reaches
    [m]. *)
Definition nearestCoarser (m : Q) (i0 k : Z) : Prop :=
  i0 < k < HIERARCHY_LENGTH
  /\ (m <= widthAt k)%Q
  /\ forall l, i0 < l < k -> (widthAt l < m)%Q.

Definition noneCoarser (m : Q) (i0 : Z) : Prop :=
  forall l, i0 < l < HIERARCHY_LENGTH -> (widthAt l < m)%Q.

(** [k] is the nearest granularity finer than [i0] whose width is at most
    [m]. *)
Definition nearestFiner (m : Q) (i0 k : Z) : Prop :=
  0 <= k < i0
  /\ (widthAt k <= m)%Q
  /\ forall l, k < l < i0 -> (m < widthAt l)%Q.

Definition noneFiner (m : Q) (i0 : Z) : Prop :=
  forall l, 0 <= l < i0 -> (m < widthAt l)%Q.

(** The guarantee for [minWidth]: the result [r] is the initial granularity
    when that is wide enough, else the nearest coarser one that is, else
    ['decades']. *)
Definition minWidthGuarantee (m : Q) (i0 : Z) (r : string) : Prop :=
  ((m <= widthAt i0)%Q -> r = hierarchyAt i0)
  /\ ((widthAt i0 < m)%Q ->
      (exists k, nearestCoarser m i0 k /\ r = hierarchyAt k)
      \/ (noneCoarser m i0 /\ r = "decades")).

(** The guarantee for [maxWidth]: the result [r] is the initial granularity
    when that is narrow enough, else the nearest finer one that is, else
    ['milliseconds']. *)
Definition maxWidthGuarantee (m : Q) (i0 : Z) (r : string) : Prop :=
  ((widthAt i0 <= m)%Q -> r = hierarchyAt i0)
  /\ ((m < widthAt i0)%Q ->
      (exists k, nearestFiner m i0 k /\ r = hierarchyAt k)
      \/ (noneFiner m i0 /\ r = "milliseconds")).

End RefinementVocabulary.

(** C5 as stated: whatever constraints are set, the result meets the
    guarantee of each constraint that is set. *)
Definition refinementMeetsEachConstraint (d3 : library) (xScale : D3.scale)
    (bucketScale : string) (bs : bucketSize) : Prop :=
  let i0 := startIndex d3 xScale bucketScale in
  let r := refineBucketScale d3 xScale bucketScale bs in
  (forall m, minWidth bs = Some m -> minWidthGuarantee d3 xScale m i0 r)
  /\ (forall m, maxWidth bs = Some m -> maxWidthGuarantee d3 xScale m i0 r).

(** ** The calendar of the concrete d3 handle *)

(** The day number of the first day of the month of index [M], the months
    being counted from January of year 0. *)
Definition monthStart (M : Z) : Z :=
  D3Utc.daysFromCivil (M / 12) (M mod 12 + 1) 1.

(** The index of the month a day number falls in. *)
Definition monthIndex (z : Z) : Z :=
  12 * fst (fst (D3Utc.civilFromDays z))
  + (snd (fst (D3Utc.civilFromDays z)) - 1).

(** The start of the period of [p] months (1: a month, 12: a year, 120: a
    decade) the instant [t] falls in. *)
Definition periodFloor (p t : Z) : Z :=
  monthStart (p * (monthIndex (D3Utc.dayOf t) / p)) * D3Utc.durationDay.

(** ** Concrete inputs *)

(** A run of C6: a five-year domain whose sampled ticks are one calendar
    year apart. *)
Definition yearlyTicksScale : D3.scale :=
  D3Utc.scaleTime (D3Utc.utc 2020 1 1) (D3Utc.utc 2025 1 1) 0 1000
    [ D3Utc.utc 2020 1 1; D3Utc.utc 2021 1 1; D3Utc.utc 2022 1 1;
      D3Utc.utc 2023 1 1; D3Utc.utc 2024 1 1; D3Utc.utc 2025 1 1 ].

(** A scale whose domain has an invalid end date. *)
Definition invalidEndScale : D3.scale :=
  {| domain := Some [Date (Some (D3Utc.utc 2020 1 1)); Date None];
     ticks := fun _ => [D3Utc.utc 2020 1 1; D3Utc.utc 2021 1 1];
     apply := fun t => inject_Z t |}.

(** A week-long domain whose ticks are one day apart: hourly buckets, so no
    heatmap; with a minimum width of 50px on a 700px range, daily buckets
    and the heatmap. *)
Definition dailyTicksScale : D3.scale :=
  D3Utc.scaleTime (D3Utc.utc 2020 1 1) (D3Utc.utc 2020 1 8) 0 700
    [ D3Utc.utc 2020 1 1; D3Utc.utc 2020 1 2; D3Utc.utc 2020 1 3 ].

(** Thirty days on 300 pixels: a day is 10px wide, a week 70px. *)
Definition thirtyDaysScale : D3.scale :=
  D3Utc.scaleTime (D3Utc.utc 2020 1 1) (D3Utc.utc 2020 1 31) 0 300
    [ D3Utc.utc 2020 1 1; D3Utc.utc 2020 1 8; D3Utc.utc 2020 1 15 ].

(** The week [2020-01-01, 2020-01-08) on 700 pixels. *)
Definition weekScale : D3.scale :=
  D3Utc.scaleTime (D3Utc.utc 2020 1 1) (D3Utc.utc 2020 1 8) 0 700
    [ D3Utc.utc 2020 1 1; D3Utc.utc 2020 1 2; D3Utc.utc 2020 1 3 ].

(** Events that are their own date: two on 2 January, one on 5 January, an
    invalid date, a value that is not a date, and one at the excluded end of
    the domain. *)
Definition weekEvents : list value :=
  [ Date (Some (D3Utc.utc 2020 1 2 + 3600000));
    Date (Some (D3Utc.utc 2020 1 2));
    Date None;
    Date (Some (D3Utc.utc 2020 1 5 + 1));
    Other;
    Date (Some (D3Utc.utc 2020 1 8)) ].

(** The last three days of the range of [Date], on 300 pixels. *)
Definition lastDaysScale : D3.scale :=
  D3Utc.scaleTime (MAX_TIME - 3 * D3Utc.durationDay) MAX_TIME 0 300 [].

(** The pixels of the week [2020-01-01, 2020-01-08) on 700 pixels, in
    doubles; an Invalid Date has none. *)
Definition weekPixels (date : option Z) : Double.number :=
  match date with
  | Some t =>
      Double.div (Double.ofZ ((t - D3Utc.utc 2020 1 1) * 700))
        (Double.ofZ (D3Utc.utc 2020 1 8 - D3Utc.utc 2020 1 1))
  | None => Double.NaN
  end.

(** A scale that puts a bucket between the pixels [0.1] and
    [0.35000000000000003]. *)
Definition roundedPixels (date : option Z) : Double.number :=
  match date with
  | Some t =>
      if t =? D3Utc.utc 2020 1 1
      then SpecFloat.S754_finite false 7205759403792794 (-56)
      else SpecFloat.S754_finite false 6305039478318695 (-54)
  | None => Double.NaN
  end.

(** ** Vocabulary of the further properties *)

Section RoutingVocabulary.

Import Heatmap.

Context {Event : Type}.
Variable dropDate : Event -> value.
Variable timeInterval : interval.
Variables domainStart domainEnd : Z.

(** The start of the bucket an event is put in by [aggregateEvents], when
    it is put in one: its instant is valid and within the domain, and the
    floor of its instant passes the envelope test. *)
Definition bucketOf (event : Event) : option Z :=
  match instantInDomain dropDate domainStart domainEnd event with
  | None => None
  | Some t =>
      let bucketDate := floor timeInterval t in
      if (bucketDate >=? floor timeInterval domainStart)
         && (bucketDate <=? ceil timeInterval domainEnd)
      then Some bucketDate
      else None
  end.

(** The event is put in the bucket starting at [key]. *)
Definition inBucket (key : Z) (event : Event) : bool :=
  match bucketOf event with
  | Some k => k =? key
  | None => false
  end.

(** The event is put in some bucket. *)
Definition bucketed (event : Event) : bool :=
  match bucketOf event with
  | Some _ => true
  | None => false
  end.

End RoutingVocabulary.

Section RoutedVocabulary.

Import Heatmap.

Context {Event : Type}.
Variable dropDate : Event -> value.
Variable timeInterval : interval.
Variables domainStart domainEnd : Z.

(** The invariant of the map of [aggregateEvents] after the events
    [processed]: its keys are distinct, every bucket is held under its own
    date, holds the processed events put in it, in their order, and counts
    them; and every bucket an event was put in is there. *)
Definition routed (m : @bucketMap Event) (processed : list Event) : Prop :=
  NoDup (map fst m)
  /\ (forall k b,
         In (k, b) m ->
         date b = k
         /\ events b
            = filter (inBucket dropDate timeInterval domainStart domainEnd k)
                processed
         /\ Heatmap.count b = Z.of_nat (List.length (events b)))
  /\ (forall ev k,
         In ev processed ->
         bucketOf dropDate timeInterval domainStart domainEnd ev = Some k ->
         In k (map fst m)).

End RoutedVocabulary.

(** The thresholds of [detectTickScaleFromDuration], in milliseconds:
    1000 and 10 years of 365.25 days, then 365, 30, 7 and 1 days, an hour,
    a minute and a second. *)
Definition durationScale (duration : Z) : string :=
  if duration >=? 31557600000000 then "millennium"
  else if duration >=? 315576000000 then "decades"
  else if duration >=? 31536000000 then "years"
  else if duration >=? 2592000000 then "months"
  else if duration >=? 604800000 then "weeks"
  else if duration >=? 86400000 then "days"
  else if duration >=? 3600000 then "hours"
  else if duration >=? 60000 then "minutes"
  else if duration >=? 1000 then "seconds"
  else "milliseconds".

(** The rank of a granularity, finest first; [-1] for any other string. *)
Definition rank (granularity : string) : Z :=
  indexOf GRANULARITIES granularity.

(** The tick granularities coarser than days. *)
Definition COARSER_THAN_DAYS : list string :=
  [ "weeks"; "months"; "years"; "decades"; "millennium" ].

(** The bucket widths grow with the granularity. *)
Definition widthsGrow (d3 : library) (xScale : D3.scale) : Prop :=
  forall i j,
    0 <= i -> i <= j -> j < HIERARCHY_LENGTH ->
    (widthAt d3 xScale i <= widthAt d3 xScale j)%Q.

(** The week of [weekScale] with its bounds exchanged. *)
Definition reversedWeekScale : D3.scale :=
  D3Utc.scaleTime (D3Utc.utc 2020 1 8) (D3Utc.utc 2020 1 1) 0 700
    [ D3Utc.utc 2020 1 1; D3Utc.utc 2020 1 2; D3Utc.utc 2020 1 3 ].

(** A scale whose tick generator yields a single tick. *)
Definition singleTickScale : D3.scale :=
  D3Utc.scaleTime (D3Utc.utc 2020 1 1) (D3Utc.utc 2020 1 8) 0 700
    [ D3Utc.utc 2020 1 1 ].

(** * Properties *)

(** ** Domain validation *)

Lemma isValidDate_true (v : value) :
  isValidDate v = true <-> exists t, v = Date (Some t).
Proof.
  destruct v as [[t|]|]; simpl; split.
  - intros _. now exists t.
  - reflexivity.
  - discriminate.
  - intros [t H]. discriminate H.
  - discriminate.
  - intros [t H]. discriminate H.
Qed.

Lemma validateDomain_Some (domain : option (list value)) (s e : Z) :
  validateDomain domain = Some (DomainInfo s e) <-> twoValidBounds domain s e.
Proof.
  unfold twoValidBounds. split.
  - destruct domain as [d|]; [|discriminate].
    destruct d as [|a [|b rest]]; try discriminate.
    unfold validateDomain.
    replace (Z.of_nat (List.length (a :: b :: rest)) <? 2) with false
      by (symmetry; apply Z.ltb_ge; simpl List.length; lia).
    cbn [nth].
    destruct a as [[s'|]|], b as [[e'|]|]; simpl; try discriminate.
    intros H. injection H as -> ->. now exists rest.
  - intros [rest ->]. unfold validateDomain.
    replace (Z.of_nat (List.length (Date (Some s) :: Date (Some e) :: rest)) <? 2)
      with false by (symmetry; apply Z.ltb_ge; simpl List.length; lia).
    reflexivity.
Qed.

Lemma validateDomain_None (domain : option (list value)) :
  validateDomain domain = None <-> malformed domain.
Proof.
  destruct domain as [d|]; simpl; [|tauto].
  destruct (Z.ltb_spec (Z.of_nat (List.length d)) 2) as [Hlt|Hge].
  - split; [intros _; left; lia | reflexivity].
  - destruct (isValidDate (nth 0 d Other)) eqn:Ha;
      destruct (isValidDate (nth 1 d Other)) eqn:Hb; simpl;
      try (split; [intros _; tauto | reflexivity]).
    apply isValidDate_true in Ha, Hb.
    destruct Ha as [s ->], Hb as [e ->]. simpl.
    split; [discriminate|].
    intros [H|[H|H]]; [lia|discriminate|discriminate].
Qed.

(** C1, as stated, fails: a domain whose two bounds are valid instants with
    the start a week after the end is accepted by [validateDomain], although
    it is not well-formed. *)
Lemma validateDomain_accepts_reversed_bounds :
  let domain :=
    Some [Date (Some (D3Utc.utc 2020 1 8)); Date (Some (D3Utc.utc 2020 1 1))] in
  validateDomain domain
    = Some (DomainInfo (D3Utc.utc 2020 1 8) (D3Utc.utc 2020 1 1))
  /\ ~ (validateDomain domain <> None <-> wellFormed domain).
Proof.
  split; [reflexivity|].
  intros [H _].
  destruct H as (s & e & [rest Heq] & Hlt); [discriminate|].
  injection Heq as <- <- _.
  vm_compute in Hlt. discriminate.
Qed.

(** C1, amended: [validateDomain] accepts a domain if and only if it
    supplies at least two bounds and the first two are valid instants, and
    it then returns exactly these two bounds; the order of the bounds is
    not examined. *)
Theorem validateDomain_accepts_iff_two_valid_bounds :
  forall (domain : option (list value)),
    (forall info,
        validateDomain domain = Some info
        <-> twoValidBounds domain (start info) (end_ info))
    /\ (validateDomain domain <> None
        <-> exists d, domain = Some d
                      /\ (2 <= List.length d)%nat
                      /\ isValidDate (nth 0 d Other) = true
                      /\ isValidDate (nth 1 d Other) = true).
Proof.
  intros domain. split.
  - intros [s e]. apply validateDomain_Some.
  - split.
    + intros H.
      destruct (validateDomain domain) as [[s e]|] eqn:Hv; [|congruence].
      apply validateDomain_Some in Hv. destruct Hv as [rest ->].
      eexists. split; [reflexivity|]. simpl. repeat split. lia.
    + intros (d & -> & Hlen & Ha & Hb) Hnone.
      apply validateDomain_None in Hnone. simpl in Hnone.
      destruct Hnone as [H|[H|H]]; [lia|congruence|congruence].
Qed.

(** ** The interval of a granularity *)

(** C9: ['milliseconds'] and ['seconds'] select the same interval
    ([d3.timeSecond]), so flooring, offsetting and the bucket width agree
    at the two granularities, and every string that is not one of the ten
    granularities selects [d3.timeDay]. *)
Theorem getD3TimeInterval_milliseconds_is_seconds :
  forall (d3 : library),
    getD3TimeInterval d3 "milliseconds" = getD3TimeInterval d3 "seconds"
    /\ getD3TimeInterval d3 "seconds" = timeSecond d3
    /\ (forall t, floor (getD3TimeInterval d3 "milliseconds") t
                  = floor (getD3TimeInterval d3 "seconds") t)
    /\ (forall xScale,
           calculateBucketWidth d3 xScale "milliseconds"
           = calculateBucketWidth d3 xScale "seconds")
    /\ (forall scale,
           ~ In scale GRANULARITIES ->
           getD3TimeInterval d3 scale = timeDay d3).
Proof.
  intros d3. repeat split.
  intros scale Hnot. unfold getD3TimeInterval.
  repeat match goal with
  | |- context [String.eqb scale ?s] =>
      destruct (String.eqb_spec scale s) as [->|_];
      [exfalso; apply Hnot; simpl; tauto|]
  end.
  reflexivity.
Qed.

(** ** Closest-unit inference *)

Lemma subsequence_app {A : Type} (l1 k1 l2 k2 : list A) :
  subsequence l1 k1 -> subsequence l2 k2 -> subsequence (l1 ++ l2) (k1 ++ k2).
Proof.
  intros H1 H2. induction H1; simpl; auto using @subsequence.
Qed.

Lemma subsequence_In {A : Type} (l k : list A) (x : A) :
  subsequence l k -> In x l -> In x k.
Proof.
  intros H. induction H; simpl; intros Hin; tauto.
Qed.

Lemma subsequence_pushIf (cond : bool) (c : candidate) :
  subsequence (map scale (pushIf cond c)) [scale c].
Proof.
  destruct cond; simpl; auto using @subsequence.
Qed.

Lemma tickCandidates_order (d3 : library) (tick1 tick2 : Z) :
  subsequence (map scale (tickCandidates d3 tick1 tick2)) CANDIDATE_ORDER.
Proof.
  unfold tickCandidates. cbv zeta. rewrite !map_app.
  change CANDIDATE_ORDER with
    (["millennium"] ++ ["decades"] ++ ["years"] ++ ["months"] ++ ["weeks"]
       ++ ["days"] ++ ["hours"] ++ ["minutes"] ++ ["seconds"]
       ++ ["milliseconds"])%list.
  repeat (apply subsequence_app; [apply subsequence_pushIf|]).
  simpl. auto using @subsequence.
Qed.

(** The invariant of the selection loop: either the state is unchanged and
    no candidate is below the current minimum, or the result is the first
    closest candidate and it is below the minimum. *)
Lemma closestCandidate_spec (d : Z) (cs : list candidate) :
  forall (bestScale : string) (minDifference : option Z),
    (closestCandidate d cs bestScale minDifference = bestScale
     /\ forall c, In c cs ->
          match minDifference with
          | None => False
          | Some m => m <= difference d c
          end)
    \/ (exists c,
          firstClosest d cs c
          /\ closestCandidate d cs bestScale minDifference = scale c
          /\ match minDifference with
             | None => True
             | Some m => difference d c < m
             end).
Proof.
  induction cs as [|c0 rest IH]; intros bestScale minDifference.
  - left. simpl. split; [reflexivity | intros c []].
  - cbn [closestCandidate]. fold (difference d c0).
    assert (Hstep :
      forall best', 
        (closestCandidate d rest (scale c0) (Some (difference d c0)) = best' ->
         match minDifference with
         | None => True
         | Some m => difference d c0 < m
         end ->
         exists c, firstClosest d (c0 :: rest) c
                   /\ best' = scale c
                   /\ match minDifference with
                      | None => True
                      | Some m => difference d c < m
                      end)).
    { intros best' Hres Hlt.
      destruct (IH (scale c0) (Some (difference d c0)))
        as [[Heq Hall]|(c & (pre & post & -> & Hpre & Hpost) & Heq & Hc)].
      - exists c0. split; [|split].
        + exists [], rest. split; [reflexivity|]. split; [intros c' []|].
          exact Hall.
        + congruence.
        + exact Hlt.
      - exists c. split; [|split].
        + exists (c0 :: pre), post. split; [reflexivity|]. split; [|exact Hpost].
          intros c' [<-|Hin]; [exact Hc | now apply Hpre].
        + congruence.
        + destruct minDifference as [m|]; [lia | exact I]. }
    destruct minDifference as [m|].
    + destruct (Z.ltb_spec (difference d c0) m) as [Hlt|Hge].
      * right. apply (Hstep _ eq_refl Hlt).
      * destruct (IH bestScale (Some m))
          as [[Heq Hall]|(c & (pre & post & -> & Hpre & Hpost) & Heq & Hc)].
        -- left. split; [exact Heq|]. intros c [<-|Hin]; [exact Hge | now apply Hall].
        -- right. exists c. split; [|split; [exact Heq | exact Hc]].
           exists (c0 :: pre), post. split; [reflexivity|]. split; [|exact Hpost].
           intros c' [<-|Hin]; [lia | now apply Hpre].
    + right. apply (Hstep _ eq_refl I).
Qed.

Lemma tickCandidates_fallback (d3 : library) (tick1 tick2 : Z) :
  exists init,
    tickCandidates d3 tick1 tick2
    = (init ++ [Candidate "milliseconds" (tick2 - tick1) 1])%list.
Proof.
  unfold tickCandidates. cbv zeta.
  repeat rewrite app_assoc. eexists. reflexivity.
Qed.

Lemma detectTickScaleFromTicks_firstClosest (d3 : library)
    (tick1 tick2 : Z) (rest : list Z) :
  exists c,
    firstClosest (tick2 - tick1) (tickCandidates d3 tick1 tick2) c
    /\ detectTickScaleFromTicks d3 (tick1 :: tick2 :: rest) = scale c.
Proof.
  cbn [detectTickScaleFromTicks].
  destruct (closestCandidate_spec (tick2 - tick1)
              (tickCandidates d3 tick1 tick2) "milliseconds" None)
    as [[_ Hall]|(c & Hfirst & Heq & _)].
  - destruct (tickCandidates_fallback d3 tick1 tick2) as [init Hinit].
    exfalso. apply (Hall (Candidate "milliseconds" (tick2 - tick1) 1)).
    rewrite Hinit. apply in_or_app. right. now left.
  - now exists c.
Qed.

Lemma firstClosest_In (d : Z) (cs : list candidate) (c : candidate) :
  firstClosest d cs c -> In c cs.
Proof.
  intros (pre & post & -> & _). apply in_or_app. right. now left.
Qed.

Lemma CANDIDATE_ORDER_GRANULARITIES (s : string) :
  In s CANDIDATE_ORDER -> In s GRANULARITIES.
Proof. simpl. tauto. Qed.

(** Every detected tick granularity is one of the ten granularities. *)
Lemma detectTickScaleFromTicks_range (d3 : library) (sampleTicks : list Z) :
  In (detectTickScaleFromTicks d3 sampleTicks) GRANULARITIES.
Proof.
  destruct sampleTicks as [|tick1 [|tick2 rest]]; try (simpl; tauto).
  destruct (detectTickScaleFromTicks_firstClosest d3 tick1 tick2 rest)
    as (c & Hfirst & ->).
  apply CANDIDATE_ORDER_GRANULARITIES.
  apply (subsequence_In _ _ _ (tickCandidates_order d3 tick1 tick2)).
  apply in_map. now apply firstClosest_In in Hfirst.
Qed.

Lemma detectTickScaleFromDuration_range (duration : Z) :
  In (detectTickScaleFromDuration duration) GRANULARITIES.
Proof.
  unfold detectTickScaleFromDuration. cbv zeta.
  repeat match goal with
  | |- context [if ?b then _ else _] => destruct b; [simpl; tauto|]
  end.
  simpl; tauto.
Qed.

Lemma In_pushIf (cond : bool) (c x : candidate) :
  In x (pushIf cond c) <-> cond = true /\ x = c.
Proof.
  destruct cond; simpl; split.
  - intros [<-|[]]. now split.
  - intros [_ ->]. now left.
  - intros [].
  - intros [H _]. discriminate H.
Qed.

(** The candidates, one by one. *)
Lemma In_tickCandidates (d3 : library) (tick1 tick2 : Z) (c : candidate) :
  In c (tickCandidates d3 tick1 tick2) <->
  (c = Candidate "milliseconds" (tick2 - tick1) 1
   \/ exists unit,
        In unit UNITS
        /\ threshold unit <= D3.count (countingInterval d3 unit) tick1 tick2
        /\ c = Candidate unit
                 (offset (countingInterval d3 unit) tick1
                    (D3.count (countingInterval d3 unit) tick1 tick2) - tick1)
                 (unitCount unit
                    (D3.count (countingInterval d3 unit) tick1 tick2))).
Proof.
  unfold tickCandidates. cbv zeta.
  rewrite !in_app_iff, !In_pushIf, !Z.geb_le.
  split.
  - intros H.
    pick H "millennium". pick H "decades". pick H "years". pick H "months".
    pick H "weeks". pick H "days". pick H "hours". pick H "minutes".
    pick H "seconds".
    left. destruct H as [<-|[]]. reflexivity.
  - intros [->|(unit & Hunit & Hge & ->)].
    + do 9 right. now left.
    + simpl in Hunit.
      repeat match type of Hunit with
      | _ \/ _ => destruct Hunit as [<-|Hunit]
      end; try contradiction; tauto.
Qed.

(** C3, as stated, fails: for two ticks fifteen calendar years apart the
    decades candidate has count 1, but its expected duration is the fifteen
    years from [tick1], not the time elapsed by advancing [tick1] by one
    decade. *)
Lemma decades_candidate_spans_all_years :
  let tick1 := D3Utc.utc 2000 1 1 in
  let tick2 := D3Utc.utc 2015 1 1 in
  In (Candidate "decades" (D3Utc.utc 2015 1 1 - D3Utc.utc 2000 1 1) 1)
     (tickCandidates D3Utc.d3 tick1 tick2)
  /\ offset (getD3TimeInterval D3Utc.d3 "decades") tick1 1 - tick1
     = D3Utc.utc 2010 1 1 - D3Utc.utc 2000 1 1
  /\ ~ expectedDurationAdvancesByUnitCount D3Utc.d3 tick1 tick2.
Proof.
  cbv zeta. split; [|split].
  - vm_compute. tauto.
  - reflexivity.
  - intros H.
    specialize (H (Candidate "decades"
                     (D3Utc.utc 2015 1 1 - D3Utc.utc 2000 1 1) 1)).
    assert (Hin : In (Candidate "decades"
                        (D3Utc.utc 2015 1 1 - D3Utc.utc 2000 1 1) 1)
                     (tickCandidates D3Utc.d3 (D3Utc.utc 2000 1 1)
                        (D3Utc.utc 2015 1 1))) by (vm_compute; tauto).
    specialize (H Hin). vm_compute in H.
    discriminate (H (or_intror (or_introl eq_refl))).
Qed.

(** C3, amended: a unit has a candidate exactly when the count of its
    counting interval between the two ticks reaches its threshold (1000
    years for millennium, 10 years for decades, 1 otherwise); the
    candidate's count is then at least 1, being floor(yearCount/1000) for
    millennium and floor(yearCount/10) for decades.  For years, months,
    weeks, days, hours, minutes and seconds the expected duration is the
    time elapsed when [tick1] is advanced by that count of the unit; for
    millennium and decades it is the time elapsed when [tick1] is advanced
    by yearCount years, the same as for the years candidate. *)
Theorem tickCandidates_expected_duration :
  forall (d3 : library) (tick1 tick2 : Z),
    let yearCount := D3.count (timeYear d3) tick1 tick2 in
    (forall unit,
        In unit UNITS ->
        (In unit (map scale (tickCandidates d3 tick1 tick2))
         <-> threshold unit <= D3.count (countingInterval d3 unit) tick1 tick2))
    /\ (forall c,
          In c (tickCandidates d3 tick1 tick2) ->
          1 <= TimeScale.count c)
    /\ (forall c,
          In c (tickCandidates d3 tick1 tick2) ->
          In (scale c) ["years"; "months"; "weeks"; "days"; "hours";
                        "minutes"; "seconds"] ->
          TimeScale.count c
          = D3.count (getD3TimeInterval d3 (scale c)) tick1 tick2
          /\ expectedDuration c
             = offset (getD3TimeInterval d3 (scale c)) tick1
                 (TimeScale.count c) - tick1)
    /\ (forall c,
          In c (tickCandidates d3 tick1 tick2) ->
          scale c = "millennium" ->
          1000 <= yearCount
          /\ TimeScale.count c = yearCount / 1000
          /\ expectedDuration c = offset (timeYear d3) tick1 yearCount - tick1)
    /\ (forall c,
          In c (tickCandidates d3 tick1 tick2) ->
          scale c = "decades" ->
          10 <= yearCount
          /\ TimeScale.count c = yearCount / 10
          /\ expectedDuration c = offset (timeYear d3) tick1 yearCount - tick1).
Proof.
  intros d3 tick1 tick2 yearCount. subst yearCount.
  split; [|split; [|split; [|split]]].
  - intros unit Hunit. split.
    + intros Hin. apply in_map_iff in Hin. destruct Hin as (c & <- & Hin).
      apply In_tickCandidates in Hin.
      destruct Hin as [->|(unit' & Hunit' & Hge & ->)]; [|exact Hge].
      exfalso. simpl in Hunit.
      repeat (destruct Hunit as [Hunit|Hunit]; [discriminate Hunit|]).
      exact Hunit.
    + intros Hge. apply in_map_iff.
      eexists (Candidate unit _ _). split; [reflexivity|].
      apply In_tickCandidates. right. exists unit. repeat split; eauto.
  - intros c Hin. apply In_tickCandidates in Hin.
    destruct Hin as [->|(unit & Hunit & Hge & ->)]; [simpl; lia|].
    simpl in Hunit.
    repeat (destruct Hunit as [<-|Hunit]; [cbn in Hge |- *|]);
      try contradiction; try exact Hge;
      apply Z.div_le_lower_bound; lia.
  - intros c Hin Hscale. apply In_tickCandidates in Hin.
    destruct Hin as [->|(unit & Hunit & Hge & ->)].
    + exfalso. simpl in Hscale.
      repeat (destruct Hscale as [Hscale|Hscale]; [discriminate Hscale|]).
      exact Hscale.
    + cbn [scale] in Hscale. simpl in Hscale.
      repeat (destruct Hscale as [<-|Hscale]; [split; reflexivity|]).
      contradiction.
  - intros c Hin Hscale. apply In_tickCandidates in Hin.
    destruct Hin as [->|(unit & Hunit & Hge & ->)]; [discriminate|].
    cbn [scale] in Hscale. subst unit. repeat split. exact Hge.
  - intros c Hin Hscale. apply In_tickCandidates in Hin.
    destruct Hin as [->|(unit & Hunit & Hge & ->)]; [discriminate|].
    cbn [scale] in Hscale. subst unit. repeat split. exact Hge.
Qed.

(** C4: the candidates are enumerated in the fixed order, the last one
    always being the milliseconds fallback whose expected duration is the
    observed spacing; the inference returns the first candidate at the least
    distance from the observed spacing (candidates before it are strictly
    farther, so a tie keeps the earlier, coarser one), and its result is
    one of the ten granularities for any two ticks. *)
Theorem detectTickScaleFromTicks_first_closest :
  forall (d3 : library) (tick1 tick2 : Z) (rest : list Z),
    let candidates := tickCandidates d3 tick1 tick2 in
    let tickDuration := tick2 - tick1 in
    subsequence (map scale candidates) CANDIDATE_ORDER
    /\ (exists init,
           candidates
           = (init ++ [Candidate "milliseconds" tickDuration 1])%list)
    /\ difference tickDuration (Candidate "milliseconds" tickDuration 1) = 0
    /\ (exists c,
           firstClosest tickDuration candidates c
           /\ detectTickScaleFromTicks d3 (tick1 :: tick2 :: rest) = scale c)
    /\ In (detectTickScaleFromTicks d3 (tick1 :: tick2 :: rest)) GRANULARITIES.
Proof.
  intros d3 tick1 tick2 rest candidates tickDuration.
  subst candidates tickDuration.
  split; [apply tickCandidates_order|].
  split; [apply tickCandidates_fallback|].
  split; [unfold difference; simpl; rewrite Z.sub_diag; reflexivity|].
  split; [apply detectTickScaleFromTicks_firstClosest|].
  apply detectTickScaleFromTicks_range.
Qed.

(** ** The resolver *)

Lemma tickScale_range (d3 : library) (xScale : D3.scale) (info : domainInfo)
    (numberDisplayedTicks : option (list (string * Z)))
    (breakpointLabel : option string) :
  In (tickScale d3 xScale info numberDisplayedTicks breakpointLabel)
     GRANULARITIES.
Proof.
  unfold tickScale. cbv zeta.
  destruct (_ <? 2).
  - apply detectTickScaleFromDuration_range.
  - apply detectTickScaleFromTicks_range.
Qed.

Lemma lookup_BUCKET_SCALE_MAP_defined (tickScale : string) :
  In tickScale GRANULARITIES ->
  exists bucketScale,
    lookup BUCKET_SCALE_MAP tickScale = Some bucketScale
    /\ In bucketScale TIMESCALE_HIERARCHY.
Proof.
  simpl. intros H.
  repeat (destruct H as [<-|H];
          [eexists; split; [reflexivity | simpl; tauto]|]).
  contradiction.
Qed.

(** C6: the table and its use by [getTimeScale].  For a validated domain
    the detected tick granularity always has an entry; without size
    constraints the result is that entry, and with a constraint it is the
    refinement of that entry.  In particular a tick granularity of years
    gives months and milliseconds gives milliseconds. *)
Theorem getTimeScale_maps_tick_scale_through_table :
  forall (d3 : library) (xScale : D3.scale)
         (numberDisplayedTicks : option (list (string * Z)))
         (breakpointLabel : option string) (info : domainInfo),
    validateDomain (domain xScale) = Some info ->
    let detected :=
      tickScale d3 xScale info numberDisplayedTicks breakpointLabel in
    (lookup BUCKET_SCALE_MAP "millennium" = Some "decades"
     /\ lookup BUCKET_SCALE_MAP "decades" = Some "years"
     /\ lookup BUCKET_SCALE_MAP "years" = Some "months"
     /\ lookup BUCKET_SCALE_MAP "months" = Some "weeks"
     /\ lookup BUCKET_SCALE_MAP "weeks" = Some "days"
     /\ lookup BUCKET_SCALE_MAP "days" = Some "hours"
     /\ lookup BUCKET_SCALE_MAP "hours" = Some "minutes"
     /\ lookup BUCKET_SCALE_MAP "minutes" = Some "seconds"
     /\ lookup BUCKET_SCALE_MAP "seconds" = Some "milliseconds"
     /\ lookup BUCKET_SCALE_MAP "milliseconds" = Some "milliseconds")
    /\ (exists bucketScale,
           lookup BUCKET_SCALE_MAP detected = Some bucketScale
           /\ getTimeScale d3 xScale numberDisplayedTicks breakpointLabel None
              = bucketScale
           /\ getTimeScale d3 xScale numberDisplayedTicks breakpointLabel
                (Some (BucketSize None None))
              = bucketScale
           /\ forall bs,
                minWidth bs <> None \/ maxWidth bs <> None ->
                getTimeScale d3 xScale numberDisplayedTicks breakpointLabel
                  (Some bs)
                = refineBucketScale d3 xScale bucketScale bs)
    /\ (detected = "years" ->
        getTimeScale d3 xScale numberDisplayedTicks breakpointLabel None
        = "months")
    /\ (detected = "milliseconds" ->
        getTimeScale d3 xScale numberDisplayedTicks breakpointLabel None
        = "milliseconds").
Proof.
  intros d3 xScale ndt label info Hvalid detected.
  split; [repeat split|].
  unfold getTimeScale. rewrite Hvalid. fold detected.
  split; [|split].
  - destruct (lookup_BUCKET_SCALE_MAP_defined detected
                (tickScale_range d3 xScale info ndt label))
      as (bucketScale & Hlookup & _).
    exists bucketScale. rewrite Hlookup.
    split; [reflexivity|]. split; [reflexivity|]. split; [reflexivity|].
    intros [minW maxW] Hset. simpl in Hset |- *.
    destruct minW, maxW; try reflexivity.
    destruct Hset as [H|H]; now elim H.
  - intros ->. reflexivity.
  - intros ->. reflexivity.
Qed.

Lemma getTimeScale_maps_tick_scale_through_table_witness :
  tickScale D3Utc.d3 yearlyTicksScale
    (DomainInfo (D3Utc.utc 2020 1 1) (D3Utc.utc 2025 1 1)) None None
  = "years"
  /\ getTimeScale D3Utc.d3 yearlyTicksScale None None None = "months".
Proof.
  split; [reflexivity|].
  apply (getTimeScale_maps_tick_scale_through_table D3Utc.d3 yearlyTicksScale
           None None (DomainInfo (D3Utc.utc 2020 1 1) (D3Utc.utc 2025 1 1))
           eq_refl).
  reflexivity.
Defined.

(** ** Malformed domains *)

(** C7: for a malformed domain (missing, fewer than two values, or a bound
    that is not a valid instant) [getTimeScale] returns ['days'] and
    [aggregateEvents] returns no bucket, whatever the other arguments. *)
Theorem malformed_domain_defaults :
  forall (d3 : library) (xScale : D3.scale)
         (numberDisplayedTicks : option (list (string * Z)))
         (breakpointLabel : option string)
         (bucketSize : option bucketSize)
         (Event : Type) (dropDate : Event -> value)
         (events : Heatmap.data Event) (timeInterval : interval),
    malformed (domain xScale) ->
    getTimeScale d3 xScale numberDisplayedTicks breakpointLabel bucketSize
    = "days"
    /\ Heatmap.aggregateEvents xScale dropDate events timeInterval = [].
Proof.
  intros d3 xScale ndt label bs Event dropDate events timeInterval Hbad.
  apply validateDomain_None in Hbad.
  unfold getTimeScale, Heatmap.aggregateEvents. rewrite Hbad. now split.
Qed.

Lemma malformed_domain_defaults_witness :
  malformed (domain invalidEndScale)
  /\ getTimeScale D3Utc.d3 invalidEndScale None None
       (Some (BucketSize (Some 10%Q) (Some 180%Q)))
     = "days"
  /\ Heatmap.aggregateEvents invalidEndScale
       (fun t : Z => Date (Some t)) (Heatmap.Array [D3Utc.utc 2020 1 2])
       D3Utc.timeDay
     = [].
Proof.
  assert (Hbad : malformed (domain invalidEndScale))
    by (simpl; right; right; reflexivity).
  split; [exact Hbad|].
  exact (malformed_domain_defaults D3Utc.d3 invalidEndScale None None
           (Some (BucketSize (Some 10%Q) (Some 180%Q))) Z
           (fun t : Z => Date (Some t)) (Heatmap.Array [D3Utc.utc 2020 1 2])
           D3Utc.timeDay Hbad).
Defined.

(** C10: for a malformed domain [shouldUseHeatmap] is [false], although
    the granularity resolved for it is ['days'], a member of the
    heatmap-enabling set; for any other domain it is [true] exactly when
    the resolved granularity is in that set. *)
Theorem shouldUseHeatmap_iff_heatmap_scale :
  forall (d3 : library) (xScale : D3.scale)
         (numberDisplayedTicks : option (list (string * Z)))
         (breakpointLabel : option string)
         (bucketSize : option bucketSize),
    (malformed (domain xScale) ->
     shouldUseHeatmap d3 xScale numberDisplayedTicks breakpointLabel bucketSize
     = false
     /\ getTimeScale d3 xScale numberDisplayedTicks breakpointLabel bucketSize
        = "days"
     /\ In "days" HEATMAP_SCALES)
    /\ (~ malformed (domain xScale) ->
        (shouldUseHeatmap d3 xScale numberDisplayedTicks breakpointLabel
           bucketSize = true
         <-> In (getTimeScale d3 xScale numberDisplayedTicks breakpointLabel
                   bucketSize)
                HEATMAP_SCALES)).
Proof.
  intros d3 xScale ndt label bs. split.
  - intros Hbad. apply validateDomain_None in Hbad.
    unfold shouldUseHeatmap, getTimeScale. rewrite Hbad.
    repeat split. simpl. tauto.
  - intros Hgood. rewrite <- validateDomain_None in Hgood.
    unfold shouldUseHeatmap.
    destruct (validateDomain (domain xScale)) as [info|]; [|congruence].
    cbn [isValidDate instanceofDate getTime negb orb andb].
    unfold includes. rewrite existsb_exists. split.
    + intros (s & Hin & Heq). apply String.eqb_eq in Heq. now subst s.
    + intros Hin. eexists. split; [exact Hin | apply String.eqb_refl].
Qed.

Lemma shouldUseHeatmap_iff_heatmap_scale_witness :
  (malformed (domain invalidEndScale)
   /\ shouldUseHeatmap D3Utc.d3 invalidEndScale None None None = false)
  /\ (~ malformed (domain dailyTicksScale)
      /\ getTimeScale D3Utc.d3 dailyTicksScale None None
           (Some (BucketSize (Some 50%Q) None)) = "days"
      /\ shouldUseHeatmap D3Utc.d3 dailyTicksScale None None
           (Some (BucketSize (Some 50%Q) None)) = true).
Proof.
  assert (Hbad : malformed (domain invalidEndScale))
    by (simpl; right; right; reflexivity).
  assert (Hgood : ~ malformed (domain dailyTicksScale)).
  { simpl. intros [H|[H|H]]; [lia | discriminate H | discriminate H]. }
  split.
  - split; [exact Hbad|].
    apply (shouldUseHeatmap_iff_heatmap_scale D3Utc.d3 invalidEndScale
             None None None). exact Hbad.
  - split; [exact Hgood|]. split; [reflexivity|].
    apply (shouldUseHeatmap_iff_heatmap_scale D3Utc.d3 dailyTicksScale
             None None (Some (BucketSize (Some 50%Q) None))).
    + exact Hgood.
    + vm_compute. tauto.
Defined.

(** ** Aggregation *)

Section AggregationFacts.

Import Heatmap.

Context {Event : Type}.
Variable xScale : D3.scale.
Variable dropDate : Event -> value.

Lemma sumCounts_app (l k : list (bucket Event)) :
  sumCounts (l ++ k) = sumCounts l + sumCounts k.
Proof.
  unfold sumCounts. induction l as [|b l IH]; simpl; [reflexivity|].
  rewrite IH. lia.
Qed.

Lemma In_insertByDate (b x : bucket Event) (l : list (bucket Event)) :
  In x (insertByDate b l) <-> x = b \/ In x l.
Proof.
  induction l as [|y l IH]; simpl.
  - intuition congruence.
  - destruct (date b <=? date y); simpl; rewrite ?IH; intuition congruence.
Qed.

Lemma In_sortByDate (x : bucket Event) (l : list (bucket Event)) :
  In x (sortByDate l) <-> In x l.
Proof.
  induction l as [|y l IH]; simpl; [tauto|].
  rewrite In_insertByDate, IH. intuition congruence.
Qed.

Lemma sumCounts_insertByDate (b : bucket Event) (l : list (bucket Event)) :
  sumCounts (insertByDate b l) = Heatmap.count b + sumCounts l.
Proof.
  induction l as [|y l IH]; simpl; [reflexivity|].
  destruct (date b <=? date y); [reflexivity|].
  change (Heatmap.count y + sumCounts (insertByDate b l)
          = Heatmap.count b + (Heatmap.count y + sumCounts l)).
  rewrite IH. lia.
Qed.

Lemma sumCounts_sortByDate (l : list (bucket Event)) :
  sumCounts (sortByDate l) = sumCounts l.
Proof.
  induction l as [|y l IH]; simpl; [reflexivity|].
  rewrite sumCounts_insertByDate, IH. reflexivity.
Qed.

(** Incrementing the bucket held under a key of the map adds one to the
    sum. *)
Lemma sumCounts_addTo (m : bucketMap) (key : Z) (event : Event) :
  has m key = true ->
  sumCounts (values (addTo m key event)) = sumCounts (values m) + 1.
Proof.
  induction m as [|[k b] m IH]; simpl; [discriminate|].
  destruct (k =? key); simpl; intros H.
  - unfold sumCounts. simpl. lia.
  - change (Heatmap.count b + sumCounts (values (addTo m key event))
            = Heatmap.count b + sumCounts (values m) + 1).
    rewrite (IH H). lia.
Qed.

Lemma has_set (m : bucketMap) (key : Z) (b : bucket Event) :
  has (set m key b) key = true.
Proof.
  unfold set. induction m as [|[k b'] m IH]; simpl.
  - rewrite Z.eqb_refl. reflexivity.
  - rewrite IH. apply orb_true_r.
Qed.

Lemma sumCounts_set (m : bucketMap) (key : Z) (b : bucket Event) :
  sumCounts (values (set m key b)) = sumCounts (values m) + Heatmap.count b.
Proof.
  unfold set, values. rewrite map_app, sumCounts_app.
  unfold sumCounts at 2. simpl. lia.
Qed.

Lemma populated_addTo (m : bucketMap) (key : Z) (event : Event) :
  populated m -> populated (addTo m key event).
Proof.
  unfold populated. induction 1 as [|[k b] m Hb Hm IH]; simpl.
  - constructor.
  - destruct (k =? key); constructor; simpl in *; auto; lia.
Qed.

Lemma populated_addTo_set (m : bucketMap) (key d : Z) (event : Event) :
  has m key = false ->
  populated m -> populated (addTo (set m key (Bucket d 0 [])) key event).
Proof.
  unfold populated, set. intros Hhas Hm. revert Hhas.
  induction Hm as [|[k b] m Hb Hm IH]; simpl.
  - intros _. rewrite Z.eqb_refl. constructor; [simpl; lia | constructor].
  - destruct (k =? key); simpl; [discriminate|].
    intros Hhas. constructor; [exact Hb | exact (IH Hhas)].
Qed.

Section Fold.

Variable timeInterval : interval.
Variables domainStart domainEnd : Z.

Let step : @bucketMap Event -> Event -> @bucketMap Event :=
  addEvent dropDate timeInterval domainStart domainEnd
    (floor timeInterval domainStart) (ceil timeInterval domainEnd).

Lemma instantInDomain_validInstantWithin (event : Event) :
  validInstantWithin domainStart domainEnd (dropDate event)
  = match instantInDomain dropDate domainStart domainEnd event with
    | Some _ => true
    | None => false
    end.
Proof.
  unfold instantInDomain, validInstantWithin. cbv zeta.
  destruct (dropDate event) as [[t|]|]; simpl; try reflexivity.
  destruct (Z.ltb_spec t domainStart), (Z.leb_spec domainStart t),
    (Z.geb_spec t domainEnd), (Z.ltb_spec t domainEnd);
    simpl; try reflexivity; lia.
Qed.

Lemma instantInDomain_bounds (event : Event) (t : Z) :
  instantInDomain dropDate domainStart domainEnd event = Some t ->
  domainStart <= t < domainEnd.
Proof.
  unfold instantInDomain. cbv zeta.
  destruct (dropDate event) as [[t'|]|]; simpl; try discriminate.
  destruct (Z.ltb_spec t' domainStart) as [Hs|Hs];
    destruct (Z.geb_spec t' domainEnd) as [He|He];
    simpl; try discriminate.
  intros Heq. injection Heq as <-. lia.
Qed.

(** The envelope test of [aggregateEvents] holds for every event that
    passed the domain test. *)
Lemma envelope_test_passes (event : Event) (t : Z) :
  lawful timeInterval ->
  instantInDomain dropDate domainStart domainEnd event = Some t ->
  (floor timeInterval t >=? floor timeInterval domainStart)
  && (floor timeInterval t <=? ceil timeInterval domainEnd) = true.
Proof.
  intros [Hle Hmono Hceil] Hin. apply instantInDomain_bounds in Hin.
  apply andb_true_intro. split.
  - apply Z.geb_le. apply Hmono. lia.
  - apply Z.leb_le. specialize (Hle t). specialize (Hceil domainEnd). lia.
Qed.

Lemma populated_step (m : bucketMap) (event : Event) :
  populated m -> populated (step m event).
Proof.
  intros Hm. unfold step, addEvent.
  destruct (instantInDomain _ _ _ _) as [t|]; [|exact Hm].
  cbv zeta. destruct (_ && _); [|exact Hm].
  destruct (has m (floor timeInterval t)) eqn:Hhas; simpl.
  - now apply populated_addTo.
  - now apply populated_addTo_set.
Qed.

Lemma populated_fold (items : list Event) (m : bucketMap) :
  populated m -> populated (fold_left step items m).
Proof.
  revert m. induction items as [|ev items IH]; simpl; intros m Hm;
    [exact Hm|].
  apply IH. now apply populated_step.
Qed.

Lemma sumCounts_step (m : bucketMap) (event : Event) :
  lawful timeInterval ->
  sumCounts (values (step m event))
  = sumCounts (values m)
    + (if validInstantWithin domainStart domainEnd (dropDate event)
       then 1 else 0).
Proof.
  intros Hlaw. rewrite instantInDomain_validInstantWithin.
  unfold step, addEvent.
  destruct (instantInDomain _ _ _ _) as [t|] eqn:Hin; [|lia].
  cbv zeta. rewrite (envelope_test_passes event t Hlaw Hin).
  destruct (has m (floor timeInterval t)) eqn:Hhas; simpl.
  - now apply sumCounts_addTo.
  - rewrite sumCounts_addTo by apply has_set.
    rewrite sumCounts_set. simpl. lia.
Qed.

Lemma sumCounts_fold (items : list Event) (m : bucketMap) :
  lawful timeInterval ->
  sumCounts (values (fold_left step items m))
  = sumCounts (values m)
    + Z.of_nat (List.length
        (filter (fun ev => validInstantWithin domainStart domainEnd
                             (dropDate ev)) items)).
Proof.
  intros Hlaw. revert m.
  induction items as [|ev items IH]; intros m; simpl; [lia|].
  rewrite IH, (sumCounts_step m ev Hlaw).
  destruct (validInstantWithin _ _ _); simpl List.length; lia.
Qed.

End Fold.

Lemma aggregateEvents_populated (events : data Event) (timeInterval : interval) :
  Forall (fun b => 1 <= Heatmap.count b)
    (aggregateEvents xScale dropDate events timeInterval).
Proof.
  unfold aggregateEvents.
  destruct (validateDomain (domain xScale)) as [info|]; [|constructor].
  cbv zeta. apply Forall_forall. intros b Hin.
  apply -> In_sortByDate in Hin. unfold values in Hin.
  apply in_map_iff in Hin. destruct Hin as ([k b'] & <- & Hin).
  destruct events as [| |items]; try contradiction.
  pose proof (populated_fold timeInterval (start info) (end_ info) items []
                (Forall_nil _)) as Hpop.
  unfold populated in Hpop. rewrite Forall_forall in Hpop.
  apply (Hpop _ Hin).
Qed.

End AggregationFacts.

(** ** Normalisation *)

Section NormalisationFacts.

Import Heatmap.

Context {Event : Type}.

Lemma maxOfCounts_upper (buckets : list (bucket Event)) (b : bucket Event) :
  In b buckets -> Heatmap.count b <= maxOfCounts buckets.
Proof.
  unfold maxOfCounts.
  induction buckets as [|x l IH]; simpl; [contradiction|].
  intros [->|Hin]; [lia|]. specialize (IH Hin). lia.
Qed.

Lemma maxOfCounts_attained (buckets : list (bucket Event)) :
  0 < maxOfCounts buckets ->
  exists b, In b buckets /\ Heatmap.count b = maxOfCounts buckets.
Proof.
  unfold maxOfCounts.
  induction buckets as [|x l IH]; simpl; [lia|]. intros Hpos.
  destruct (Z.max_spec (Heatmap.count x)
              (fold_right Z.max 0 (map Heatmap.count l))) as [[Hlt ->]|[Hge ->]].
  - destruct (IH ltac:(lia)) as (b & Hin & Hb). exists b. tauto.
  - exists x. tauto.
Qed.

Lemma maxOfCounts_zero (buckets : list (bucket Event)) :
  (forall b, In b buckets -> Heatmap.count b <= 0) ->
  maxOfCounts buckets = 0.
Proof.
  unfold maxOfCounts.
  induction buckets as [|x l IH]; simpl; [reflexivity|]. intros H.
  rewrite IH by auto. specialize (H x (or_introl eq_refl)). lia.
Qed.

Lemma getMaxIntensity_positive (buckets : list (bucket Event)) :
  1 <= getMaxIntensity buckets.
Proof.
  unfold getMaxIntensity. destruct (_ =? 0); [cbv iota; lia|]. cbv zeta.
  rewrite Z.gtb_ltb. destruct (Z.ltb_spec 0 (maxOfCounts buckets)); lia.
Qed.

Lemma getMaxIntensity_max (buckets : list (bucket Event)) :
  0 < maxOfCounts buckets -> getMaxIntensity buckets = maxOfCounts buckets.
Proof.
  intros Hpos. unfold getMaxIntensity.
  destruct buckets as [|x l]; [vm_compute in Hpos; discriminate|].
  replace (Z.of_nat (List.length (x :: l)) =? 0) with false
    by (symmetry; apply Z.eqb_neq; simpl List.length; lia).
  cbv zeta. rewrite Z.gtb_ltb.
  destruct (Z.ltb_spec 0 (maxOfCounts (x :: l))); lia.
Qed.

Lemma getMaxIntensity_default (buckets : list (bucket Event)) :
  maxOfCounts buckets = 0 -> getMaxIntensity buckets = 1.
Proof.
  intros Hzero. unfold getMaxIntensity. destruct (_ =? 0); [reflexivity|].
  cbv zeta. rewrite Hzero. reflexivity.
Qed.

Lemma normalised_range (count maxCount : Z) :
  0 <= count -> 0 < maxCount ->
  (0 <= normalised count maxCount /\ normalised count maxCount <= 1)%Q.
Proof.
  intros Hc Hm. unfold normalised. split.
  - apply Q.min_glb; [|discriminate].
    apply Qle_shift_div_l.
    + change 0%Q with (inject_Z 0). rewrite <- Zlt_Qlt. exact Hm.
    + rewrite Qmult_0_l. change 0%Q with (inject_Z 0). rewrite <- Zle_Qle.
      exact Hc.
  - apply Q.le_min_r.
Qed.

Lemma normalised_max (maxCount : Z) :
  0 < maxCount -> (normalised maxCount maxCount == 1)%Q.
Proof.
  intros Hm. unfold normalised.
  assert (Hone : (inject_Z maxCount / inject_Z maxCount == 1)%Q).
  { apply Qmult_inv_r. intros H. unfold Qeq in H. simpl in H. lia. }
  rewrite Hone. reflexivity.
Qed.

Lemma withIntensity_normalised (buckets : list (bucket Event))
    (b : bucket Event) :
  withIntensity (getMaxIntensity buckets) b
  = HeatmapBucket b
      (normalised (Heatmap.count b) (getMaxIntensity buckets)).
Proof.
  unfold withIntensity, normalised.
  assert (Hpos : (getMaxIntensity buckets >? 0) = true).
  { rewrite Z.gtb_ltb. apply Z.ltb_lt.
    pose proof (getMaxIntensity_positive buckets). lia. }
  rewrite Hpos. reflexivity.
Qed.

(** Normalising a sequence of buckets of non-negative counts: every
    intensity lies in [[0, 1]], and when some count is positive a bucket
    of maximum count has intensity 1. *)
Lemma normalise_range_and_max (buckets : list (bucket Event)) :
  (forall b, In b buckets -> 0 <= Heatmap.count b) ->
  let out := map (withIntensity (getMaxIntensity buckets)) buckets in
  (forall h, In h out -> (0 <= intensity h /\ intensity h <= 1)%Q)
  /\ ((exists b, In b buckets /\ 0 < Heatmap.count b) ->
      exists h, In h out /\ (intensity h == 1)%Q).
Proof.
  intros Hnonneg out. subst out.
  pose proof (getMaxIntensity_positive buckets) as Hmax.
  split.
  - intros h Hin. apply in_map_iff in Hin. destruct Hin as (b & <- & Hin).
    rewrite withIntensity_normalised. cbn [intensity].
    apply normalised_range; [now apply Hnonneg | lia].
  - intros (b0 & Hin0 & Hpos0).
    assert (Hpos : 0 < maxOfCounts buckets).
    { pose proof (maxOfCounts_upper buckets b0 Hin0). lia. }
    destruct (maxOfCounts_attained buckets Hpos) as (b & Hin & Hcount).
    exists (withIntensity (getMaxIntensity buckets) b). split.
    + apply in_map. exact Hin.
    + rewrite withIntensity_normalised. cbn [intensity].
      rewrite (getMaxIntensity_max buckets Hpos), Hcount.
      apply normalised_max. exact Hpos.
Qed.

End NormalisationFacts.

(** C8: [getMaxIntensity] is the maximum count of the row's buckets, and 1
    when the sequence is empty or all counts are 0; every bucket gets the
    intensity [min(count / maxCount, 1)], which lies in [[0, 1]]; for a
    non-empty sequence of buckets, each holding at least one event as the
    aggregation builds them, a bucket of intensity 1 exists, so the maximum
    intensity is 1; this holds of every non-empty result of
    [getHeatmapBucketData], and no bucket gives no output. *)
Theorem getHeatmapBucketData_normalises_per_row :
  forall (Event : Type) (xScale : D3.scale) (dropDate : Event -> value)
         (timeInterval : interval),
    (forall buckets : list (Heatmap.bucket Event),
        (buckets = [] -> Heatmap.getMaxIntensity buckets = 1)
        /\ ((forall b, In b buckets -> Heatmap.count b = 0) ->
            Heatmap.getMaxIntensity buckets = 1)
        /\ ((exists b, In b buckets /\ 0 < Heatmap.count b) ->
            (forall b, In b buckets ->
                       Heatmap.count b <= Heatmap.getMaxIntensity buckets)
            /\ exists b, In b buckets
                         /\ Heatmap.count b = Heatmap.getMaxIntensity buckets))
    /\ (forall (buckets : list (Heatmap.bucket Event)) (b : Heatmap.bucket Event),
          Heatmap.withIntensity (Heatmap.getMaxIntensity buckets) b
          = Heatmap.HeatmapBucket b
              (Qmin (inject_Z (Heatmap.count b)
                     / inject_Z (Heatmap.getMaxIntensity buckets)) 1))
    /\ (forall buckets : list (Heatmap.bucket Event),
          buckets <> [] ->
          (forall b, In b buckets -> 1 <= Heatmap.count b) ->
          let out :=
            map (Heatmap.withIntensity (Heatmap.getMaxIntensity buckets))
              buckets in
          (forall h, In h out ->
                     (0 <= Heatmap.intensity h /\ Heatmap.intensity h <= 1)%Q)
          /\ exists h, In h out /\ (Heatmap.intensity h == 1)%Q)
    /\ (forall (d : option (Heatmap.data Event)),
          let out :=
            Heatmap.getHeatmapBucketData xScale dropDate timeInterval d in
          (forall events,
              d = Some events -> events <> Heatmap.Missing ->
              let buckets :=
                Heatmap.aggregateEvents xScale dropDate events timeInterval in
              out = map (Heatmap.withIntensity
                           (Heatmap.getMaxIntensity buckets)) buckets)
          /\ (forall h, In h out ->
                        (0 <= Heatmap.intensity h
                         /\ Heatmap.intensity h <= 1)%Q)
          /\ (out <> [] ->
              exists h, In h out /\ (Heatmap.intensity h == 1)%Q))
    /\ (map (Heatmap.withIntensity
               (Heatmap.getMaxIntensity (@nil (Heatmap.bucket Event))))
           (@nil (Heatmap.bucket Event))
        = []
        /\ forall events : Heatmap.data Event,
             Heatmap.aggregateEvents xScale dropDate events timeInterval = [] ->
             Heatmap.getHeatmapBucketData xScale dropDate timeInterval
               (Some events) = []).
Proof.
  intros Event xScale dropDate timeInterval.
  split; [|split; [|split; [|split]]].
  - intros buckets. split; [|split].
    + intros ->. reflexivity.
    + intros Hzero. apply getMaxIntensity_default, maxOfCounts_zero.
      intros b Hin. rewrite (Hzero b Hin). lia.
    + intros (b0 & Hin0 & Hpos0).
      assert (Hpos : 0 < Heatmap.maxOfCounts buckets).
      { pose proof (maxOfCounts_upper buckets b0 Hin0). lia. }
      rewrite (getMaxIntensity_max buckets Hpos). split.
      * intros b Hin. now apply maxOfCounts_upper.
      * now apply maxOfCounts_attained.
  - intros buckets b. apply withIntensity_normalised.
  - intros buckets Hne Hpop out.
    destruct (normalise_range_and_max buckets) as [Hrange Hmax].
    { intros b Hin. specialize (Hpop b Hin). lia. }
    split; [exact Hrange|]. apply Hmax.
    destruct buckets as [|b0 l]; [now elim Hne|].
    exists b0. split; [now left|].
    specialize (Hpop b0 (or_introl eq_refl)). lia.
  - intros d out.
    assert (Hmap : forall events,
      d = Some events -> events <> Heatmap.Missing ->
      out = map (Heatmap.withIntensity
                   (Heatmap.getMaxIntensity
                      (Heatmap.aggregateEvents xScale dropDate events
                         timeInterval)))
                (Heatmap.aggregateEvents xScale dropDate events
                   timeInterval)).
    { intros events -> Hpresent. subst out.
      destruct events; [congruence | reflexivity | reflexivity]. }
    split; [exact Hmap|].
    assert (Hcases : out = [] \/ exists events,
                       d = Some events /\ events <> Heatmap.Missing).
    { subst out. destruct d as [events|]; [|now left].
      destruct events as [| |items]; [now left| |];
        right; eexists; (split; [reflexivity | discriminate]). }
    destruct Hcases as [->|(events & Hd & Hpresent)].
    { split; [intros h [] | intros H; now elim H]. }
    rewrite (Hmap events Hd Hpresent).
    set (buckets := Heatmap.aggregateEvents xScale dropDate events
                      timeInterval).
    pose proof (aggregateEvents_populated xScale dropDate events timeInterval)
      as Hpop. fold buckets in Hpop. rewrite Forall_forall in Hpop.
    destruct (normalise_range_and_max buckets) as [Hrange Hmax].
    { intros b Hin. specialize (Hpop b Hin). lia. }
    split; [exact Hrange|].
    intros Hne. apply Hmax.
    destruct buckets as [|b0 l]; [now elim Hne|].
    exists b0. split; [now left|].
    specialize (Hpop b0 (or_introl eq_refl)). lia.
  - split; [reflexivity|].
    intros events Hempty. unfold Heatmap.getHeatmapBucketData.
    rewrite Hempty. destruct events; reflexivity.
Qed.

(** ** Refinement under width constraints *)

Lemma geb_true (x y : Q) : Js.geb x y = true <-> (y <= x)%Q.
Proof. unfold Js.geb. apply Qle_bool_iff. Qed.

Lemma geb_false (x y : Q) : Js.geb x y = false <-> (x < y)%Q.
Proof.
  unfold Js.geb. split.
  - intros H. apply Qnot_le_lt. intros Hle.
    apply Qle_bool_iff in Hle. congruence.
  - intros H. destruct (Qle_bool y x) eqn:E; [|reflexivity].
    apply Qle_bool_iff in E. now apply Qlt_not_le in H.
Qed.

Lemma leb_true (x y : Q) : Js.leb x y = true <-> (x <= y)%Q.
Proof. unfold Js.leb. apply Qle_bool_iff. Qed.

Lemma leb_false (x y : Q) : Js.leb x y = false <-> (y < x)%Q.
Proof. apply (geb_false y x). Qed.

Lemma ltb_true (x y : Q) : Js.ltb x y = true <-> (x < y)%Q.
Proof.
  unfold Js.ltb. rewrite negb_true_iff. apply (geb_false x y).
Qed.

Lemma ltb_false (x y : Q) : Js.ltb x y = false <-> (y <= x)%Q.
Proof.
  unfold Js.ltb. rewrite negb_false_iff. apply Qle_bool_iff.
Qed.

Lemma gtb_true (x y : Q) : Js.gtb x y = true <-> (y < x)%Q.
Proof. apply (ltb_true y x). Qed.

Lemma gtb_false (x y : Q) : Js.gtb x y = false <-> (x <= y)%Q.
Proof. apply (ltb_false y x). Qed.

Lemma indexOf_hierarchy (bucketScale : string) :
  (In bucketScale TIMESCALE_HIERARCHY
   /\ 0 <= indexOf TIMESCALE_HIERARCHY bucketScale < HIERARCHY_LENGTH
   /\ hierarchyAt (indexOf TIMESCALE_HIERARCHY bucketScale) = bucketScale)
  \/ (~ In bucketScale TIMESCALE_HIERARCHY
      /\ indexOf TIMESCALE_HIERARCHY bucketScale = -1).
Proof.
  unfold indexOf.
  remember (indexOfFrom TIMESCALE_HIERARCHY bucketScale 0) as idx eqn:Hidx.
  unfold TIMESCALE_HIERARCHY in Hidx. cbn [indexOfFrom] in Hidx.
  repeat match type of Hidx with
  | context [String.eqb ?a bucketScale] =>
      destruct (String.eqb_spec a bucketScale) as [<-|?];
      [subst idx; left; split;
       [simpl; tauto | split; [vm_compute; split; congruence | reflexivity]]|]
  end.
  subst idx. right. split; [|reflexivity].
  simpl. intros H.
  repeat (destruct H as [H|H]; [congruence|]). exact H.
Qed.

Section RefinementFacts.

Variable d3 : library.
Variable xScale : D3.scale.

Lemma refineStart_spec (bucketScale : string) :
  let i0 := startIndex d3 xScale bucketScale in
  refineStart d3 xScale bucketScale = (i0, hierarchyAt i0, widthAt d3 xScale i0)
  /\ 0 <= i0 < HIERARCHY_LENGTH
  /\ (In bucketScale TIMESCALE_HIERARCHY -> hierarchyAt i0 = bucketScale)
  /\ (~ In bucketScale TIMESCALE_HIERARCHY -> hierarchyAt i0 = "days").
Proof.
  unfold startIndex, refineStart, widthAt. cbv zeta.
  destruct (indexOf_hierarchy bucketScale)
    as [(Hin & Hrange & Hat)|[Hout Hidx]].
  - replace (indexOf TIMESCALE_HIERARCHY bucketScale =? -1) with false
      by (symmetry; apply Z.eqb_neq; lia).
    cbn [fst snd]. rewrite Hat. repeat split; try tauto; apply Hrange.
  - rewrite Hidx. cbn [Z.eqb fst snd Z.opp Pos.eqb].
    repeat split; try tauto; try reflexivity.
    vm_compute. discriminate.
Qed.

Lemma widenLoop_spec (m : Q) (remaining : nat) :
  forall (i : Z) (st : string * Q),
    0 <= i -> i + Z.of_nat remaining = HIERARCHY_LENGTH ->
    (exists k,
        i <= k < HIERARCHY_LENGTH
        /\ (m <= widthAt d3 xScale k)%Q
        /\ (forall l, i <= l < k -> (widthAt d3 xScale l < m)%Q)
        /\ widenLoop d3 xScale m remaining i st = (hierarchyAt k, widthAt d3 xScale k))
    \/ ((forall l, i <= l < HIERARCHY_LENGTH -> (widthAt d3 xScale l < m)%Q)
        /\ widenLoop d3 xScale m remaining i st
           = match remaining with
             | O => st
             | S _ => (hierarchyAt (HIERARCHY_LENGTH - 1),
                       widthAt d3 xScale (HIERARCHY_LENGTH - 1))
             end).
Proof.
  induction remaining as [|n IH]; intros i st Hi Hlen.
  - right. split; [intros l Hl; simpl in Hlen; lia | reflexivity].
  - cbn [widenLoop]. fold (widthAt d3 xScale i).
    destruct (Js.geb (widthAt d3 xScale i) m) eqn:Hge.
    + left. exists i. apply geb_true in Hge.
      split; [lia|]. split; [exact Hge|]. split; [intros l Hl; lia|].
      reflexivity.
    + apply geb_false in Hge.
      set (st' := if i =? HIERARCHY_LENGTH - 1
                  then (hierarchyAt i, widthAt d3 xScale i) else st).
      destruct (IH (i + 1) st' ltac:(lia) ltac:(lia))
        as [(k & Hk & Hwk & Hbelow & Heq)|[Hall Heq]].
      * left. exists k.
        split; [lia|]. split; [exact Hwk|]. split; [|exact Heq].
        intros l Hl. destruct (Z.eq_dec l i) as [->|Hne]; [exact Hge|].
        apply Hbelow. lia.
      * right. split.
        -- intros l Hl. destruct (Z.eq_dec l i) as [->|Hne]; [exact Hge|].
           apply Hall. lia.
        -- rewrite Heq. destruct n as [|n']; [|reflexivity].
           subst st'.
           replace (i =? HIERARCHY_LENGTH - 1) with true
             by (symmetry; apply Z.eqb_eq; lia).
           replace (HIERARCHY_LENGTH - 1) with i by lia. reflexivity.
Qed.

Lemma narrowLoop_spec (m : Q) (remaining : nat) :
  forall (i : Z) (st : string * Q),
    Z.of_nat remaining = i + 1 ->
    (exists k,
        0 <= k <= i
        /\ (widthAt d3 xScale k <= m)%Q
        /\ (forall l, k < l <= i -> (m < widthAt d3 xScale l)%Q)
        /\ narrowLoop d3 xScale m remaining i st = (hierarchyAt k, widthAt d3 xScale k))
    \/ ((forall l, 0 <= l <= i -> (m < widthAt d3 xScale l)%Q)
        /\ narrowLoop d3 xScale m remaining i st
           = match remaining with
             | O => st
             | S _ => (hierarchyAt 0, widthAt d3 xScale 0)
             end).
Proof.
  induction remaining as [|n IH]; intros i st Hlen.
  - right. split; [intros l Hl; simpl in Hlen; lia | reflexivity].
  - cbn [narrowLoop]. fold (widthAt d3 xScale i).
    destruct (Js.leb (widthAt d3 xScale i) m) eqn:Hle.
    + left. exists i. apply leb_true in Hle.
      split; [lia|]. split; [exact Hle|]. split; [intros l Hl; lia|].
      reflexivity.
    + apply leb_false in Hle.
      set (st' := if i =? 0 then (hierarchyAt i, widthAt d3 xScale i) else st).
      destruct (IH (i - 1) st' ltac:(lia))
        as [(k & Hk & Hwk & Habove & Heq)|[Hall Heq]].
      * left. exists k.
        split; [lia|]. split; [exact Hwk|]. split; [|exact Heq].
        intros l Hl. destruct (Z.eq_dec l i) as [->|Hne]; [exact Hle|].
        apply Habove. lia.
      * right. split.
        -- intros l Hl. destruct (Z.eq_dec l i) as [->|Hne]; [exact Hle|].
           apply Hall. lia.
        -- rewrite Heq. destruct n as [|n']; [|reflexivity].
           subst st'.
           replace (i =? 0) with true by (symmetry; apply Z.eqb_eq; lia).
           replace i with 0 by lia. reflexivity.
Qed.

End RefinementFacts.

Lemma HIERARCHY_LENGTH_value : HIERARCHY_LENGTH = 9.
Proof. reflexivity. Qed.

Lemma adjustMinWidth_spec (d3 : library) (xScale : D3.scale)
    (bs : bucketSize) (i0 : Z) :
  0 <= i0 < HIERARCHY_LENGTH ->
  let st := (hierarchyAt i0, widthAt d3 xScale i0) in
  let st1 := adjustMinWidth d3 xScale bs i0 st in
  (exists k, st1 = (hierarchyAt k, widthAt d3 xScale k))
  /\ (minWidth bs = None -> st1 = st)
  /\ (forall m, minWidth bs = Some m ->
                minWidthGuarantee d3 xScale m i0 (fst st1)).
Proof.
  intros Hi0 st st1. subst st1 st. unfold adjustMinWidth.
  destruct (minWidth bs) as [m|]; cbn [snd].
  2: { split; [now exists i0|]. split; [reflexivity | discriminate]. }
  destruct (Js.ltb (widthAt d3 xScale i0) m) eqn:Hlt.
  - apply ltb_true in Hlt.
    destruct (widenLoop_spec d3 xScale m
                (Z.to_nat (HIERARCHY_LENGTH - (i0 + 1))) (i0 + 1)
                (hierarchyAt i0, widthAt d3 xScale i0)
                ltac:(lia) ltac:(lia))
      as [(k & Hk & Hwk & Hbelow & Heq)|[Hall Heq]].
    + rewrite Heq. split; [now exists k|]. split; [discriminate|].
      intros m' Hm'. injection Hm' as <-. split.
      * intros Hge. now apply Qlt_not_le in Hlt.
      * intros _. left. exists k. split; [|reflexivity].
        split; [lia|]. split; [exact Hwk|]. intros l Hl. apply Hbelow. lia.
    + rewrite Heq.
      assert (Hdecades :
        fst match Z.to_nat (HIERARCHY_LENGTH - (i0 + 1)) with
            | O => (hierarchyAt i0, widthAt d3 xScale i0)
            | S _ => (hierarchyAt (HIERARCHY_LENGTH - 1),
                      widthAt d3 xScale (HIERARCHY_LENGTH - 1))
            end = "decades").
      { destruct (Z.to_nat (HIERARCHY_LENGTH - (i0 + 1))) eqn:Hn;
          [|reflexivity].
        replace i0 with (HIERARCHY_LENGTH - 1) by lia. reflexivity. }
      split.
      * destruct (Z.to_nat (HIERARCHY_LENGTH - (i0 + 1)));
          [now exists i0 | now exists (HIERARCHY_LENGTH - 1)].
      * split; [discriminate|].
        intros m' Hm'. injection Hm' as <-. split.
        -- intros Hge. now apply Qlt_not_le in Hlt.
        -- intros _. right. split; [|exact Hdecades].
           intros l Hl. apply Hall. lia.
  - apply ltb_false in Hlt.
    split; [now exists i0|]. split; [discriminate|].
    intros m' Hm'. injection Hm' as <-. split.
    + reflexivity.
    + intros Hlt'. now apply Qlt_not_le in Hlt'.
Qed.

Lemma adjustMaxWidth_spec (d3 : library) (xScale : D3.scale)
    (bs : bucketSize) (i0 k1 : Z) :
  0 <= i0 < HIERARCHY_LENGTH ->
  let st := (hierarchyAt k1, widthAt d3 xScale k1) in
  let st2 := adjustMaxWidth d3 xScale bs i0 st in
  (maxWidth bs = None -> st2 = st)
  /\ (forall m,
         maxWidth bs = Some m ->
         ((widthAt d3 xScale k1 <= m)%Q -> st2 = st)
         /\ ((m < widthAt d3 xScale k1)%Q ->
             (exists k, nearestFiner d3 xScale m i0 k
                        /\ fst st2 = hierarchyAt k)
             \/ (noneFiner d3 xScale m i0
                 /\ fst st2 = if i0 =? 0 then hierarchyAt k1
                              else "milliseconds"))).
Proof.
  intros Hi0 st st2. subst st2 st. unfold adjustMaxWidth.
  destruct (maxWidth bs) as [m|]; cbn [snd].
  2: { split; [reflexivity | discriminate]. }
  split; [discriminate|].
  intros m' Hm'. injection Hm' as <-.
  destruct (Js.gtb (widthAt d3 xScale k1) m) eqn:Hgt.
  - apply gtb_true in Hgt. split.
    + intros Hle. now apply Qlt_not_le in Hgt.
    + intros _.
      destruct (narrowLoop_spec d3 xScale m (Z.to_nat i0) (i0 - 1)
                  (hierarchyAt k1, widthAt d3 xScale k1) ltac:(lia))
        as [(k & Hk & Hwk & Habove & Heq)|[Hall Heq]].
      * left. exists k. rewrite Heq. split; [|reflexivity].
        split; [lia|]. split; [exact Hwk|]. intros l Hl. apply Habove. lia.
      * right. split; [intros l Hl; apply Hall; lia|].
        rewrite Heq. destruct (Z.to_nat i0) eqn:Hn.
        -- replace i0 with 0 by lia. reflexivity.
        -- replace (i0 =? 0) with false by (symmetry; apply Z.eqb_neq; lia).
           reflexivity.
  - apply gtb_false in Hgt. split; [reflexivity|].
    intros Hlt. now apply Qlt_not_le in Hlt.
Qed.

Lemma refineBucketScale_unfold (d3 : library) (xScale : D3.scale)
    (bucketScale : string) (bs : bucketSize) :
  let i0 := startIndex d3 xScale bucketScale in
  refineBucketScale d3 xScale bucketScale bs
  = fst (adjustMaxWidth d3 xScale bs i0
           (adjustMinWidth d3 xScale bs i0
              (hierarchyAt i0, widthAt d3 xScale i0))).
Proof.
  intros i0. unfold refineBucketScale.
  destruct (refineStart_spec d3 xScale bucketScale) as [Heq _].
  fold i0 in Heq. rewrite Heq. reflexivity.
Qed.

(** C5, as stated, fails when both constraints are set: from ['days'] with
    [minWidth = 50] and [maxWidth = 60] the minimum is first met by
    ['weeks'] (70px), which exceeds the maximum, and the walk towards finer
    granularities then returns ['hours'], narrower than the minimum although
    the coarser ['weeks'] satisfies it. *)
Lemma refineBucketScale_both_constraints_breaks_minWidth :
  let bs := BucketSize (Some 50%Q) (Some 60%Q) in
  refineBucketScale D3Utc.d3 thirtyDaysScale "days" bs = "hours"
  /\ (calculateBucketWidth D3Utc.d3 thirtyDaysScale "hours" < 50)%Q
  /\ (50 <= calculateBucketWidth D3Utc.d3 thirtyDaysScale "weeks")%Q
  /\ ~ refinementMeetsEachConstraint D3Utc.d3 thirtyDaysScale "days" bs.
Proof.
  cbv zeta. split; [reflexivity|]. split; [reflexivity|].
  split; [vm_compute; discriminate|].
  intros [Hmin _]. specialize (Hmin 50%Q eq_refl).
  destruct Hmin as [_ Hmin].
  change (startIndex D3Utc.d3 thirtyDaysScale "days") with 4 in Hmin.
  change (refineBucketScale D3Utc.d3 thirtyDaysScale "days"
            (BucketSize (Some 50%Q) (Some 60%Q))) with "hours" in Hmin.
  destruct Hmin as [(k & (Hk & _) & Heq)|[_ Heq]].
  - reflexivity.
  - rewrite HIERARCHY_LENGTH_value in Hk.
    assert (Hcases : k = 5 \/ k = 6 \/ k = 7 \/ k = 8) by lia.
    destruct Hcases as [-> | [-> | [-> | ->]]]; vm_compute in Heq;
      discriminate.
  - discriminate.
Qed.

(** The [minWidth] adjustment leaves a granularity that is wide enough. *)
Lemma adjustMinWidth_met (d3 : library) (xScale : D3.scale)
    (bs : bucketSize) (i0 : Z) (m : Q) :
  minWidth bs = Some m ->
  (m <= widthAt d3 xScale i0)%Q ->
  adjustMinWidth d3 xScale bs i0 (hierarchyAt i0, widthAt d3 xScale i0)
  = (hierarchyAt i0, widthAt d3 xScale i0).
Proof.
  intros Hm Hle. unfold adjustMinWidth. rewrite Hm. cbn [snd].
  destruct (Js.ltb (widthAt d3 xScale i0) m) eqn:Hlt; [|reflexivity].
  apply ltb_true in Hlt. now apply Qlt_not_le in Hlt.
Qed.

(** C5, amended.  With only [minWidth] set the result is the initial
    granularity when it is wide enough, else the nearest coarser
    granularity of the hierarchy that is, else ['decades']; with only
    [maxWidth] set it is the initial granularity when it is narrow enough,
    else the nearest finer one that is, else ['milliseconds'].  With both
    set, the [minWidth] adjustment is made first and gives [r1] with that
    guarantee; the result is [r1] when the width of [r1] does not exceed
    [maxWidth], and it has the guarantee of [maxWidth] when the initial
    granularity is wide enough for [minWidth].  Nothing is stated of the
    result when the [minWidth] adjustment has moved to a coarser
    granularity that exceeds [maxWidth]. *)
Theorem refineBucketScale_guarantees :
  forall (d3 : library) (xScale : D3.scale) (bucketScale : string)
         (bs : bucketSize),
    let i0 := startIndex d3 xScale bucketScale in
    let r := refineBucketScale d3 xScale bucketScale bs in
    let r1 := refineBucketScale d3 xScale bucketScale
                (BucketSize (minWidth bs) None) in
    (0 <= i0 < HIERARCHY_LENGTH
     /\ (In bucketScale TIMESCALE_HIERARCHY -> hierarchyAt i0 = bucketScale)
     /\ (~ In bucketScale TIMESCALE_HIERARCHY -> hierarchyAt i0 = "days"))
    /\ (minWidth bs = None -> maxWidth bs = None -> r = hierarchyAt i0)
    /\ (forall m,
           minWidth bs = Some m -> maxWidth bs = None ->
           minWidthGuarantee d3 xScale m i0 r)
    /\ (forall m,
           minWidth bs = None -> maxWidth bs = Some m ->
           maxWidthGuarantee d3 xScale m i0 r)
    /\ (forall mn mx,
           minWidth bs = Some mn -> maxWidth bs = Some mx ->
           minWidthGuarantee d3 xScale mn i0 r1
           /\ ((calculateBucketWidth d3 xScale r1 <= mx)%Q ->
               r = r1 /\ minWidthGuarantee d3 xScale mn i0 r)
           /\ ((mn <= widthAt d3 xScale i0)%Q ->
               maxWidthGuarantee d3 xScale mx i0 r)).
Proof.
  intros d3 xScale bucketScale bs i0 r r1.
  destruct (refineStart_spec d3 xScale bucketScale)
    as (_ & Hi0 & Hin & Hout). fold i0 in Hi0, Hin, Hout.
  split; [tauto|].
  subst r r1. rewrite !refineBucketScale_unfold. fold i0.
  destruct (adjustMinWidth_spec d3 xScale bs i0 Hi0)
    as ([k1 Hst1] & Hnone1 & Hsome1).
  cbv zeta in Hst1, Hnone1, Hsome1.
  assert (Hmin1 :
    adjustMinWidth d3 xScale (BucketSize (minWidth bs) None) i0
      (hierarchyAt i0, widthAt d3 xScale i0)
    = adjustMinWidth d3 xScale bs i0 (hierarchyAt i0, widthAt d3 xScale i0))
    by reflexivity.
  rewrite Hmin1.
  assert (Hmax1 : forall st,
    adjustMaxWidth d3 xScale (BucketSize (minWidth bs) None) i0 st = st)
    by reflexivity.
  rewrite Hmax1.
  assert (Hfrom : forall m,
    maxWidth bs = Some m ->
    maxWidthGuarantee d3 xScale m i0
      (fst (adjustMaxWidth d3 xScale bs i0
              (hierarchyAt i0, widthAt d3 xScale i0)))).
  { intros m Hmx.
    destruct (adjustMaxWidth_spec d3 xScale bs i0 i0 Hi0) as [_ Hsome].
    cbv zeta in Hsome. destruct (Hsome m Hmx) as [Hle Hgt]. split.
    - intros Hfit. now rewrite (Hle Hfit).
    - intros Hwide.
      destruct (Hgt Hwide) as [Hnear|[Hnone Heq]]; [now left|].
      right. split; [exact Hnone|]. rewrite Heq.
      destruct (Z.eqb_spec i0 0) as [Hz|Hnz]; [|reflexivity].
      rewrite Hz. reflexivity. }
  destruct (adjustMaxWidth_spec d3 xScale bs i0 k1 Hi0) as [Hnone2 Hsome2].
  cbv zeta in Hnone2, Hsome2. rewrite <- Hst1 in Hnone2, Hsome2.
  split; [|split; [|split]].
  - intros Hmn Hmx. rewrite (Hnone2 Hmx), (Hnone1 Hmn). reflexivity.
  - intros m Hmn Hmx. rewrite (Hnone2 Hmx). now apply Hsome1.
  - intros m Hmn Hmx. rewrite (Hnone1 Hmn). now apply Hfrom.
  - intros mn mx Hmn Hmx. destruct (Hsome2 mx Hmx) as [Hle _].
    split; [now apply Hsome1|].
    assert (Hw :
      calculateBucketWidth d3 xScale
        (fst (adjustMinWidth d3 xScale bs i0
                (hierarchyAt i0, widthAt d3 xScale i0)))
      = widthAt d3 xScale k1) by (rewrite Hst1; reflexivity).
    rewrite Hw. split.
    + intros Hfit. rewrite (Hle Hfit). split; [reflexivity|].
      now apply Hsome1.
    + intros Hmet. rewrite (adjustMinWidth_met d3 xScale bs i0 mn Hmn Hmet).
      now apply Hfrom.
Qed.

(** ** The concrete intervals obey the laws *)

Module D3UtcFacts.

Import D3Utc.

Lemma durationDay_value : durationDay = 86400000.
Proof. reflexivity. Qed.

(** [civilFromDays] is a right inverse of [daysFromCivil], and yields a
    month in 1..12 and a day in 1..31. *)
Lemma daysFromCivil_civilFromDays (z : Z) :
  let y := fst (fst (civilFromDays z)) in
  let m := snd (fst (civilFromDays z)) in
  let d := snd (civilFromDays z) in
  daysFromCivil y m d = z /\ 1 <= m <= 12 /\ 1 <= d <= 31.
Proof.
  unfold civilFromDays, daysFromCivil. cbv zeta. cbn [fst snd].
  set (z' := z + 719468).
  set (era := z' / 146097).
  set (doe := z' - era * 146097).
  assert (Hdoe : 0 <= doe < 146097)
    by (subst doe era; Z.div_mod_to_equations; lia).
  set (yoe := (doe - doe / 1460 + doe / 36524 - doe / 146096) / 365).
  assert (Hyoe : 0 <= yoe < 400)
    by (subst yoe; Z.div_mod_to_equations; lia).
  set (doy := doe - (365 * yoe + yoe / 4 - yoe / 100)).
  assert (Hdoy : 0 <= doy < 366)
    by (subst doy yoe; Z.div_mod_to_equations; lia).
  set (mp := (5 * doy + 2) / 153).
  assert (Hmp : 0 <= mp < 12) by (subst mp; Z.div_mod_to_equations; lia).
  set (d := doy - (153 * mp + 2) / 5 + 1).
  assert (Hd : 1 <= d <= 31) by (subst d mp; Z.div_mod_to_equations; lia).
  destruct (Z.ltb_spec mp 10) as [Hm|Hm].
  - replace (mp + 3 <=? 2) with false by (symmetry; apply Z.leb_gt; lia).
    replace (mp + 3 >? 2) with true by (symmetry; apply Z.gtb_lt; lia).
    replace ((yoe + era * 400) / 400) with era
      by (Z.div_mod_to_equations; lia).
    replace (mp + 3 - 3) with mp by lia.
    split; [|lia].
    subst d mp doy. Z.div_mod_to_equations. lia.
  - replace (mp - 9 <=? 2) with true by (symmetry; apply Z.leb_le; lia).
    replace (mp - 9 >? 2) with false
      by (symmetry; rewrite Z.gtb_ltb; apply Z.ltb_ge; lia).
    replace (yoe + era * 400 + 1 - 1) with (yoe + era * 400) by lia.
    replace ((yoe + era * 400) / 400) with era
      by (Z.div_mod_to_equations; lia).
    replace (mp - 9 + 9) with mp by lia.
    split; [|lia].
    subst d mp doy. Z.div_mod_to_equations. lia.
Qed.

Lemma daysFromCivil_day (y m d : Z) :
  daysFromCivil y m d = daysFromCivil y m 1 + d - 1.
Proof. unfold daysFromCivil. cbv zeta. ring. Qed.

Lemma time_split (t : Z) : t = dayOf t * durationDay + timeInDay t.
Proof.
  unfold dayOf, timeInDay. rewrite durationDay_value.
  Z.div_mod_to_equations. lia.
Qed.

(** [date.setDate(date.getDate() + n)] moves the instant by [n] days. *)
Lemma setDate_shift (t n : Z) :
  setDate t (getDate t + n) = t + n * durationDay.
Proof.
  unfold setDate, makeDay, getFullYear, getMonth, getDate.
  destruct (daysFromCivil_civilFromDays (dayOf t)) as (Hrt & Hm & Hd).
  cbv zeta in Hrt, Hm, Hd.
  set (y := fst (fst (civilFromDays (dayOf t)))) in *.
  set (m := snd (fst (civilFromDays (dayOf t)))) in *.
  set (d := snd (civilFromDays (dayOf t))) in *.
  replace ((m - 1) / 12) with 0 by (Z.div_mod_to_equations; lia).
  replace ((m - 1) mod 12 + 1) with m by (Z.div_mod_to_equations; lia).
  rewrite Z.add_0_r.
  rewrite (daysFromCivil_day y m d) in Hrt.
  pose proof (time_split t) as Ht.
  rewrite durationDay_value in *. lia.
Qed.

Lemma timeSecond_lawful : lawful timeSecond.
Proof.
  split; cbn [floor ceil timeSecond timeInterval];
    unfold getMilliseconds, durationSecond; intros;
    Z.div_mod_to_equations; lia.
Qed.

Lemma timeDay_lawful : lawful timeDay.
Proof.
  split; cbn [floor ceil timeDay timeInterval].
  - intros t. unfold setHours0, timeInDay. rewrite durationDay_value.
    Z.div_mod_to_equations. lia.
  - intros a b Hab. unfold setHours0, timeInDay. rewrite durationDay_value.
    Z.div_mod_to_equations. lia.
  - intros t. rewrite setDate_shift.
    unfold setHours0, timeInDay. rewrite durationDay_value.
    Z.div_mod_to_equations. lia.
Qed.

(** A month has between 28 and 31 days. *)
Lemma monthStart_step (M : Z) :
  monthStart M + 28 <= monthStart (M + 1) <= monthStart M + 31.
Proof.
  unfold monthStart, daysFromCivil. cbv zeta.
  assert (Hc : (M mod 12 = 11 /\ (M + 1) mod 12 = 0 /\ (M + 1) / 12 = M / 12 + 1)
               \/ (0 <= M mod 12 < 11 /\ (M + 1) mod 12 = M mod 12 + 1 /\ (M + 1) / 12 = M / 12))
    by (Z.div_mod_to_equations; lia).
  destruct Hc as [(H1 & H2 & H3)|(H1 & H2 & H3)]; rewrite H2, H3.
  - rewrite H1. cbn [Z.add Z.leb Z.gtb Z.compare Pos.add Pos.compare Pos.compare_cont Pos.succ].
    Z.div_mod_to_equations. lia.
  - set (r := M mod 12) in *. 
    destruct (Z.leb_spec (r + 1) 2); destruct (Z.leb_spec (r + 1 + 1) 2);
    rewrite ?Z.gtb_ltb;
    destruct (Z.ltb_spec 2 (r + 1)); destruct (Z.ltb_spec 2 (r + 1 + 1)); try lia.
    all: Z.div_mod_to_equations; lia.
Qed.

Lemma monthStart_civil (y m : Z) :
  1 <= m <= 12 -> monthStart (12 * y + (m - 1)) = daysFromCivil y m 1.
Proof.
  intros Hm. unfold monthStart.
  replace ((12 * y + (m - 1)) / 12) with y by (Z.div_mod_to_equations; lia).
  replace ((12 * y + (m - 1)) mod 12 + 1) with m by (Z.div_mod_to_equations; lia).
  reflexivity.
Qed.

(** A day is the day [getDate] of its month. *)
Lemma monthIndex_lower (z : Z) :
  z = monthStart (monthIndex z) + snd (civilFromDays z) - 1
  /\ 1 <= snd (civilFromDays z) <= 31
  /\ 1 <= snd (fst (civilFromDays z)) <= 12.
Proof.
  destruct (daysFromCivil_civilFromDays z) as (Hrt & Hm & Hd).
  cbv zeta in Hrt, Hm, Hd. unfold monthIndex.
  rewrite monthStart_civil by exact Hm.
  rewrite daysFromCivil_day in Hrt. lia.
Qed.

(** A day lies before the start of the month after its own. *)
Lemma monthIndex_upper (z : Z) : z < monthStart (monthIndex z + 1).
Proof.
  unfold monthIndex, civilFromDays. cbv zeta. cbn [fst snd].
  set (z' := z + 719468).
  set (era := z' / 146097).
  set (doe := z' - era * 146097).
  assert (Hdoe : 0 <= doe < 146097)
    by (subst doe era; Z.div_mod_to_equations; lia).
  set (yoe := (doe - doe / 1460 + doe / 36524 - doe / 146096) / 365).
  assert (Hyoe : 0 <= yoe < 400)
    by (subst yoe; Z.div_mod_to_equations; lia).
  set (doy := doe - (365 * yoe + yoe / 4 - yoe / 100)).
  assert (Hdoy : 0 <= doy < 366)
    by (subst doy yoe; Z.div_mod_to_equations; lia).
  set (mp := (5 * doy + 2) / 153).
  assert (Hmp : 0 <= mp < 12) by (subst mp; Z.div_mod_to_equations; lia).
  assert (Hz : z = era * 146097 + doe - 719468) by (subst doe z'; lia).
  assert (Hnext : doy < (153 * (mp + 1) + 2) / 5)
    by (subst mp; Z.div_mod_to_equations; lia).
  assert (Hyear : doy < 365 + (yoe + 1) / 4 - yoe / 4 - ((yoe + 1) / 100 - yoe / 100)
                  \/ (yoe = 399 /\ doy < 366)).
  { subst doy yoe. Z.div_mod_to_equations. lia. }
  assert (Hdoe' : doe = 365 * yoe + yoe / 4 - yoe / 100 + doy) by (subst doy; lia).
  clearbody mp doy yoe doe era. subst z. clear z'.
  destruct (Z.ltb_spec mp 10) as [Hlt|Hge].
  - replace (mp + 3 <=? 2) with false by (symmetry; apply Z.leb_gt; lia).
    replace (12 * (yoe + era * 400) + (mp + 3 - 1) + 1)
      with (12 * (yoe + era * 400) + (mp + 3)) by lia.
    destruct (Z.eq_dec mp 9) as [Heq|Hne].
    + subst mp.
      replace (12 * (yoe + era * 400) + (9 + 3))
        with (12 * (yoe + era * 400 + 1) + (1 - 1)) by lia.
      rewrite monthStart_civil by lia.
      unfold daysFromCivil. cbv zeta. cbn [Z.leb Z.gtb Z.compare Pos.compare Pos.compare_cont].
      replace (yoe + era * 400 + 1 - 1) with (yoe + era * 400) by lia.
      replace ((yoe + era * 400) / 400) with era by (Z.div_mod_to_equations; lia).
      Z.div_mod_to_equations. lia.
    + replace (12 * (yoe + era * 400) + (mp + 3))
        with (12 * (yoe + era * 400) + (mp + 4 - 1)) by lia.
      rewrite monthStart_civil by lia.
      unfold daysFromCivil. cbv zeta.
      replace (mp + 4 <=? 2) with false by (symmetry; apply Z.leb_gt; lia).
      replace (mp + 4 >? 2) with true by (symmetry; apply Z.gtb_lt; lia).
      replace ((yoe + era * 400) / 400) with era by (Z.div_mod_to_equations; lia).
      replace (mp + 4 - 3) with (mp + 1) by lia.
      Z.div_mod_to_equations. lia.
  - replace (mp - 9 <=? 2) with true by (symmetry; apply Z.leb_le; lia).
    replace (12 * (yoe + era * 400 + 1) + (mp - 9 - 1) + 1)
      with (12 * (yoe + era * 400 + 1) + (mp - 8 - 1)) by lia.
    rewrite monthStart_civil by lia.
    unfold daysFromCivil. cbv zeta.
    destruct (Z.eq_dec mp 10) as [Heq|Hne].
    + subst mp.
      replace (10 - 8 <=? 2) with true by reflexivity.
      replace (10 - 8 >? 2) with false by reflexivity.
      replace (10 - 8 + 9) with 11 by reflexivity.
      replace (yoe + era * 400 + 1 - 1) with (yoe + era * 400) by lia.
      replace ((yoe + era * 400) / 400) with era by (Z.div_mod_to_equations; lia).
      Z.div_mod_to_equations. lia.
    + assert (mp = 11) by lia. subst mp.
      replace (11 - 8 <=? 2) with false by reflexivity.
      replace (11 - 8 >? 2) with true by reflexivity.
      replace (11 - 8 - 3) with 0 by reflexivity.
      destruct (Z.eq_dec yoe 399) as [Hy|Hy].
      * replace ((yoe + era * 400 + 1) / 400) with (era + 1) by (Z.div_mod_to_equations; lia).
        Z.div_mod_to_equations. lia.
      * replace ((yoe + era * 400 + 1) / 400) with era by (Z.div_mod_to_equations; lia).
        destruct Hyear as [Hyear|[Hyear _]]; [|lia].
        Z.div_mod_to_equations. lia.
Qed.

Lemma monthStart_december (M : Z) :
  M mod 12 = 11 -> monthStart (M + 1) = monthStart M + 31.
Proof.
  intros H11. unfold monthStart, daysFromCivil. cbv zeta.
  replace ((M + 1) mod 12) with 0 by (Z.div_mod_to_equations; lia).
  replace ((M + 1) / 12) with (M / 12 + 1) by (Z.div_mod_to_equations; lia).
  rewrite H11.
  cbn [Z.add Z.leb Z.gtb Z.compare Pos.add Pos.compare Pos.compare_cont Pos.succ].
  Z.div_mod_to_equations. lia.
Qed.

Lemma monthStart_lt (a : Z) (n : nat) :
  monthStart a + 28 * Z.of_nat (S n) <= monthStart (a + Z.of_nat (S n)).
Proof.
  induction n as [|n IH].
  - pose proof (monthStart_step a). simpl Z.of_nat. lia.
  - pose proof (monthStart_step (a + Z.of_nat (S n))).
    replace (a + Z.of_nat (S (S n))) with (a + Z.of_nat (S n) + 1) by lia.
    lia.
Qed.

Lemma monthStart_strict (a b : Z) : a < b -> monthStart a + 28 * (b - a) <= monthStart b.
Proof.
  intros Hab. pose proof (monthStart_lt a (Z.to_nat (b - a - 1))) as H.
  replace (Z.of_nat (S (Z.to_nat (b - a - 1)))) with (b - a) in H by lia.
  replace (a + (b - a)) with b in H by lia. exact H.
Qed.

Lemma monthStart_mono (a b : Z) : a <= b -> monthStart a <= monthStart b.
Proof.
  intros Hab. destruct (Z.eq_dec a b) as [->|Hne]; [lia|].
  pose proof (monthStart_strict a b ltac:(lia)). lia.
Qed.

(** The month of a day between two month starts lies between them. *)
Lemma monthIndex_sandwich (a b z : Z) :
  monthStart a <= z < monthStart b -> a <= monthIndex z < b.
Proof.
  intros [Ha Hb].
  destruct (monthIndex_lower z) as (Hz & Hd & _).
  pose proof (monthIndex_upper z) as Hup.
  split.
  - destruct (Z.lt_ge_cases (monthIndex z) a) as [Hlt|Hge]; [|lia].
    pose proof (monthStart_mono (monthIndex z + 1) a ltac:(lia)). lia.
  - destruct (Z.lt_ge_cases (monthIndex z) b) as [Hlt|Hge]; [lia|].
    pose proof (monthStart_mono b (monthIndex z) Hge). lia.
Qed.

Lemma monthIndex_monthStart (M : Z) : monthIndex (monthStart M) = M.
Proof.
  pose proof (monthStart_step M).
  pose proof (monthIndex_sandwich M (M + 1) (monthStart M) ltac:(lia)). lia.
Qed.

Lemma monthIndex_mono (z1 z2 : Z) : z1 <= z2 -> monthIndex z1 <= monthIndex z2.
Proof.
  intros Hz.
  destruct (monthIndex_lower z1) as (Hz1 & Hd1 & _).
  pose proof (monthIndex_upper z2) as Hup.
  destruct (Z.lt_ge_cases (monthIndex z2) (monthIndex z1)) as [Hlt|Hge]; [|lia].
  pose proof (monthStart_mono (monthIndex z2 + 1) (monthIndex z1) ltac:(lia)). lia.
Qed.

(** The getters, through [monthIndex] and [monthStart]. *)
Lemma getFullYear_monthIndex (t : Z) : getFullYear t = monthIndex (dayOf t) / 12.
Proof.
  unfold getFullYear, monthIndex.
  destruct (monthIndex_lower (dayOf t)) as (_ & _ & Hm).
  Z.div_mod_to_equations. lia.
Qed.

Lemma getMonth_monthIndex (t : Z) : getMonth t = monthIndex (dayOf t) mod 12.
Proof.
  unfold getMonth, monthIndex.
  destruct (monthIndex_lower (dayOf t)) as (_ & _ & Hm).
  Z.div_mod_to_equations. lia.
Qed.

Lemma getDate_monthIndex (t : Z) :
  getDate t = dayOf t - monthStart (monthIndex (dayOf t)) + 1.
Proof.
  unfold getDate. destruct (monthIndex_lower (dayOf t)) as (Hz & _ & _). lia.
Qed.

Lemma makeDay_monthStart (year month date : Z) :
  makeDay year month date = monthStart (12 * year + month) + date - 1.
Proof.
  unfold makeDay, monthStart.
  replace ((12 * year + month) / 12) with (year + month / 12)
    by (Z.div_mod_to_equations; lia).
  replace ((12 * year + month) mod 12) with (month mod 12)
    by (Z.div_mod_to_equations; lia).
  reflexivity.
Qed.

Lemma dayOf_compose (x tid : Z) :
  0 <= tid < durationDay -> dayOf (x * durationDay + tid) = x.
Proof.
  unfold dayOf. rewrite durationDay_value. intros H.
  Z.div_mod_to_equations. lia.
Qed.

Lemma timeInDay_compose (x tid : Z) :
  0 <= tid < durationDay -> timeInDay (x * durationDay + tid) = tid.
Proof.
  unfold timeInDay. rewrite durationDay_value. intros H.
  Z.div_mod_to_equations. lia.
Qed.

Lemma timeInDay_range (t : Z) : 0 <= timeInDay t < durationDay.
Proof.
  unfold timeInDay. rewrite durationDay_value. Z.div_mod_to_equations. lia.
Qed.

Lemma setHours0_compose (x tid : Z) :
  0 <= tid < durationDay -> setHours0 (x * durationDay + tid) = x * durationDay.
Proof.
  intros H. unfold setHours0. rewrite (timeInDay_compose x tid H). lia.
Qed.

Lemma dayOf_mono (a b : Z) : a <= b -> dayOf a <= dayOf b.
Proof.
  unfold dayOf. rewrite durationDay_value. intros H.
  Z.div_mod_to_equations. lia.
Qed.

Lemma dayOf_le (t : Z) : dayOf t * durationDay <= t < (dayOf t + 1) * durationDay.
Proof.
  unfold dayOf. rewrite durationDay_value. Z.div_mod_to_equations. lia.
Qed.

Lemma periodFloor_le (p t : Z) : 0 < p -> periodFloor p t <= t.
Proof.
  intros Hp. unfold periodFloor.
  set (M := monthIndex (dayOf t)).
  assert (HM : p * (M / p) <= M) by (apply Z.mul_div_le; exact Hp).
  pose proof (monthStart_mono _ _ HM).
  destruct (monthIndex_lower (dayOf t)) as (Hz & Hd & _). fold M in Hz.
  pose proof (dayOf_le t). rewrite durationDay_value in *. lia.
Qed.

Lemma periodFloor_mono (p a b : Z) :
  0 < p -> a <= b -> periodFloor p a <= periodFloor p b.
Proof.
  intros Hp Hab. unfold periodFloor.
  apply Z.mul_le_mono_nonneg_r; [rewrite durationDay_value; lia|].
  apply monthStart_mono. apply Z.mul_le_mono_nonneg_l; [lia|].
  apply Z.div_le_mono; [exact Hp|].
  apply monthIndex_mono, dayOf_mono, Hab.
Qed.

Lemma periodFloor_next (p t : Z) :
  0 < p ->
  t <= monthStart (p * (monthIndex (dayOf (t - 1)) / p) + p) * durationDay.
Proof.
  intros Hp.
  set (M := monthIndex (dayOf (t - 1))).
  assert (HM : M + 1 <= p * (M / p) + p).
  { pose proof (Z.mul_succ_div_gt M p Hp). lia. }
  pose proof (monthStart_mono _ _ HM).
  pose proof (monthIndex_upper (dayOf (t - 1))) as Hup. fold M in Hup.
  pose proof (dayOf_le (t - 1)). rewrite durationDay_value in *. lia.
Qed.

Lemma periodFloor_fixed (p q : Z) :
  0 < p ->
  periodFloor p (monthStart (p * q) * durationDay)
  = monthStart (p * q) * durationDay.
Proof.
  intros Hp. unfold periodFloor.
  replace (monthStart (p * q) * durationDay)
    with (monthStart (p * q) * durationDay + 0) at 1 by lia.
  rewrite dayOf_compose by (rewrite durationDay_value; lia).
  rewrite monthIndex_monthStart.
  replace (p * q / p) with q by (rewrite Z.mul_comm, Z.div_mul; lia).
  reflexivity.
Qed.

(** The getters at the start of a month. *)
Lemma getters_monthStart (X : Z) :
  let f := monthStart X * durationDay in
  getFullYear f = X / 12 /\ getMonth f = X mod 12 /\ getDate f = 1
  /\ timeInDay f = 0.
Proof.
  cbv zeta.
  assert (Hday : dayOf (monthStart X * durationDay) = monthStart X).
  { replace (monthStart X * durationDay)
      with (monthStart X * durationDay + 0) by lia.
    apply dayOf_compose. rewrite durationDay_value. lia. }
  rewrite getFullYear_monthIndex, getMonth_monthIndex, getDate_monthIndex.
  rewrite Hday, monthIndex_monthStart.
  repeat split; try lia.
  replace (monthStart X * durationDay)
    with (monthStart X * durationDay + 0) by lia.
  apply timeInDay_compose. rewrite durationDay_value. lia.
Qed.

Lemma ceil_timeInterval (i : interval) (floori : Z -> Z)
    (offseti count : Z -> Z -> Z) :
  i = timeInterval floori offseti count ->
  forall t, ceil i t = floor i (offset i (floor i (t - 1)) 1).
Proof. intros -> t. reflexivity. Qed.

Lemma month_floor (t : Z) : floor timeMonth t = periodFloor 1 t.
Proof.
  cbn [floor timeMonth timeInterval]. unfold setDate, periodFloor.
  rewrite makeDay_monthStart, getFullYear_monthIndex, getMonth_monthIndex.
  rewrite setHours0_compose by apply timeInDay_range.
  rewrite Z.div_1_r, Z.mul_1_l.
  replace (12 * (monthIndex (dayOf t) / 12) + monthIndex (dayOf t) mod 12)
    with (monthIndex (dayOf t)) by (Z.div_mod_to_equations; lia).
  f_equal. lia.
Qed.

Lemma month_offset (X : Z) :
  offset timeMonth (monthStart X * durationDay) 1
  = monthStart (X + 1) * durationDay.
Proof.
  cbn [offset timeMonth timeInterval]. unfold setMonth.
  destruct (getters_monthStart X) as (Hy & Hm & Hd & Ht). cbv zeta in *.
  rewrite Hy, Hm, Hd, Ht, makeDay_monthStart.
  replace (12 * (X / 12) + (X mod 12 + 1)) with (X + 1)
    by (Z.div_mod_to_equations; lia).
  lia.
Qed.

Lemma timeMonth_lawful : lawful timeMonth.
Proof.
  split.
  - intros t. rewrite month_floor. apply periodFloor_le. lia.
  - intros a b Hab. rewrite !month_floor. apply periodFloor_mono; lia.
  - intros t. rewrite (ceil_timeInterval timeMonth _ _ _ eq_refl).
    rewrite (month_floor (t - 1)). unfold periodFloor at 1.
    rewrite month_offset, month_floor.
    replace (1 * (monthIndex (dayOf (t - 1)) / 1) + 1)
      with (1 * (monthIndex (dayOf (t - 1)) / 1 + 1)) by lia.
    rewrite periodFloor_fixed by lia.
    pose proof (periodFloor_next 1 t ltac:(lia)) as H.
    replace (1 * (monthIndex (dayOf (t - 1)) / 1 + 1))
      with (1 * (monthIndex (dayOf (t - 1)) / 1) + 1) by lia.
    exact H.
Qed.

Lemma year_floor (t : Z) : floor timeYear t = periodFloor 12 t.
Proof.
  cbn [floor timeYear timeInterval]. unfold setMonthDate, periodFloor.
  rewrite makeDay_monthStart, getFullYear_monthIndex.
  rewrite setHours0_compose by apply timeInDay_range.
  rewrite Z.add_0_r. lia.
Qed.

(** [setFullYear] from the start of a year. *)
Lemma setFullYear_yearStart (q year : Z) :
  setFullYear (monthStart (12 * q) * durationDay) year
  = monthStart (12 * year) * durationDay.
Proof.
  unfold setFullYear.
  destruct (getters_monthStart (12 * q)) as (Hy & Hm & Hd & Ht).
  cbv zeta in *. rewrite Hm, Hd, Ht, makeDay_monthStart.
  replace (12 * q mod 12) with 0 by (Z.div_mod_to_equations; lia).
  rewrite !Z.add_0_r. f_equal. lia.
Qed.

Lemma timeYear_lawful : lawful timeYear.
Proof.
  split.
  - intros t. rewrite year_floor. apply periodFloor_le. lia.
  - intros a b Hab. rewrite !year_floor. apply periodFloor_mono; lia.
  - intros t. rewrite (ceil_timeInterval timeYear _ _ _ eq_refl).
    rewrite (year_floor (t - 1)). unfold periodFloor at 1.
    cbn [offset timeYear timeInterval].
    rewrite setFullYear_yearStart, year_floor.
    destruct (getters_monthStart (12 * (monthIndex (dayOf (t - 1)) / 12)))
      as (Hy & _). cbv zeta in Hy. rewrite Hy.
    replace (12 * (monthIndex (dayOf (t - 1)) / 12) / 12)
      with (monthIndex (dayOf (t - 1)) / 12)
      by (rewrite Z.mul_comm, Z.div_mul; lia).
    rewrite periodFloor_fixed by lia.
    pose proof (periodFloor_next 12 t ltac:(lia)) as H.
    replace (12 * (monthIndex (dayOf (t - 1)) / 12 + 1))
      with (12 * (monthIndex (dayOf (t - 1)) / 12) + 12) by lia.
    exact H.
Qed.

(** [setFullYear] keeps the date within the year it sets. *)
Lemma setFullYear_year (t year : Z) :
  monthIndex (dayOf (setFullYear t year)) / 12 = year.
Proof.
  unfold setFullYear.
  rewrite makeDay_monthStart, getMonth_monthIndex, getDate_monthIndex.
  rewrite dayOf_compose by apply timeInDay_range.
  set (M := monthIndex (dayOf t)).
  destruct (monthIndex_lower (dayOf t)) as (Hz & Hd & _). fold M in Hz.
  pose proof (monthIndex_upper (dayOf t)) as Hup. fold M in Hup.
  pose proof (monthStart_step M) as Hlen.
  set (mm := M mod 12).
  assert (Hmm : 0 <= mm < 12) by (subst mm; Z.div_mod_to_equations; lia).
  set (d := dayOf t - monthStart M + 1).
  assert (Hd' : 1 <= d <= 31) by (subst d; lia).
  assert (Hbounds :
    monthStart (12 * year) <= monthStart (12 * year + mm) + d - 1
    < monthStart (12 * (year + 1))).
  { split.
    - pose proof (monthStart_mono (12 * year) (12 * year + mm) ltac:(lia)).
      lia.
    - destruct (Z.eq_dec mm 11) as [H11|H11].
      + pose proof (monthStart_december (12 * year + mm)
                      ltac:(Z.div_mod_to_equations; lia)) as Hdec.
        replace (12 * (year + 1)) with (12 * year + mm + 1) by lia. lia.
      + pose proof (monthStart_strict (12 * year + mm) (12 * year + mm + 2)
                      ltac:(lia)).
        pose proof (monthStart_mono (12 * year + mm + 2) (12 * (year + 1))
                      ltac:(lia)).
        lia. }
  pose proof (monthIndex_sandwich _ _ _ Hbounds).
  Z.div_mod_to_equations. lia.
Qed.

Lemma year_every_floor (k t : Z) :
  0 < k -> floor (timeYear_every k) t = periodFloor (12 * k) t.
Proof.
  intros Hk. cbn [floor timeYear_every timeInterval].
  unfold setMonthDate at 1.
  rewrite makeDay_monthStart, getFullYear_monthIndex.
  rewrite setFullYear_year.
  rewrite setHours0_compose by apply timeInDay_range.
  unfold periodFloor. rewrite getFullYear_monthIndex, Z.add_0_r.
  rewrite Z.div_div by lia.
  replace (12 * (monthIndex (dayOf t) / (12 * k) * k))
    with (12 * k * (monthIndex (dayOf t) / (12 * k))) by lia.
  lia.
Qed.

Lemma timeYear_every_lawful (k : Z) : 0 < k -> lawful (timeYear_every k).
Proof.
  intros Hk. split.
  - intros t. rewrite year_every_floor by exact Hk. apply periodFloor_le. lia.
  - intros a b Hab. rewrite !year_every_floor by exact Hk.
    apply periodFloor_mono; lia.
  - intros t. rewrite (ceil_timeInterval (timeYear_every k) _ _ _ eq_refl).
    rewrite (year_every_floor k (t - 1) Hk). unfold periodFloor at 1.
    cbn [offset timeYear_every timeInterval].
    set (q := monthIndex (dayOf (t - 1)) / (12 * k)).
    replace (12 * k * q) with (12 * (k * q)) by lia.
    rewrite setFullYear_yearStart, year_every_floor by exact Hk.
    destruct (getters_monthStart (12 * (k * q))) as (Hy & _).
    cbv zeta in Hy. rewrite Hy.
    replace (12 * (k * q) / 12) with (k * q)
      by (rewrite (Z.mul_comm 12 (k * q)), Z.div_mul; lia).
    replace (12 * (k * q + 1 * k)) with (12 * k * (q + 1)) by lia.
    rewrite periodFloor_fixed by lia.
    pose proof (periodFloor_next (12 * k) t ltac:(lia)) as H. fold q in H.
    replace (12 * k * (q + 1)) with (12 * k * q + 12 * k) by lia.
    exact H.
Qed.

Lemma week_floor (t : Z) :
  floor timeWeek t = (dayOf t - (dayOf t + 4) mod 7) * durationDay.
Proof.
  cbn [floor timeWeek timeInterval].
  replace (getDate t - (getDay t + 7 - 0) mod 7)
    with (getDate t + - ((getDay t + 7 - 0) mod 7)) by lia.
  rewrite setDate_shift. unfold getDay.
  replace (((dayOf t + 4) mod 7 + 7 - 0) mod 7) with ((dayOf t + 4) mod 7)
    by (Z.div_mod_to_equations; lia).
  set (w := (dayOf t + 4) mod 7).
  rewrite (time_split t) at 1.
  replace (dayOf t * durationDay + timeInDay t + - w * durationDay)
    with ((dayOf t - w) * durationDay + timeInDay t) by lia.
  apply setHours0_compose, timeInDay_range.
Qed.

Lemma timeWeek_lawful : lawful timeWeek.
Proof.
  split.
  - intros t. rewrite week_floor. pose proof (dayOf_le t).
    rewrite durationDay_value in *. Z.div_mod_to_equations. lia.
  - intros a b Hab. rewrite !week_floor. pose proof (dayOf_mono a b Hab).
    rewrite durationDay_value. Z.div_mod_to_equations. lia.
  - intros t. rewrite (ceil_timeInterval timeWeek _ _ _ eq_refl).
    cbn [offset timeWeek timeInterval]. rewrite setDate_shift.
    rewrite (week_floor (t - 1)).
    set (s := dayOf (t - 1) - (dayOf (t - 1) + 4) mod 7).
    replace (s * durationDay + 1 * 7 * durationDay)
      with ((s + 7) * durationDay + 0) by lia.
    rewrite week_floor.
    rewrite dayOf_compose by (rewrite durationDay_value; lia).
    pose proof (dayOf_le (t - 1)). subst s.
    rewrite durationDay_value in *. Z.div_mod_to_equations. lia.
Qed.

Lemma timeMinute_lawful : lawful timeMinute.
Proof.
  split; cbn [floor ceil timeMinute timeInterval];
    unfold getMilliseconds, getSeconds, durationMinute, durationSecond;
    intros; Z.div_mod_to_equations; lia.
Qed.

Lemma timeHour_lawful : lawful timeHour.
Proof.
  split; cbn [floor ceil timeHour timeInterval];
    unfold getMilliseconds, getSeconds, getMinutes, durationHour,
      durationMinute, durationSecond;
    intros; Z.div_mod_to_equations; lia.
Qed.

(** Every interval [getD3TimeInterval] can select from the concrete d3
    handle obeys the laws. *)
Lemma getD3TimeInterval_lawful (scale : string) :
  lawful (TimeScale.getD3TimeInterval d3 scale).
Proof.
  unfold TimeScale.getD3TimeInterval.
  repeat match goal with
  | |- context [String.eqb scale ?s] => destruct (String.eqb scale s)
  end;
  cbn [D3.timeYear D3.timeYear_every D3.timeMonth D3.timeWeek D3.timeDay
       D3.timeHour D3.timeMinute D3.timeSecond d3];
  auto using timeYear_lawful, timeMonth_lawful, timeWeek_lawful,
    timeDay_lawful, timeHour_lawful, timeMinute_lawful, timeSecond_lawful;
  apply timeYear_every_lawful; lia.
Qed.

(** So does the interval the heatmap passes to the aggregation. *)
Lemma getTimeInterval_lawful (xScale : D3.scale)
    (numberDisplayedTicks : option (list (string * Z)))
    (breakpointLabel : option string)
    (bucketSize : option TimeScale.bucketSize) :
  lawful (TimeScale.getTimeInterval d3 xScale numberDisplayedTicks
            breakpointLabel bucketSize).
Proof.
  unfold TimeScale.getTimeInterval.
  destruct (TimeScale.validateDomain (domain xScale)).
  - apply getD3TimeInterval_lawful.
  - apply timeDay_lawful.
Qed.

End D3UtcFacts.

(** ** Aggregation within the range of [Date] *)

Lemma timeClip_Some (t x : Z) :
  timeClip t = Some x -> x = t /\ - MAX_TIME <= t <= MAX_TIME.
Proof.
  unfold timeClip. destruct (Z.leb_spec (Z.abs t) MAX_TIME) as [H|H];
    [|discriminate].
  intros Heq. injection Heq as <-. lia.
Qed.

Lemma timeClip_within (t : Z) :
  - MAX_TIME <= t <= MAX_TIME -> timeClip t = Some t.
Proof.
  intros H. unfold timeClip.
  destruct (Z.leb_spec (Z.abs t) MAX_TIME); [reflexivity | lia].
Qed.

Lemma andThen_Some (date : option Z) (f : Z -> Z) (x : Z) :
  DateRange.andThen date f = Some x ->
  exists t, date = Some t /\ x = f t /\ - MAX_TIME <= x <= MAX_TIME.
Proof.
  destruct date as [t|]; simpl; [|discriminate].
  intros H. apply timeClip_Some in H. exists t. destruct H as [-> H].
  auto.
Qed.

Section DateRangeFacts.

Import Heatmap.

Context {Event : Type}.
Variable xScale : D3.scale.
Variable dropDate : Event -> value.

(** On an interval that gives no Invalid Date the aggregation is that of
    [Heatmap]. *)
Lemma aggregateEvents_total (i : D3.interval) (events : data Event) :
  DateRange.aggregateEvents xScale dropDate events (DateRange.total i)
  = Heatmap.aggregateEvents xScale dropDate events i.
Proof.
  unfold DateRange.aggregateEvents, Heatmap.aggregateEvents.
  destruct (validateDomain (domain xScale)) as [info|]; [|reflexivity].
  destruct events; reflexivity.
Qed.

Section FoldWithin.

Variable timeInterval : DateRange.interval.
Variables domainStart domainEnd : Z.
Hypothesis Hlaw : lawfulWithin timeInterval domainStart domainEnd.

Let step : @bucketMap Event -> Event -> @bucketMap Event :=
  DateRange.addEvent dropDate timeInterval domainStart domainEnd
    (DateRange.floor timeInterval domainStart)
    (DateRange.ceil timeInterval domainEnd).

(** The envelope test holds for every event that passed the domain test,
    and the start of its bucket is a valid date. *)
Lemma envelope_test_passes_within (event : Event) (t : Z) :
  instantInDomain dropDate domainStart domainEnd event = Some t ->
  exists f,
    DateRange.floor timeInterval t = Some f
    /\ timeGeb (Some f) (DateRange.floor timeInterval domainStart)
       && timeLeb (Some f) (DateRange.ceil timeInterval domainEnd) = true.
Proof.
  intros Hin. apply instantInDomain_bounds in Hin.
  destruct Hlaw as [Hfloor Hmono [c [Hc Hec]]].
  destruct (Hfloor t Hin) as (f & Hf & Hft).
  destruct (Hfloor domainStart ltac:(lia)) as (fs & Hfs & _).
  exists f. split; [exact Hf|].
  rewrite Hfs, Hc. simpl. apply andb_true_intro. split.
  - apply Z.geb_le.
    apply (Hmono domainStart t fs f); try assumption; lia.
  - apply Z.leb_le. lia.
Qed.

Lemma sumCounts_step_within (m : bucketMap) (event : Event) :
  sumCounts (values (step m event))
  = sumCounts (values m)
    + (if validInstantWithin domainStart domainEnd (dropDate event)
       then 1 else 0).
Proof.
  rewrite instantInDomain_validInstantWithin.
  unfold step, DateRange.addEvent.
  destruct (instantInDomain _ _ _ _) as [t|] eqn:Hin; [|lia].
  cbv zeta.
  destruct (envelope_test_passes_within event t Hin) as (f & Hf & Htest).
  rewrite Hf, Htest.
  destruct (has m f) eqn:Hhas; simpl.
  - now apply sumCounts_addTo.
  - rewrite sumCounts_addTo by apply has_set.
    rewrite sumCounts_set. simpl. lia.
Qed.

Lemma sumCounts_fold_within (items : list Event) (m : bucketMap) :
  sumCounts (values (fold_left step items m))
  = sumCounts (values m)
    + Z.of_nat (List.length
        (filter (fun ev => validInstantWithin domainStart domainEnd
                             (dropDate ev)) items)).
Proof.
  revert m.
  induction items as [|ev items IH]; intros m; simpl; [lia|].
  rewrite IH, (sumCounts_step_within m ev).
  destruct (validInstantWithin _ _ _); simpl List.length; lia.
Qed.

End FoldWithin.

Lemma aggregateEvents_counts_within (items : list Event)
    (timeInterval : DateRange.interval) (s e : Z) :
  twoValidBounds (domain xScale) s e ->
  lawfulWithin timeInterval s e ->
  sumCounts
    (DateRange.aggregateEvents xScale dropDate (Array items) timeInterval)
  = Z.of_nat
      (List.length
         (filter (fun ev => validInstantWithin s e (dropDate ev)) items)).
Proof.
  intros Hvalid Hlaw. apply validateDomain_Some in Hvalid.
  unfold DateRange.aggregateEvents. rewrite Hvalid. cbv zeta.
  cbn [start end_].
  rewrite sumCounts_sortByDate.
  rewrite (sumCounts_fold_within timeInterval s e Hlaw items []).
  reflexivity.
Qed.

End DateRangeFacts.

(** An interval of the calendar whose [ceil] is the one d3-time derives
    from [floor] and [offset] obeys the laws on the [Date]s of a domain
    as soon as the floor of the start and the ceiling of the end are valid
    dates. *)
Lemma onDates_lawfulWithin (i : D3.interval) (s e : Z) :
  lawful i ->
  (forall t, D3.ceil i t = D3.floor i (offset i (D3.floor i (t - 1)) 1)) ->
  DateRange.floor (DateRange.onDates i) s <> None ->
  DateRange.ceil (DateRange.onDates i) e <> None ->
  lawfulWithin (DateRange.onDates i) s e.
Proof.
  intros [Hle Hmono Hge] Hceil Hs He.
  cbn [DateRange.floor DateRange.ceil DateRange.onDates] in *.
  destruct (DateRange.andThen (Some s) (D3.floor i)) as [fs|] eqn:Hfs;
    [clear Hs | contradiction].
  apply andThen_Some in Hfs. destruct Hfs as (s' & Hs' & -> & Hfsr).
  injection Hs' as <-.
  destruct (DateRange.andThen _ (D3.floor i)) as [c|] eqn:Hc in He |- *;
    [clear He | contradiction].
  pose proof Hc as Hc'.
  apply andThen_Some in Hc'. destruct Hc' as (d3' & Hd3 & -> & Hcr).
  apply andThen_Some in Hd3. destruct Hd3 as (d2 & Hd2 & -> & _).
  apply andThen_Some in Hd2. destruct Hd2 as (d1 & Hd1 & -> & _).
  apply timeClip_Some in Hd1. destruct Hd1 as [-> _].
  cbv beta in Hc, Hcr. rewrite <- Hceil in Hc, Hcr.
  assert (Hvalid : forall t, s <= t < e ->
            timeClip (D3.floor i t) = Some (D3.floor i t)).
  { intros t Ht. apply timeClip_within.
    pose proof (Hmono s t ltac:(lia)). pose proof (Hle t).
    pose proof (Hge e). lia. }
  split.
  - intros t Ht. exists (D3.floor i t). simpl. rewrite (Hvalid t Ht).
    split; [reflexivity | apply Hle].
  - intros a b fa fb Ha Hab Hb. simpl.
    rewrite (Hvalid a ltac:(lia)), (Hvalid b ltac:(lia)).
    intros Hfa Hfb. injection Hfa as <-. injection Hfb as <-.
    now apply Hmono.
  - exists (D3.ceil i e). split; [exact Hc | apply Hge].
Qed.

Lemma getD3TimeInterval_ceil (scale : string) (t : Z) :
  D3.ceil (getD3TimeInterval D3Utc.d3 scale) t
  = D3.floor (getD3TimeInterval D3Utc.d3 scale)
      (offset (getD3TimeInterval D3Utc.d3 scale)
         (D3.floor (getD3TimeInterval D3Utc.d3 scale) (t - 1)) 1).
Proof.
  remember (getD3TimeInterval D3Utc.d3 scale) as i eqn:Hi.
  unfold getD3TimeInterval in Hi.
  repeat match type of Hi with
  | context [String.eqb scale ?s] => destruct (String.eqb scale s)
  end;
  cbn [D3.timeYear D3.timeYear_every D3.timeMonth D3.timeWeek D3.timeDay
       D3.timeHour D3.timeMinute D3.timeSecond D3Utc.d3] in Hi;
  exact (D3UtcFacts.ceil_timeInterval i _ _ _ Hi t).
Qed.

Lemma getD3TimeInterval_lawfulWithin (scale : string) (s e : Z) :
  DateRange.floor (DateRange.onDates (getD3TimeInterval D3Utc.d3 scale)) s
  <> None ->
  DateRange.ceil (DateRange.onDates (getD3TimeInterval D3Utc.d3 scale)) e
  <> None ->
  lawfulWithin (DateRange.onDates (getD3TimeInterval D3Utc.d3 scale)) s e.
Proof.
  apply onDates_lawfulWithin.
  - apply D3UtcFacts.getD3TimeInterval_lawful.
  - apply getD3TimeInterval_ceil.
Qed.

Lemma getTimeInterval_ceil (xScale : D3.scale)
    (numberDisplayedTicks : option (list (string * Z)))
    (breakpointLabel : option string) (bucketSize : option bucketSize)
    (t : Z) :
  let i := getTimeInterval D3Utc.d3 xScale numberDisplayedTicks
             breakpointLabel bucketSize in
  D3.ceil i t = D3.floor i (offset i (D3.floor i (t - 1)) 1).
Proof.
  cbv zeta. unfold getTimeInterval.
  destruct (validateDomain (domain xScale)).
  - apply getD3TimeInterval_ceil.
  - exact (D3UtcFacts.ceil_timeInterval _ _ _ _ eq_refl t).
Qed.

(** Where the interval obeys the laws on the [Date]s of the domain, the
    aggregation on [Date]s is the aggregation on instants. *)
Lemma aggregateEvents_onDates (Event : Type) (xScale : D3.scale)
    (dropDate : Event -> value) (events : Heatmap.data Event)
    (i : D3.interval) (s e : Z) :
  twoValidBounds (domain xScale) s e ->
  (forall t, D3.ceil i t = D3.floor i (offset i (D3.floor i (t - 1)) 1)) ->
  lawfulWithin (DateRange.onDates i) s e ->
  DateRange.aggregateEvents xScale dropDate events (DateRange.onDates i)
  = Heatmap.aggregateEvents xScale dropDate events i.
Proof.
  intros Hvalid Hceil [Hfloor _ [c [Hc _]]].
  apply validateDomain_Some in Hvalid.
  unfold DateRange.aggregateEvents, Heatmap.aggregateEvents.
  rewrite Hvalid. cbv zeta. cbn [start end_].
  destruct events as [| |items]; try reflexivity.
  do 2 f_equal.
  generalize (@nil (Z * Heatmap.bucket Event)).
  induction items as [|ev items IH]; intros m; cbn [fold_left];
    [reflexivity|].
  rewrite <- IH. f_equal.
  unfold DateRange.addEvent, Heatmap.addEvent.
  destruct (Heatmap.instantInDomain dropDate s e ev) as [t|] eqn:Hin;
    [|reflexivity].
  apply instantInDomain_bounds in Hin. cbv zeta.
  destruct (Hfloor t Hin) as (f & Hf & _).
  destruct (Hfloor s ltac:(lia)) as (fs & Hfs & _).
  rewrite Hf, Hfs, Hc.
  cbn [DateRange.floor DateRange.ceil DateRange.onDates] in Hf, Hfs, Hc.
  apply andThen_Some in Hf. destruct Hf as (t' & Ht' & -> & _).
  injection Ht' as <-.
  apply andThen_Some in Hfs. destruct Hfs as (s' & Hs' & -> & _).
  injection Hs' as <-.
  apply andThen_Some in Hc. destruct Hc as (d3' & Hd3 & -> & _).
  apply andThen_Some in Hd3. destruct Hd3 as (d2 & Hd2 & -> & _).
  apply andThen_Some in Hd2. destruct Hd2 as (d1 & Hd1 & -> & _).
  apply timeClip_Some in Hd1. destruct Hd1 as [-> _].
  cbv beta. rewrite <- Hceil. reflexivity.
Qed.

(** C2, as stated, fails at the end of the range of [Date]: on the last
    three days of the range the ceiling of the domain's end at the
    granularity of weeks is an Invalid Date, the envelope test is false for
    every event, and the event of the day before the last is dropped
    although it lies within the domain. *)
Lemma aggregateEvents_drops_event_at_end_of_date_range :
  let domainStart := MAX_TIME - 3 * D3Utc.durationDay in
  let event := Date (Some (MAX_TIME - D3Utc.durationDay)) in
  let timeWeek := DateRange.onDates (getD3TimeInterval D3Utc.d3 "weeks") in
  validateDomain (domain lastDaysScale)
  = Some (DomainInfo domainStart MAX_TIME)
  /\ validInstantWithin domainStart MAX_TIME event = true
  /\ DateRange.ceil timeWeek MAX_TIME = None
  /\ DateRange.aggregateEvents lastDaysScale (fun v : value => v)
       (Heatmap.Array [event]) timeWeek
     = []
  /\ sumCounts
       (DateRange.aggregateEvents lastDaysScale (fun v : value => v)
          (Heatmap.Array [event]) timeWeek)
     <> Z.of_nat
          (List.length
             (filter (fun ev => validInstantWithin domainStart MAX_TIME ev)
                [event])).
Proof.
  cbv zeta.
  split; [reflexivity|]. split; [vm_compute; reflexivity|].
  split; [vm_compute; reflexivity|]. split; [vm_compute; reflexivity|].
  vm_compute. discriminate.
Qed.

(** C2, amended.  For a domain with two valid bounds and an interval that
    obeys d3's laws on the [Date]s of the domain (the floor of every
    instant of [[domain.start, domain.end)] is a valid date, never after
    the instant, and monotone; the ceiling of [domain.end] is a valid date,
    never before it), the counts of the buckets returned by
    [aggregateEvents] add up to the number of supplied events whose instant
    is valid and lies in [[domain.start, domain.end)], and the envelope test
    never drops an event that passed the domain test.  The interval of
    every granularity obeys these laws as soon as its floor of
    [domain.start] and its ceiling of [domain.end] are valid dates, so the
    counts add up there at every granularity. *)
Theorem aggregateEvents_counts_events_within_domain :
  forall (Event : Type) (xScale : D3.scale) (dropDate : Event -> value)
         (items : list Event) (s e : Z),
    twoValidBounds (domain xScale) s e ->
    let expected :=
      Z.of_nat
        (List.length
           (filter (fun ev => validInstantWithin s e (dropDate ev)) items))
    in
    (forall timeInterval : DateRange.interval,
        lawfulWithin timeInterval s e ->
        sumCounts
          (DateRange.aggregateEvents xScale dropDate (Heatmap.Array items)
             timeInterval)
        = expected
        /\ (forall ev t,
              Heatmap.instantInDomain dropDate s e ev = Some t ->
              timeGeb (DateRange.floor timeInterval t)
                (DateRange.floor timeInterval s)
              && timeLeb (DateRange.floor timeInterval t)
                   (DateRange.ceil timeInterval e)
              = true))
    /\ (forall granularity : string,
          let timeInterval :=
            DateRange.onDates (getD3TimeInterval D3Utc.d3 granularity) in
          DateRange.floor timeInterval s <> None ->
          DateRange.ceil timeInterval e <> None ->
          lawfulWithin timeInterval s e
          /\ sumCounts
               (DateRange.aggregateEvents xScale dropDate
                  (Heatmap.Array items) timeInterval)
             = expected).
Proof.
  intros Event xScale dropDate items s e Hvalid expected. split.
  - intros timeInterval Hlaw. split.
    + exact (aggregateEvents_counts_within xScale dropDate items
               timeInterval s e Hvalid Hlaw).
    + intros ev t Hin.
      destruct (envelope_test_passes_within dropDate timeInterval s e
                  Hlaw ev t Hin) as (f & Hf & Htest).
      rewrite Hf. exact Htest.
  - intros granularity timeInterval Hs He.
    pose proof (getD3TimeInterval_lawfulWithin granularity s e Hs He)
      as Hlaw.
    split; [exact Hlaw|].
    exact (aggregateEvents_counts_within xScale dropDate items
             timeInterval s e Hvalid Hlaw).
Qed.

(** In particular the counts add up at the interval the heatmap computes
    for the row with [getTimeInterval], where its floor of the domain's
    start and its ceiling of the domain's end are valid dates. *)
Lemma aggregateEvents_counts_at_heatmap_interval (Event : Type)
    (xScale : D3.scale) (dropDate : Event -> value) (items : list Event)
    (numberDisplayedTicks : option (list (string * Z)))
    (breakpointLabel : option string) (bucketSize : option bucketSize)
    (s e : Z) :
  let timeInterval :=
    DateRange.onDates
      (getTimeInterval D3Utc.d3 xScale numberDisplayedTicks breakpointLabel
         bucketSize) in
  twoValidBounds (domain xScale) s e ->
  DateRange.floor timeInterval s <> None ->
  DateRange.ceil timeInterval e <> None ->
  sumCounts
    (DateRange.aggregateEvents xScale dropDate (Heatmap.Array items)
       timeInterval)
  = Z.of_nat
      (List.length
         (filter (fun ev => validInstantWithin s e (dropDate ev)) items)).
Proof.
  intros timeInterval Hvalid Hs He.
  apply (aggregateEvents_counts_within xScale dropDate items timeInterval
           s e Hvalid).
  apply onDates_lawfulWithin; try assumption.
  - apply D3UtcFacts.getTimeInterval_lawful.
  - exact (getTimeInterval_ceil xScale numberDisplayedTicks breakpointLabel
             bucketSize).
Qed.

(** ** Concrete runs *)

Lemma aggregateEvents_counts_events_within_domain_witness :
  sumCounts
    (DateRange.aggregateEvents weekScale (fun v : value => v)
       (Heatmap.Array weekEvents)
       (DateRange.onDates (getD3TimeInterval D3Utc.d3 "days")))
  = 3.
Proof.
  assert (Hvalid : twoValidBounds (domain weekScale)
                     (D3Utc.utc 2020 1 1) (D3Utc.utc 2020 1 8))
    by (exists []; reflexivity).
  pose proof (aggregateEvents_counts_events_within_domain value weekScale
                (fun v : value => v) weekEvents
                (D3Utc.utc 2020 1 1) (D3Utc.utc 2020 1 8) Hvalid) as H.
  cbv zeta in H. destruct H as [_ H].
  destruct (H "days") as [_ Hsum].
  - vm_compute. discriminate.
  - vm_compute. discriminate.
  - rewrite Hsum. vm_compute. reflexivity.
Defined.

(** The first scenario of the specification: the buckets of the week, in
    order, with their counts and members, and their intensities 1 and
    1/2. *)
Example aggregateEvents_week :
  Heatmap.aggregateEvents weekScale (fun v : value => v)
    (Heatmap.Array weekEvents) D3Utc.timeDay
  = [ Heatmap.Bucket (D3Utc.utc 2020 1 2) 2
        [ Date (Some (D3Utc.utc 2020 1 2 + 3600000));
          Date (Some (D3Utc.utc 2020 1 2)) ];
      Heatmap.Bucket (D3Utc.utc 2020 1 5) 1
        [ Date (Some (D3Utc.utc 2020 1 5 + 1)) ] ]
  /\ forallb (fun p => Qeq_bool (fst p) (snd p))
       (combine
          (map Heatmap.intensity
             (Heatmap.getHeatmapBucketData weekScale (fun v : value => v)
                D3Utc.timeDay (Some (Heatmap.Array weekEvents))))
          [1%Q; (1 # 2)%Q])
     = true.
Proof. split; vm_compute; reflexivity. Qed.

Lemma refineBucketScale_guarantees_witness :
  refineBucketScale D3Utc.d3 thirtyDaysScale "days"
    (BucketSize (Some 50%Q) None) = "weeks"
  /\ minWidthGuarantee D3Utc.d3 thirtyDaysScale 50
       (startIndex D3Utc.d3 thirtyDaysScale "days")
       (refineBucketScale D3Utc.d3 thirtyDaysScale "days"
          (BucketSize (Some 50%Q) None)).
Proof.
  split; [vm_compute; reflexivity|].
  pose proof (refineBucketScale_guarantees D3Utc.d3 thirtyDaysScale "days"
                (BucketSize (Some 50%Q) None)) as H.
  cbv zeta in H. destruct H as (_ & _ & Hmin & _).
  exact (Hmin 50%Q eq_refl eq_refl).
Defined.

Lemma validateDomain_accepts_iff_two_valid_bounds_witness :
  validateDomain (domain weekScale)
  = Some (DomainInfo (D3Utc.utc 2020 1 1) (D3Utc.utc 2020 1 8)).
Proof.
  apply (proj1 (validateDomain_accepts_iff_two_valid_bounds
                  (domain weekScale))
           (DomainInfo (D3Utc.utc 2020 1 1) (D3Utc.utc 2020 1 8))).
  exists []. reflexivity.
Defined.

Lemma getD3TimeInterval_milliseconds_is_seconds_witness :
  getD3TimeInterval D3Utc.d3 "fortnights" = D3Utc.timeDay.
Proof.
  apply (getD3TimeInterval_milliseconds_is_seconds D3Utc.d3).
  simpl. intros H.
  repeat (destruct H as [H|H]; [discriminate H|]). exact H.
Defined.

(** Two ticks fifteen calendar years apart: the decades candidate. *)
Lemma tickCandidates_expected_duration_witness :
  let tick1 := D3Utc.utc 2000 1 1 in
  let tick2 := D3Utc.utc 2015 1 1 in
  let c := Candidate "decades" (D3Utc.utc 2015 1 1 - D3Utc.utc 2000 1 1) 1 in
  In c (tickCandidates D3Utc.d3 tick1 tick2)
  /\ 10 <= D3.count (timeYear D3Utc.d3) tick1 tick2
  /\ TimeScale.count c = D3.count (timeYear D3Utc.d3) tick1 tick2 / 10
  /\ expectedDuration c
     = offset (timeYear D3Utc.d3) tick1
         (D3.count (timeYear D3Utc.d3) tick1 tick2) - tick1.
Proof.
  cbv zeta.
  assert (Hin : In (Candidate "decades"
                      (D3Utc.utc 2015 1 1 - D3Utc.utc 2000 1 1) 1)
                   (tickCandidates D3Utc.d3 (D3Utc.utc 2000 1 1)
                      (D3Utc.utc 2015 1 1)))
    by (vm_compute; tauto).
  split; [exact Hin|].
  pose proof (tickCandidates_expected_duration D3Utc.d3
                (D3Utc.utc 2000 1 1) (D3Utc.utc 2015 1 1)) as H.
  cbv zeta in H. destruct H as (_ & _ & _ & _ & Hdecades).
  exact (Hdecades _ Hin eq_refl).
Defined.

(** The row of the week: its buckets are normalised to a maximum of 1. *)
Lemma getHeatmapBucketData_normalises_per_row_witness :
  exists h,
    In h (Heatmap.getHeatmapBucketData weekScale (fun v : value => v)
            D3Utc.timeDay (Some (Heatmap.Array weekEvents)))
    /\ (Heatmap.intensity h == 1)%Q.
Proof.
  pose proof (getHeatmapBucketData_normalises_per_row value weekScale
                (fun v : value => v) D3Utc.timeDay) as H.
  destruct H as (_ & _ & _ & Hrow & _).
  destruct (Hrow (Some (Heatmap.Array weekEvents))) as (_ & _ & Hmax).
  apply Hmax. vm_compute. discriminate.
Defined.

(** * Further properties *)

(** ** The routing of events to buckets *)

Section RoutingFacts.

Import Heatmap.

Context {Event : Type}.
Variable dropDate : Event -> value.
Variable timeInterval : interval.
Variables domainStart domainEnd : Z.

Local Abbreviation bucketOf' := (bucketOf dropDate timeInterval domainStart domainEnd).
Local Abbreviation inBucket' := (inBucket dropDate timeInterval domainStart domainEnd).
Local Abbreviation bucketed' := (bucketed dropDate timeInterval domainStart domainEnd).
Local Abbreviation routed' := (routed dropDate timeInterval domainStart domainEnd).
Local Abbreviation step :=
  (addEvent dropDate timeInterval domainStart domainEnd
     (floor timeInterval domainStart) (ceil timeInterval domainEnd)).

Lemma has_In (m : @bucketMap Event) (key : Z) :
  has m key = true <-> In key (map fst m).
Proof.
  induction m as [|[k b] m IH]; simpl; [split; [discriminate | tauto]|].
  rewrite orb_true_iff, IH, Z.eqb_eq. tauto.
Qed.

Lemma addTo_keys (m : @bucketMap Event) (key : Z) (event : Event) :
  map fst (addTo m key event) = map fst m.
Proof.
  induction m as [|[k b] m IH]; simpl; [reflexivity|].
  destruct (k =? key); simpl; congruence.
Qed.

Lemma addTo_In (m : @bucketMap Event) (key : Z) (event : Event)
    (k : Z) (b' : bucket Event) :
  NoDup (map fst m) ->
  In (k, b') (addTo m key event) ->
  (k <> key /\ In (k, b') m)
  \/ (k = key
      /\ exists b, In (key, b) m
                   /\ b' = Bucket (date b) (Heatmap.count b + 1)
                             (events b ++ [event])).
Proof.
  induction m as [|[k0 b0] m IH]; simpl; [tauto|].
  intros Hnd Hin. inversion Hnd as [|? ? Hnot Hnd']; subst.
  destruct (Z.eqb_spec k0 key) as [->|Hne].
  - destruct Hin as [Heq|Hin].
    + injection Heq as <- <-. right. split; [reflexivity|].
      exists b0. split; [now left | reflexivity].
    + left. split; [|now right].
      intros ->. apply Hnot. apply in_map_iff. now exists (key, b').
  - destruct Hin as [Heq|Hin].
    + injection Heq as <- <-. left. split; [exact Hne | now left].
    + destruct (IH Hnd' Hin) as [[Hk Hm]|[Hk (b & Hb & Heq)]].
      * left. split; [exact Hk | now right].
      * right. split; [exact Hk|]. exists b. split; [now right | exact Heq].
Qed.

Lemma addEvent_bucketOf (m : @bucketMap Event) (event : Event) :
  step m event
  = match bucketOf' event with
    | None => m
    | Some key =>
        addTo (if has m key then m else set m key (Bucket key 0 [])) key event
    end.
Proof.
  unfold addEvent, bucketOf.
  destruct (instantInDomain _ _ _ _) as [t|]; [|reflexivity].
  cbv zeta. destruct (_ && _); [|reflexivity].
  destruct (has m (floor timeInterval t)); reflexivity.
Qed.

Lemma filter_snoc (f : Event -> bool) (l : list Event) (ev : Event) :
  filter f (l ++ [ev]) = (filter f l ++ if f ev then [ev] else [])%list.
Proof. rewrite filter_app. simpl. destruct (f ev); reflexivity. Qed.

Lemma inBucket_bucketOf (key : Z) (event : Event) :
  inBucket' key event = true <-> bucketOf' event = Some key.
Proof.
  unfold inBucket. destruct (bucketOf' event) as [k|].
  - rewrite Z.eqb_eq. split; congruence.
  - split; discriminate.
Qed.

Lemma routed_skip (m : @bucketMap Event) (p : list Event) (ev : Event) :
  routed' m p -> bucketOf' ev = None -> routed' m (p ++ [ev]).
Proof.
  intros (Hnd & Hb & Hc) Hnone. split; [exact Hnd|]. split.
  - intros k b Hin. destruct (Hb k b Hin) as (Hd & He & Hn).
    rewrite filter_snoc.
    replace (inBucket' k ev) with false
      by (unfold inBucket; now rewrite Hnone).
    rewrite app_nil_r. tauto.
  - intros ev' k Hin Hk. apply in_app_or in Hin.
    destruct Hin as [Hin|[<-|[]]]; [now apply (Hc ev') | congruence].
Qed.

Lemma routed_set (m : @bucketMap Event) (p : list Event) (key : Z) :
  routed' m p -> has m key = false ->
  routed' (set m key (Bucket key 0 [])) p.
Proof.
  intros (Hnd & Hb & Hc) Hhas.
  assert (Hnot : ~ In key (map fst m)).
  { intros Hin. apply has_In in Hin. congruence. }
  unfold set. split; [|split].
  - rewrite map_app. simpl.
    apply NoDup_app_remove_l with (l := []). simpl.
    apply Permutation_NoDup with (l := key :: map fst m).
    + apply Permutation_cons_append.
    + now constructor.
  - intros k b Hin. apply in_app_or in Hin.
    destruct Hin as [Hin|[Heq|[]]]; [now apply Hb|].
    injection Heq as <- <-. simpl. split; [reflexivity|].
    split; [|reflexivity].
    symmetry. destruct (filter (inBucket' key) p) as [|ev l] eqn:Hf;
      [reflexivity|].
    exfalso. assert (Hin : In ev (filter (inBucket' key) p))
      by (rewrite Hf; now left).
    apply filter_In in Hin. destruct Hin as [Hin Hk].
    apply inBucket_bucketOf in Hk. apply Hnot. now apply (Hc ev).
  - intros ev k Hin Hk. rewrite map_app. apply in_or_app. left.
    now apply (Hc ev).
Qed.

Lemma routed_addTo (m : @bucketMap Event) (p : list Event) (key : Z)
    (ev : Event) :
  routed' m p -> has m key = true -> bucketOf' ev = Some key ->
  routed' (addTo m key ev) (p ++ [ev]).
Proof.
  intros (Hnd & Hb & Hc) Hhas Hkey. split; [|split].
  - rewrite addTo_keys. exact Hnd.
  - intros k b' Hin.
    destruct (addTo_In m key ev k b' Hnd Hin)
      as [[Hne Hm]|[-> (b & Hm & ->)]].
    + destruct (Hb k b' Hm) as (Hd & He & Hn). rewrite filter_snoc.
      replace (inBucket' k ev) with false.
      * rewrite app_nil_r. tauto.
      * symmetry. unfold inBucket. rewrite Hkey. apply Z.eqb_neq. congruence.
    + destruct (Hb key b Hm) as (Hd & He & Hn). cbn [date events Heatmap.count].
      rewrite filter_snoc.
      replace (inBucket' key ev) with true
        by (symmetry; now apply inBucket_bucketOf).
      split; [exact Hd|]. split; [now rewrite He|].
      rewrite Hn, length_app. simpl. lia.
  - intros ev' k Hin Hk. rewrite addTo_keys. apply in_app_or in Hin.
    destruct Hin as [Hin|[<-|[]]]; [now apply (Hc ev')|].
    apply has_In. congruence.
Qed.

Lemma routed_step (m : @bucketMap Event) (p : list Event) (ev : Event) :
  routed' m p -> routed' (step m ev) (p ++ [ev]).
Proof.
  intros Hr. rewrite addEvent_bucketOf.
  destruct (bucketOf' ev) as [key|] eqn:Hkey; [|now apply routed_skip].
  destruct (has m key) eqn:Hhas.
  - now apply routed_addTo.
  - apply routed_addTo; [now apply routed_set | apply has_set | exact Hkey].
Qed.

Lemma routed_fold (items : list Event) :
  forall (m : @bucketMap Event) (p : list Event),
    routed' m p -> routed' (fold_left step items m) (p ++ items).
Proof.
  induction items as [|ev items IH]; intros m p Hr; simpl.
  - now rewrite app_nil_r.
  - replace (p ++ ev :: items)%list with ((p ++ [ev]) ++ items)%list
      by (rewrite <- app_assoc; reflexivity).
    apply IH. now apply routed_step.
Qed.

Lemma routed_nil : routed' [] [].
Proof.
  split; [constructor|]. split; [intros k b []|intros ev k []].
Qed.

End RoutingFacts.

Section SortingFacts.

Import Heatmap.

Context {Event : Type}.

Lemma Permutation_insertByDate (b : bucket Event) (l : list (bucket Event)) :
  Permutation (b :: l) (insertByDate b l).
Proof.
  induction l as [|y l IH]; simpl; [reflexivity|].
  destruct (date b <=? date y); [reflexivity|].
  rewrite perm_swap. now apply perm_skip.
Qed.

Lemma Permutation_sortByDate (l : list (bucket Event)) :
  Permutation l (sortByDate l).
Proof.
  induction l as [|y l IH]; simpl; [constructor|].
  rewrite <- Permutation_insertByDate. now apply perm_skip.
Qed.

Lemma insertByDate_sorted (b : bucket Event) (l : list (bucket Event)) :
  StronglySorted (fun a c => date a <= date c) l ->
  StronglySorted (fun a c => date a <= date c) (insertByDate b l).
Proof.
  induction 1 as [|y l Hs IH Hall]; simpl.
  - constructor; constructor.
  - destruct (Z.leb_spec (date b) (date y)) as [Hle|Hgt].
    + constructor; [now constructor|].
      constructor; [exact Hle|].
      rewrite Forall_forall in Hall |- *. intros c Hc.
      specialize (Hall c Hc). simpl in Hall. lia.
    + constructor; [exact IH|].
      rewrite Forall_forall in Hall |- *. intros c Hc.
      apply In_insertByDate in Hc. destruct Hc as [->|Hc]; [lia|].
      now apply Hall.
Qed.

Lemma sortByDate_sorted (l : list (bucket Event)) :
  StronglySorted (fun a c => date a <= date c) (sortByDate l).
Proof.
  induction l as [|y l IH]; simpl; [constructor|].
  now apply insertByDate_sorted.
Qed.

(** A list sorted by date whose dates are distinct is strictly sorted. *)
Lemma sorted_distinct_strict (l : list (bucket Event)) :
  StronglySorted (fun a c => date a <= date c) l ->
  NoDup (map date l) ->
  StronglySorted Z.lt (map date l).
Proof.
  induction 1 as [|y l Hs IH Hall]; simpl; intros Hnd; [constructor|].
  inversion Hnd as [|? ? Hnot Hnd']; subst.
  constructor; [now apply IH|].
  rewrite Forall_forall in Hall |- *. intros d Hd.
  apply in_map_iff in Hd. destruct Hd as (c & <- & Hc).
  specialize (Hall c Hc). simpl in Hall.
  assert (date y <> date c).
  { intros Heq. apply Hnot. rewrite Heq. now apply in_map. }
  lia.
Qed.

End SortingFacts.

(** Two strictly ascending lists with the same elements are equal. *)
Lemma strictly_sorted_ext (l k : list Z) :
  StronglySorted Z.lt l -> StronglySorted Z.lt k ->
  (forall z, In z l <-> In z k) -> l = k.
Proof.
  intros Hl. revert k. induction Hl as [|a l Hl IH Ha]; intros k Hk Hext.
  - destruct k as [|b k]; [reflexivity|].
    exfalso. apply (proj2 (Hext b)). now left.
  - destruct Hk as [|b k Hk Hb].
    + exfalso. apply (proj1 (Hext a)). now left.
    + rewrite Forall_forall in Ha, Hb.
      assert (Hab : a = b).
      { destruct (proj1 (Hext a) (or_introl eq_refl)) as [Heq|Hin];
          [congruence|].
        destruct (proj2 (Hext b) (or_introl eq_refl)) as [Heq|Hin'];
          [congruence|].
        specialize (Ha b Hin'). specialize (Hb a Hin). lia. }
      subst b. f_equal. apply IH; [exact Hk|].
      intros z. split; intros Hz.
      * destruct (proj1 (Hext z) (or_intror Hz)) as [Heq|Hin]; [|exact Hin].
        subst z. specialize (Ha a Hz). lia.
      * destruct (proj2 (Hext z) (or_intror Hz)) as [Heq|Hin]; [|exact Hin].
        subst z. specialize (Hb a Hz). lia.
Qed.

Lemma Permutation_filter_length {A : Type} (f : A -> bool) (l k : list A) :
  Permutation l k -> List.length (filter f l) = List.length (filter f k).
Proof.
  induction 1 as [|x l k _ IH|x y l|l k j _ IH1 _ IH2]; simpl.
  - reflexivity.
  - destruct (f x); simpl; congruence.
  - destruct (f x), (f y); reflexivity.
  - congruence.
Qed.

Section AggregateFacts.

Import Heatmap.

Context {Event : Type}.
Variable xScale : D3.scale.
Variable dropDate : Event -> value.
Variable timeInterval : interval.

Lemma values_dates (s e : Z) (m : @bucketMap Event) (p : list Event) :
  routed dropDate timeInterval s e m p ->
  map date (values m) = map fst m.
Proof.
  intros (_ & Hb & _). unfold values. rewrite map_map.
  apply map_ext_in. intros [k b] Hin. simpl. now apply (Hb k b).
Qed.

(** The result of [aggregateEvents] on a validated domain: the sorted
    values of a map that routes the supplied events and holds no empty
    bucket. *)
Lemma aggregateEvents_routed (items : list Event) (s e : Z) :
  validateDomain (domain xScale) = Some (DomainInfo s e) ->
  exists m,
    routed dropDate timeInterval s e m items
    /\ populated m
    /\ aggregateEvents xScale dropDate (Array items) timeInterval
       = sortByDate (values m).
Proof.
  intros Hvalid. unfold aggregateEvents. rewrite Hvalid. cbv zeta.
  cbn [start end_].
  eexists. split; [|split; [|reflexivity]].
  - apply (routed_fold dropDate timeInterval s e items [] []).
    apply routed_nil.
  - apply populated_fold. constructor.
Qed.

Lemma aggregateEvents_not_array (events : data Event) :
  (forall items, events <> Array items) ->
  aggregateEvents xScale dropDate events timeInterval = [].
Proof.
  intros Hnot. unfold aggregateEvents.
  destruct (validateDomain (domain xScale)); [|reflexivity].
  destruct events as [| |items]; try reflexivity.
  now elim (Hnot items).
Qed.

Lemma aggregateEvents_bucket (items : list Event) (s e : Z)
    (b : bucket Event) :
  validateDomain (domain xScale) = Some (DomainInfo s e) ->
  In b (aggregateEvents xScale dropDate (Array items) timeInterval) ->
  events b = filter (inBucket dropDate timeInterval s e (date b)) items
  /\ Heatmap.count b = Z.of_nat (List.length (events b))
  /\ 1 <= Heatmap.count b.
Proof.
  intros Hvalid Hin.
  destruct (aggregateEvents_routed items s e Hvalid)
    as (m & (Hnd & Hb & Hc) & Hpop & Heq).
  rewrite Heq in Hin. apply (proj1 (In_sortByDate b (values m))) in Hin.
  unfold values in Hin. apply in_map_iff in Hin.
  destruct Hin as ([k b'] & Hsnd & Hin). simpl in Hsnd. subst b'.
  destruct (Hb k b Hin) as (Hd & He & Hn). rewrite Hd.
  split; [exact He|]. split; [exact Hn|].
  unfold populated in Hpop. rewrite Forall_forall in Hpop.
  apply (Hpop (k, b) Hin).
Qed.

Lemma aggregateEvents_dates (items : list Event) (s e k : Z) :
  validateDomain (domain xScale) = Some (DomainInfo s e) ->
  (In k (map date (aggregateEvents xScale dropDate (Array items) timeInterval))
   <-> exists ev, In ev items
                  /\ bucketOf dropDate timeInterval s e ev = Some k).
Proof.
  intros Hvalid. split.
  - intros Hin. apply in_map_iff in Hin. destruct Hin as (b & <- & Hin).
    destruct (aggregateEvents_bucket items s e b Hvalid Hin)
      as (He & Hn & Hpos).
    destruct (events b) as [|ev l] eqn:Hev; [simpl in Hn; lia|].
    assert (Hf : In ev (filter (inBucket dropDate timeInterval s e (date b))
                          items)) by (rewrite <- He; now left).
    apply filter_In in Hf. destruct Hf as [Hitems Hk].
    exists ev. split; [exact Hitems|].
    now apply inBucket_bucketOf.
  - intros (ev & Hitems & Hk).
    destruct (aggregateEvents_routed items s e Hvalid)
      as (m & Hr & Hpop & Heq).
    rewrite Heq.
    apply (Permutation_in k
             (Permutation_map date (Permutation_sortByDate (values m)))).
    rewrite (values_dates s e m items Hr).
    destruct Hr as (_ & _ & Hc). now apply (Hc ev).
Qed.

Lemma aggregateEvents_strictly_sorted (events : data Event) :
  StronglySorted Z.lt
    (map date (aggregateEvents xScale dropDate events timeInterval)).
Proof.
  destruct events as [| |items];
    try (rewrite aggregateEvents_not_array by discriminate; constructor).
  destruct (validateDomain (domain xScale)) as [[s e]|] eqn:Hvalid.
  - destruct (aggregateEvents_routed items s e Hvalid)
      as (m & Hr & Hpop & Heq).
    rewrite Heq. apply sorted_distinct_strict; [apply sortByDate_sorted|].
    apply (Permutation_NoDup
             (Permutation_map date (Permutation_sortByDate (values m)))).
    rewrite (values_dates s e m items Hr). apply Hr.
  - unfold aggregateEvents. rewrite Hvalid. constructor.
Qed.

Lemma bucketOf_Some (s e k : Z) (ev : Event) :
  bucketOf dropDate timeInterval s e ev = Some k ->
  exists t,
    dropDate ev = Date (Some t)
    /\ s <= t < e
    /\ floor timeInterval t = k
    /\ floor timeInterval s <= k <= ceil timeInterval e.
Proof.
  unfold bucketOf, instantInDomain. cbv zeta.
  destruct (dropDate ev) as [[t|]|]; simpl; try discriminate.
  destruct (Z.ltb_spec t s) as [Hs|Hs];
    destruct (Z.geb_spec t e) as [He|He]; simpl; try discriminate.
  destruct (Z.geb_spec (floor timeInterval t) (floor timeInterval s))
    as [Hlo|Hlo];
    destruct (Z.leb_spec (floor timeInterval t) (ceil timeInterval e))
      as [Hhi|Hhi]; simpl; try discriminate.
  intros Heq. injection Heq as <-. exists t. repeat split; lia.
Qed.

Lemma bucketed_lawful (s e : Z) (ev : Event) :
  lawful timeInterval ->
  bucketed dropDate timeInterval s e ev
  = validInstantWithin s e (dropDate ev).
Proof.
  intros Hlaw. rewrite (instantInDomain_validInstantWithin dropDate s e).
  unfold bucketed, bucketOf.
  destruct (instantInDomain dropDate s e ev) as [t|] eqn:Hin; [|reflexivity].
  cbv zeta. now rewrite (envelope_test_passes dropDate timeInterval s e ev t).
Qed.

Lemma concat_addTo (m : @bucketMap Event) (key : Z) (ev : Event) :
  has m key = true ->
  Permutation (List.concat (map events (values (addTo m key ev))))
    (List.concat (map events (values m)) ++ [ev]).
Proof.
  induction m as [|[k b] m IH]; simpl; [discriminate|].
  destruct (k =? key); simpl; intros Hhas.
  - rewrite <- !app_assoc. apply Permutation_app_head.
    apply Permutation_app_comm.
  - rewrite <- app_assoc. apply Permutation_app_head. now apply IH.
Qed.

Lemma concat_set_empty (m : @bucketMap Event) (key d : Z) :
  List.concat (map events (values (set m key (Bucket d 0 []))))
  = List.concat (map events (values m)).
Proof.
  unfold set, values. rewrite !map_app, concat_app. simpl.
  now rewrite app_nil_r.
Qed.

Lemma gathered_fold (s e : Z) (items : list Event) :
  forall (m : @bucketMap Event) (p : list Event),
    Permutation (List.concat (map events (values m)))
      (filter (bucketed dropDate timeInterval s e) p) ->
    Permutation
      (List.concat (map events (values
         (fold_left
            (addEvent dropDate timeInterval s e (floor timeInterval s)
               (ceil timeInterval e)) items m))))
      (filter (bucketed dropDate timeInterval s e) (p ++ items)).
Proof.
  induction items as [|ev items IH]; intros m p Hg; simpl.
  - now rewrite app_nil_r.
  - replace (p ++ ev :: items)%list with ((p ++ [ev]) ++ items)%list
      by (rewrite <- app_assoc; reflexivity).
    apply IH. rewrite addEvent_bucketOf, filter_snoc. unfold bucketed at 2.
    destruct (bucketOf dropDate timeInterval s e ev) as [key|].
    + destruct (has m key) eqn:Hhas.
      * rewrite concat_addTo by exact Hhas. now apply Permutation_app_tail.
      * rewrite concat_addTo by apply has_set.
        rewrite concat_set_empty. now apply Permutation_app_tail.
    + now rewrite app_nil_r.
Qed.

Lemma aggregateEvents_gathered (items : list Event) (s e : Z) :
  validateDomain (domain xScale) = Some (DomainInfo s e) ->
  Permutation
    (List.concat (map events
       (aggregateEvents xScale dropDate (Array items) timeInterval)))
    (filter (bucketed dropDate timeInterval s e) items).
Proof.
  intros Hvalid. unfold aggregateEvents. rewrite Hvalid. cbv zeta.
  cbn [start end_].
  rewrite <- !flat_map_concat_map.
  rewrite <- (Permutation_sortByDate (values _)).
  rewrite flat_map_concat_map.
  apply (gathered_fold s e items [] []). constructor.
Qed.

End AggregateFacts.

(** ** Further properties of the aggregation *)

(** X1: the buckets returned by [aggregateEvents] are in strictly
    ascending order of their start, whatever the arguments: no two buckets
    share a start. *)
Theorem aggregateEvents_dates_strictly_ascending :
  forall (Event : Type) (xScale : D3.scale) (dropDate : Event -> value)
         (events : Heatmap.data Event) (timeInterval : interval),
    StronglySorted Z.lt
      (map Heatmap.date
         (Heatmap.aggregateEvents xScale dropDate events timeInterval)).
Proof.
  intros. apply aggregateEvents_strictly_sorted.
Qed.

(** X2: on a validated domain every returned bucket holds exactly the
    supplied events put in it, in the order they were supplied; its count
    is the number of these events and is at least 1. *)
Theorem aggregateEvents_bucket_members :
  forall (Event : Type) (xScale : D3.scale) (dropDate : Event -> value)
         (items : list Event) (timeInterval : interval) (s e : Z),
    twoValidBounds (domain xScale) s e ->
    forall b,
      In b (Heatmap.aggregateEvents xScale dropDate (Heatmap.Array items)
              timeInterval) ->
      Heatmap.events b
      = filter (inBucket dropDate timeInterval s e (Heatmap.date b)) items
      /\ Heatmap.count b = Z.of_nat (List.length (Heatmap.events b))
      /\ 1 <= Heatmap.count b.
Proof.
  intros Event xScale dropDate items timeInterval s e Hvalid b Hin.
  apply validateDomain_Some in Hvalid.
  now apply (aggregateEvents_bucket xScale dropDate timeInterval items s e).
Qed.

Lemma aggregateEvents_bucket_members_witness :
  let b := Heatmap.Bucket (D3Utc.utc 2020 1 2) 2
             [ Date (Some (D3Utc.utc 2020 1 2 + 3600000));
               Date (Some (D3Utc.utc 2020 1 2)) ] in
  Heatmap.events b
  = filter (inBucket (fun v : value => v) D3Utc.timeDay
              (D3Utc.utc 2020 1 1) (D3Utc.utc 2020 1 8) (Heatmap.date b))
      weekEvents
  /\ Heatmap.count b = Z.of_nat (List.length (Heatmap.events b))
  /\ 1 <= Heatmap.count b.
Proof.
  apply (aggregateEvents_bucket_members value weekScale (fun v : value => v)
           weekEvents D3Utc.timeDay (D3Utc.utc 2020 1 1) (D3Utc.utc 2020 1 8)).
  - exists []. reflexivity.
  - vm_compute. left. reflexivity.
Defined.

(** X3: on a validated domain the start of every returned bucket lies in
    [[floor(domain.start), ceil(domain.end)]], and every member of the
    bucket has a valid instant within [[domain.start, domain.end)] whose
    floor is the bucket's start. *)
Theorem aggregateEvents_buckets_within_envelope :
  forall (Event : Type) (xScale : D3.scale) (dropDate : Event -> value)
         (items : list Event) (timeInterval : interval) (s e : Z),
    twoValidBounds (domain xScale) s e ->
    forall b,
      In b (Heatmap.aggregateEvents xScale dropDate (Heatmap.Array items)
              timeInterval) ->
      floor timeInterval s <= Heatmap.date b <= ceil timeInterval e
      /\ forall ev,
           In ev (Heatmap.events b) ->
           exists t,
             dropDate ev = Date (Some t)
             /\ s <= t < e
             /\ floor timeInterval t = Heatmap.date b.
Proof.
  intros Event xScale dropDate items timeInterval s e Hvalid b Hin.
  apply validateDomain_Some in Hvalid.
  destruct (aggregateEvents_bucket xScale dropDate timeInterval items s e b
              Hvalid Hin) as (He & Hn & Hpos).
  assert (Hmember : forall ev,
    In ev (Heatmap.events b) ->
    bucketOf dropDate timeInterval s e ev = Some (Heatmap.date b)).
  { intros ev Hev. rewrite He in Hev. apply filter_In in Hev.
    now apply inBucket_bucketOf. }
  split.
  - destruct (Heatmap.events b) as [|ev l]; [simpl in Hn; lia|].
    destruct (bucketOf_Some dropDate timeInterval s e _ ev
                (Hmember ev (or_introl eq_refl))) as (t & _ & _ & _ & H).
    exact H.
  - intros ev Hev.
    destruct (bucketOf_Some dropDate timeInterval s e _ ev (Hmember ev Hev))
      as (t & Ht & Hin' & Hfloor & _).
    exists t. tauto.
Qed.

Lemma aggregateEvents_buckets_within_envelope_witness :
  let b := Heatmap.Bucket (D3Utc.utc 2020 1 5) 1
             [ Date (Some (D3Utc.utc 2020 1 5 + 1)) ] in
  floor D3Utc.timeDay (D3Utc.utc 2020 1 1) <= Heatmap.date b
  <= ceil D3Utc.timeDay (D3Utc.utc 2020 1 8).
Proof.
  apply (aggregateEvents_buckets_within_envelope value weekScale
           (fun v : value => v) weekEvents D3Utc.timeDay
           (D3Utc.utc 2020 1 1) (D3Utc.utc 2020 1 8)).
  - exists []. reflexivity.
  - vm_compute. right. left. reflexivity.
Defined.

(** X4: on a validated domain, with an interval obeying d3's laws, the
    members of the returned buckets taken together are the supplied events
    whose instant is valid and within [[domain.start, domain.end)], each
    once: every such event is in exactly one bucket. *)
Theorem aggregateEvents_partitions_events :
  forall (Event : Type) (xScale : D3.scale) (dropDate : Event -> value)
         (items : list Event) (timeInterval : interval) (s e : Z),
    twoValidBounds (domain xScale) s e ->
    lawful timeInterval ->
    Permutation
      (List.concat
         (map Heatmap.events
            (Heatmap.aggregateEvents xScale dropDate (Heatmap.Array items)
               timeInterval)))
      (filter (fun ev => validInstantWithin s e (dropDate ev)) items).
Proof.
  intros Event xScale dropDate items timeInterval s e Hvalid Hlaw.
  apply validateDomain_Some in Hvalid.
  rewrite (aggregateEvents_gathered xScale dropDate timeInterval items s e
             Hvalid).
  erewrite filter_ext; [reflexivity|].
  intros ev. now apply bucketed_lawful.
Qed.

Lemma aggregateEvents_partitions_events_witness :
  Permutation
    (List.concat
       (map Heatmap.events
          (Heatmap.aggregateEvents weekScale (fun v : value => v)
             (Heatmap.Array weekEvents) D3Utc.timeDay)))
    (filter (fun ev => validInstantWithin (D3Utc.utc 2020 1 1)
                         (D3Utc.utc 2020 1 8) ev) weekEvents).
Proof.
  apply (aggregateEvents_partitions_events value weekScale
           (fun v : value => v) weekEvents D3Utc.timeDay
           (D3Utc.utc 2020 1 1) (D3Utc.utc 2020 1 8)).
  - exists []. reflexivity.
  - exact D3UtcFacts.timeDay_lawful.
Defined.

(** X5: on a validated domain, with an interval obeying d3's laws,
    [aggregateEvents] returns no bucket exactly when no supplied event has
    a valid instant within [[domain.start, domain.end)]. *)
Theorem aggregateEvents_empty_iff_no_event_within_domain :
  forall (Event : Type) (xScale : D3.scale) (dropDate : Event -> value)
         (items : list Event) (timeInterval : interval) (s e : Z),
    twoValidBounds (domain xScale) s e ->
    lawful timeInterval ->
    (Heatmap.aggregateEvents xScale dropDate (Heatmap.Array items)
       timeInterval = []
     <-> forall ev, In ev items ->
                    validInstantWithin s e (dropDate ev) = false).
Proof.
  intros Event xScale dropDate items timeInterval s e Hvalid Hlaw.
  apply validateDomain_Some in Hvalid.
  pose proof (aggregateEvents_gathered xScale dropDate timeInterval items s e
                Hvalid) as Hperm.
  split.
  - intros Hempty ev Hin. rewrite Hempty in Hperm. simpl in Hperm.
    apply Permutation_nil in Hperm.
    rewrite <- (bucketed_lawful dropDate timeInterval s e ev Hlaw).
    destruct (bucketed dropDate timeInterval s e ev) eqn:Hb; [|reflexivity].
    assert (Hf : In ev (filter (bucketed dropDate timeInterval s e) items))
      by (apply filter_In; tauto).
    rewrite Hperm in Hf. contradiction.
  - intros Hnone.
    destruct (Heatmap.aggregateEvents xScale dropDate (Heatmap.Array items)
                timeInterval) as [|b l] eqn:Hout; [reflexivity|].
    exfalso.
    destruct (aggregateEvents_bucket xScale dropDate timeInterval items s e b
                Hvalid) as (He & Hn & Hpos); [rewrite Hout; now left|].
    destruct (Heatmap.events b) as [|ev evs]; [simpl in Hn; lia|].
    assert (Hf : In ev (filter (inBucket dropDate timeInterval s e
                                  (Heatmap.date b)) items))
      by (rewrite <- He; now left).
    apply filter_In in Hf. destruct Hf as [Hitems Hk].
    specialize (Hnone ev Hitems).
    rewrite <- (bucketed_lawful dropDate timeInterval s e ev Hlaw) in Hnone.
    apply inBucket_bucketOf in Hk. unfold bucketed in Hnone.
    rewrite Hk in Hnone. discriminate.
Qed.

Lemma aggregateEvents_empty_iff_no_event_within_domain_witness :
  Heatmap.aggregateEvents weekScale (fun v : value => v)
    (Heatmap.Array [Date None; Other; Date (Some (D3Utc.utc 2020 1 8))])
    D3Utc.timeDay = [].
Proof.
  apply (aggregateEvents_empty_iff_no_event_within_domain value weekScale
           (fun v : value => v)
           [Date None; Other; Date (Some (D3Utc.utc 2020 1 8))]
           D3Utc.timeDay (D3Utc.utc 2020 1 1) (D3Utc.utc 2020 1 8)).
  - exists []. reflexivity.
  - exact D3UtcFacts.timeDay_lawful.
  - intros ev Hin. simpl in Hin.
    destruct Hin as [<-|[<-|[<-|[]]]]; reflexivity.
Defined.

(** X6: a domain whose two bounds are valid but whose end is not after
    its start passes the validation, yet [aggregateEvents] returns no
    bucket for it, whatever the events and the interval. *)
Theorem aggregateEvents_empty_for_reversed_domain :
  forall (Event : Type) (xScale : D3.scale) (dropDate : Event -> value)
         (events : Heatmap.data Event) (timeInterval : interval) (s e : Z),
    twoValidBounds (domain xScale) s e ->
    e <= s ->
    validateDomain (domain xScale) = Some (DomainInfo s e)
    /\ Heatmap.aggregateEvents xScale dropDate events timeInterval = [].
Proof.
  intros Event xScale dropDate events timeInterval s e Hvalid Hrev.
  apply validateDomain_Some in Hvalid. split; [exact Hvalid|].
  destruct events as [| |items];
    try (apply aggregateEvents_not_array; discriminate).
  destruct (Heatmap.aggregateEvents xScale dropDate (Heatmap.Array items)
              timeInterval) as [|b l] eqn:Hout; [reflexivity|].
  exfalso.
  destruct (aggregateEvents_bucket xScale dropDate timeInterval items s e b
              Hvalid) as (He & Hn & Hpos); [rewrite Hout; now left|].
  destruct (Heatmap.events b) as [|ev evs]; [simpl in Hn; lia|].
  assert (Hf : In ev (filter (inBucket dropDate timeInterval s e
                                (Heatmap.date b)) items))
    by (rewrite <- He; now left).
  apply filter_In in Hf. destruct Hf as [_ Hk].
  apply inBucket_bucketOf in Hk.
  destruct (bucketOf_Some dropDate timeInterval s e _ ev Hk)
    as (t & _ & Ht & _). lia.
Qed.

Lemma aggregateEvents_empty_for_reversed_domain_witness :
  validateDomain (domain reversedWeekScale)
  = Some (DomainInfo (D3Utc.utc 2020 1 8) (D3Utc.utc 2020 1 1))
  /\ Heatmap.aggregateEvents reversedWeekScale (fun v : value => v)
       (Heatmap.Array weekEvents) D3Utc.timeDay = [].
Proof.
  apply (aggregateEvents_empty_for_reversed_domain value reversedWeekScale
           (fun v : value => v) (Heatmap.Array weekEvents) D3Utc.timeDay
           (D3Utc.utc 2020 1 8) (D3Utc.utc 2020 1 1)).
  - exists []. reflexivity.
  - vm_compute. discriminate.
Defined.

(** X7: the starts and counts of the returned buckets do not depend on
    the order in which the events are supplied. *)
Theorem aggregateEvents_counts_order_independent :
  forall (Event : Type) (xScale : D3.scale) (dropDate : Event -> value)
         (items items' : list Event) (timeInterval : interval),
    Permutation items items' ->
    map (fun b => (Heatmap.date b, Heatmap.count b))
      (Heatmap.aggregateEvents xScale dropDate (Heatmap.Array items)
         timeInterval)
    = map (fun b => (Heatmap.date b, Heatmap.count b))
        (Heatmap.aggregateEvents xScale dropDate (Heatmap.Array items')
           timeInterval).
Proof.
  intros Event xScale dropDate items items' timeInterval Hperm.
  destruct (validateDomain (domain xScale)) as [[s e]|] eqn:Hvalid.
  2: { unfold Heatmap.aggregateEvents. rewrite Hvalid. reflexivity. }
  assert (Hshape : forall l,
    map (fun b => (Heatmap.date b, Heatmap.count b))
      (Heatmap.aggregateEvents xScale dropDate (Heatmap.Array l) timeInterval)
    = map (fun k =>
             (k, Z.of_nat (List.length
                             (filter (inBucket dropDate timeInterval s e k)
                                l))))
        (map Heatmap.date
           (Heatmap.aggregateEvents xScale dropDate (Heatmap.Array l)
              timeInterval))).
  { intros l. rewrite map_map. apply map_ext_in. intros b Hin.
    destruct (aggregateEvents_bucket xScale dropDate timeInterval l s e b
                Hvalid Hin) as (He & Hn & _).
    rewrite Hn, He. reflexivity. }
  rewrite (Hshape items), (Hshape items').
  assert (Hdates :
    map Heatmap.date
      (Heatmap.aggregateEvents xScale dropDate (Heatmap.Array items)
         timeInterval)
    = map Heatmap.date
        (Heatmap.aggregateEvents xScale dropDate (Heatmap.Array items')
           timeInterval)).
  { apply strictly_sorted_ext; try apply aggregateEvents_strictly_sorted.
    intros k.
    rewrite (aggregateEvents_dates xScale dropDate timeInterval items s e k
               Hvalid).
    rewrite (aggregateEvents_dates xScale dropDate timeInterval items' s e k
               Hvalid).
    split; intros (ev & Hin & Hk); exists ev; split; try exact Hk.
    - now apply (Permutation_in ev Hperm).
    - now apply (Permutation_in ev (Permutation_sym Hperm)). }
  rewrite Hdates. apply map_ext. intros k. f_equal. f_equal.
  now apply Permutation_filter_length.
Qed.

Lemma aggregateEvents_counts_order_independent_witness :
  map (fun b => (Heatmap.date b, Heatmap.count b))
    (Heatmap.aggregateEvents weekScale (fun v : value => v)
       (Heatmap.Array weekEvents) D3Utc.timeDay)
  = map (fun b => (Heatmap.date b, Heatmap.count b))
      (Heatmap.aggregateEvents weekScale (fun v : value => v)
         (Heatmap.Array (rev weekEvents)) D3Utc.timeDay).
Proof.
  apply (aggregateEvents_counts_order_independent value weekScale
           (fun v : value => v) weekEvents (rev weekEvents) D3Utc.timeDay).
  apply Permutation_rev.
Defined.

(** ** Further properties of the resolver *)

Lemma geb_days (duration n : Z) :
  Js.geb (inject_Z duration / inject_Z MS_PER_DAY) (n # 1)
  = (duration >=? n * 86400000).
Proof.
  apply eq_iff_eq_true. rewrite geb_true, Z.geb_le.
  unfold Qle, Qdiv, Qmult, Qinv, MS_PER_DAY, inject_Z. simpl. lia.
Qed.

Lemma geb_years (duration n : Z) :
  Js.geb (inject_Z duration / inject_Z MS_PER_DAY / (36525 # 100))
    (n # 1)
  = (duration >=? n * 31557600000).
Proof.
  apply eq_iff_eq_true. rewrite geb_true, Z.geb_le.
  unfold Qle, Qdiv, Qmult, Qinv, MS_PER_DAY, inject_Z. simpl. lia.
Qed.

Lemma detectTickScaleFromDuration_durationScale (duration : Z) :
  detectTickScaleFromDuration duration = durationScale duration.
Proof.
  unfold detectTickScaleFromDuration, durationScale. cbv zeta.
  rewrite (geb_years duration 1000), (geb_years duration 10).
  rewrite (geb_days duration 365), (geb_days duration 30).
  rewrite (geb_days duration 7), (geb_days duration 1).
  reflexivity.
Qed.

Lemma closestCandidate_zero (d : Z) (cs : list candidate) (best : string) :
  closestCandidate d cs best (Some 0) = best.
Proof.
  induction cs as [|c cs IH]; simpl; [reflexivity|].
  replace (Z.abs (expectedDuration c - d) <? 0) with false
    by (symmetry; apply Z.ltb_ge; lia).
  exact IH.
Qed.

(** When the first candidate is exact it is the one detected. *)
Lemma detect_first_exact (d3 : library) (tick1 tick2 : Z) (rest : list Z)
    (c : candidate) (cs : list candidate) :
  tickCandidates d3 tick1 tick2 = c :: cs ->
  expectedDuration c = tick2 - tick1 ->
  detectTickScaleFromTicks d3 (tick1 :: tick2 :: rest) = scale c.
Proof.
  intros Hcs Hexact. cbn [detectTickScaleFromTicks]. rewrite Hcs.
  cbn [closestCandidate]. rewrite Hexact, Z.sub_diag.
  apply closestCandidate_zero.
Qed.

Lemma hierarchyAt_In (k : Z) :
  0 <= k < HIERARCHY_LENGTH -> In (hierarchyAt k) TIMESCALE_HIERARCHY.
Proof.
  rewrite HIERARCHY_LENGTH_value. intros Hk.
  assert (Hcases : k = 0 \/ k = 1 \/ k = 2 \/ k = 3 \/ k = 4 \/ k = 5
                   \/ k = 6 \/ k = 7 \/ k = 8) by lia.
  repeat (destruct Hcases as [->|Hcases]; [simpl; tauto|]).
  subst k. simpl. tauto.
Qed.

Lemma indexOf_hierarchyAt (k : Z) :
  0 <= k < HIERARCHY_LENGTH ->
  indexOf TIMESCALE_HIERARCHY (hierarchyAt k) = k.
Proof.
  rewrite HIERARCHY_LENGTH_value. intros Hk.
  assert (Hcases : k = 0 \/ k = 1 \/ k = 2 \/ k = 3 \/ k = 4 \/ k = 5
                   \/ k = 6 \/ k = 7 \/ k = 8) by lia.
  repeat (destruct Hcases as [->|Hcases]; [reflexivity|]).
  subst k. reflexivity.
Qed.

Lemma startIndex_hierarchyAt (d3 : library) (xScale : D3.scale) (k : Z) :
  0 <= k < HIERARCHY_LENGTH -> startIndex d3 xScale (hierarchyAt k) = k.
Proof.
  intros Hk. unfold startIndex, refineStart. cbv zeta.
  rewrite (indexOf_hierarchyAt k Hk).
  replace (k =? -1) with false by (symmetry; apply Z.eqb_neq; lia).
  reflexivity.
Qed.

Section RefinementShape.

Variable d3 : library.
Variable xScale : D3.scale.

(** The shape of a refinement: the result is the granularity of some index
    [k] of the hierarchy, reached from the start index through the state
    [k1] left by the [minWidth] adjustment. *)
Lemma refineBucketScale_shape (bucketScale : string) (bs : bucketSize) :
  let i0 := startIndex d3 xScale bucketScale in
  0 <= i0 < HIERARCHY_LENGTH
  /\ exists k1 k,
       i0 <= k1 < HIERARCHY_LENGTH
       /\ 0 <= k < HIERARCHY_LENGTH
       /\ refineBucketScale d3 xScale bucketScale bs = hierarchyAt k
       /\ (* the minWidth adjustment *)
          match minWidth bs with
          | None => k1 = i0
          | Some m =>
              ((m <= widthAt d3 xScale i0)%Q /\ k1 = i0)
              \/ ((widthAt d3 xScale i0 < m)%Q
                  /\ (forall l, i0 <= l < k1 -> (widthAt d3 xScale l < m)%Q)
                  /\ ((m <= widthAt d3 xScale k1)%Q
                      \/ k1 = HIERARCHY_LENGTH - 1))
          end
       /\ (* the maxWidth adjustment *)
          match maxWidth bs with
          | None => k = k1
          | Some m =>
              ((widthAt d3 xScale k1 <= m)%Q /\ k = k1)
              \/ ((m < widthAt d3 xScale k1)%Q
                  /\ ((i0 = 0 /\ k = k1)
                      \/ (0 < i0 /\ k < i0
                          /\ (forall l, k < l < i0 ->
                                        (m < widthAt d3 xScale l)%Q)
                          /\ ((widthAt d3 xScale k <= m)%Q \/ k = 0))))
          end.
Proof.
  intros i0.
  destruct (refineStart_spec d3 xScale bucketScale) as (_ & Hi0 & _).
  fold i0 in Hi0. split; [exact Hi0|].
  rewrite refineBucketScale_unfold. fold i0.
  (* the minWidth adjustment *)
  assert (Hmin : exists k1,
    i0 <= k1 < HIERARCHY_LENGTH
    /\ adjustMinWidth d3 xScale bs i0 (hierarchyAt i0, widthAt d3 xScale i0)
       = (hierarchyAt k1, widthAt d3 xScale k1)
    /\ match minWidth bs with
       | None => k1 = i0
       | Some m =>
           ((m <= widthAt d3 xScale i0)%Q /\ k1 = i0)
           \/ ((widthAt d3 xScale i0 < m)%Q
               /\ (forall l, i0 <= l < k1 -> (widthAt d3 xScale l < m)%Q)
               /\ ((m <= widthAt d3 xScale k1)%Q
                   \/ k1 = HIERARCHY_LENGTH - 1))
       end).
  { unfold adjustMinWidth. destruct (minWidth bs) as [m|]; cbn [snd].
    2: { exists i0. split; [lia|]. split; reflexivity. }
    destruct (Js.ltb (widthAt d3 xScale i0) m) eqn:Hlt.
    - apply ltb_true in Hlt.
      destruct (widenLoop_spec d3 xScale m
                  (Z.to_nat (HIERARCHY_LENGTH - (i0 + 1))) (i0 + 1)
                  (hierarchyAt i0, widthAt d3 xScale i0)
                  ltac:(lia) ltac:(lia))
        as [(k & Hk & Hwk & Hbelow & Heq)|[Hall Heq]].
      + exists k. split; [lia|]. split; [exact Heq|]. right.
        split; [exact Hlt|]. split; [|now left].
        intros l Hl. destruct (Z.eq_dec l i0) as [->|Hne]; [exact Hlt|].
        apply Hbelow. lia.
      + exists (HIERARCHY_LENGTH - 1). split; [lia|]. split.
        * rewrite Heq.
          destruct (Z.to_nat (HIERARCHY_LENGTH - (i0 + 1))) eqn:Hn;
            [|reflexivity].
          replace (HIERARCHY_LENGTH - 1) with i0 by lia. reflexivity.
        * right. split; [exact Hlt|]. split; [|now right].
          intros l Hl. destruct (Z.eq_dec l i0) as [->|Hne]; [exact Hlt|].
          apply Hall. lia.
    - apply ltb_false in Hlt. exists i0. split; [lia|].
      split; [reflexivity|]. left. now split. }
  destruct Hmin as (k1 & Hk1 & Hst1 & Hmin). rewrite Hst1.
  exists k1.
  (* the maxWidth adjustment *)
  unfold adjustMaxWidth. destruct (maxWidth bs) as [m|]; cbn [snd].
  2: { exists k1. repeat split; try lia. exact Hmin. }
  destruct (Js.gtb (widthAt d3 xScale k1) m) eqn:Hgt.
  - apply gtb_true in Hgt.
    destruct (narrowLoop_spec d3 xScale m (Z.to_nat i0) (i0 - 1)
                (hierarchyAt k1, widthAt d3 xScale k1) ltac:(lia))
      as [(k & Hk & Hwk & Habove & Heq)|[Hall Heq]].
    + exists k. rewrite Heq. split; [lia|]. split; [lia|].
      split; [reflexivity|]. split; [exact Hmin|]. right.
      split; [exact Hgt|]. right. split; [lia|]. split; [lia|].
      split; [|now left]. intros l Hl. apply Habove. lia.
    + rewrite Heq. destruct (Z.to_nat i0) eqn:Hn.
      * exists k1. split; [lia|]. split; [lia|]. split; [reflexivity|].
        split; [exact Hmin|]. right. split; [exact Hgt|]. left. lia.
      * exists 0. split; [lia|]. split; [lia|]. split; [reflexivity|].
        split; [exact Hmin|]. right. split; [exact Hgt|]. right.
        split; [lia|]. split; [lia|]. split; [|now right].
        intros l Hl. apply Hall. lia.
  - apply gtb_false in Hgt. exists k1. split; [lia|]. split; [lia|].
    split; [reflexivity|]. split; [exact Hmin|]. left. now split.
Qed.

End RefinementShape.

(** X8: [detectTickScaleFromDuration] classifies a duration in
    milliseconds by the thresholds of [durationScale]; in particular every
    duration below one second, negative ones included, is
    ['milliseconds']. *)
Theorem detectTickScaleFromDuration_thresholds :
  forall (duration : Z),
    detectTickScaleFromDuration duration = durationScale duration
    /\ (duration < 1000 ->
        detectTickScaleFromDuration duration = "milliseconds").
Proof.
  intros duration.
  rewrite detectTickScaleFromDuration_durationScale. split; [reflexivity|].
  intros Hlt. unfold durationScale.
  repeat match goal with
  | |- context [duration >=? ?n] =>
      destruct (Z.geb_spec duration n); [lia|]
  end.
  reflexivity.
Qed.

Lemma detectTickScaleFromDuration_thresholds_witness :
  detectTickScaleFromDuration (-86400000) = "milliseconds".
Proof.
  apply (detectTickScaleFromDuration_thresholds (-86400000)). lia.
Defined.

(** X9: a longer duration never gives a finer granularity. *)
Theorem detectTickScaleFromDuration_monotone :
  forall (d1 d2 : Z),
    d1 <= d2 ->
    rank (detectTickScaleFromDuration d1)
    <= rank (detectTickScaleFromDuration d2).
Proof.
  intros d1 d2 Hle.
  rewrite !detectTickScaleFromDuration_durationScale. unfold durationScale.
  repeat match goal with
  | |- context [?d >=? ?n] => destruct (Z.geb_spec d n)
  end; try lia; vm_compute; intros Hgt; discriminate Hgt.
Qed.

Lemma detectTickScaleFromDuration_monotone_witness :
  rank (detectTickScaleFromDuration 3600000)
  <= rank (detectTickScaleFromDuration 86400000).
Proof.
  apply (detectTickScaleFromDuration_monotone 3600000 86400000). lia.
Defined.

(** X10: the granularity detected from two ticks is that of the first
    candidate, in the order of enumeration, whose expected duration equals
    the observed spacing exactly; the candidates before it all differ from
    the spacing. *)
Theorem detectTickScaleFromTicks_first_exact_candidate :
  forall (d3 : library) (tick1 tick2 : Z) (rest : list Z),
    exists pre c post,
      tickCandidates d3 tick1 tick2 = (pre ++ c :: post)%list
      /\ detectTickScaleFromTicks d3 (tick1 :: tick2 :: rest) = scale c
      /\ expectedDuration c = tick2 - tick1
      /\ forall c', In c' pre -> expectedDuration c' <> tick2 - tick1.
Proof.
  intros d3 tick1 tick2 rest.
  destruct (detectTickScaleFromTicks_firstClosest d3 tick1 tick2 rest)
    as (c & (pre & post & Hcs & Hpre & Hpost) & Hres).
  destruct (tickCandidates_fallback d3 tick1 tick2) as [init Hinit].
  assert (Hzero : difference (tick2 - tick1) c = 0).
  { assert (Hms : In (Candidate "milliseconds" (tick2 - tick1) 1)
                     (pre ++ c :: post)).
    { rewrite <- Hcs, Hinit. apply in_or_app. right. now left. }
    assert (Hd0 : difference (tick2 - tick1)
                    (Candidate "milliseconds" (tick2 - tick1) 1) = 0)
      by (unfold difference; simpl; rewrite Z.sub_diag; reflexivity).
    unfold difference in *.
    apply in_app_or in Hms. destruct Hms as [Hin|[Heq|Hin]].
    - specialize (Hpre _ Hin). rewrite Hd0 in Hpre. lia.
    - rewrite Heq. exact Hd0.
    - specialize (Hpost _ Hin). rewrite Hd0 in Hpost. lia. }
  exists pre, c, post. split; [exact Hcs|]. split; [exact Hres|].
  unfold difference in *. split; [lia|].
  intros c' Hin Heq. specialize (Hpre c' Hin). rewrite Heq in Hpre.
  rewrite Z.sub_diag in Hpre. simpl in Hpre. lia.
Qed.

(** X11: two ticks that are a whole number [n] of calendar years apart
    (their year count is [n] and advancing the first by [n] years gives
    the second) are detected as ['years'] when [1 <= n < 10], as
    ['decades'] when [10 <= n < 1000] and as ['millennium'] when
    [1000 <= n]. *)
Theorem detectTickScaleFromTicks_whole_years :
  forall (d3 : library) (tick1 tick2 n : Z) (rest : list Z),
    D3.count (timeYear d3) tick1 tick2 = n ->
    offset (timeYear d3) tick1 n = tick2 ->
    (1 <= n < 10 ->
     detectTickScaleFromTicks d3 (tick1 :: tick2 :: rest) = "years")
    /\ (10 <= n < 1000 ->
        detectTickScaleFromTicks d3 (tick1 :: tick2 :: rest) = "decades")
    /\ (1000 <= n ->
        detectTickScaleFromTicks d3 (tick1 :: tick2 :: rest) = "millennium").
Proof.
  intros d3 tick1 tick2 n rest Hcount Hoffset.
  assert (Hhead : forall c0 tail,
    tickCandidates d3 tick1 tick2 = c0 :: tail ->
    expectedDuration c0 = tick2 - tick1 ->
    detectTickScaleFromTicks d3 (tick1 :: tick2 :: rest) = scale c0).
  { intros c0 tail. apply detect_first_exact. }
  unfold tickCandidates in Hhead. cbv zeta in Hhead.
  rewrite Hcount, Hoffset in Hhead.
  split; [|split]; intros Hn.
  - replace (n >=? 1000) with false in Hhead
      by (symmetry; rewrite Z.geb_leb; apply Z.leb_gt; lia).
    replace (n >=? 10) with false in Hhead
      by (symmetry; rewrite Z.geb_leb; apply Z.leb_gt; lia).
    replace (n >=? 1) with true in Hhead
      by (symmetry; apply Z.geb_le; lia).
    exact (Hhead _ _ eq_refl eq_refl).
  - replace (n >=? 1000) with false in Hhead
      by (symmetry; rewrite Z.geb_leb; apply Z.leb_gt; lia).
    replace (n >=? 10) with true in Hhead
      by (symmetry; apply Z.geb_le; lia).
    exact (Hhead _ _ eq_refl eq_refl).
  - replace (n >=? 1000) with true in Hhead
      by (symmetry; apply Z.geb_le; lia).
    exact (Hhead _ _ eq_refl eq_refl).
Qed.

Lemma detectTickScaleFromTicks_whole_years_witness :
  detectTickScaleFromTicks D3Utc.d3
    [D3Utc.utc 2000 1 1; D3Utc.utc 2015 1 1] = "decades".
Proof.
  apply (detectTickScaleFromTicks_whole_years D3Utc.d3
           (D3Utc.utc 2000 1 1) (D3Utc.utc 2015 1 1) 15 []).
  - vm_compute. reflexivity.
  - vm_compute. reflexivity.
  - lia.
Defined.

(** X12: whatever string and constraints it is given, [refineBucketScale]
    returns a granularity of [TIMESCALE_HIERARCHY]; a string outside the
    hierarchy, such as ['millennium'], is refined from ['days']. *)
Theorem refineBucketScale_in_hierarchy :
  forall (d3 : library) (xScale : D3.scale) (bucketScale : string)
         (bs : bucketSize),
    In (refineBucketScale d3 xScale bucketScale bs) TIMESCALE_HIERARCHY
    /\ (~ In bucketScale TIMESCALE_HIERARCHY ->
        refineBucketScale d3 xScale bucketScale bs
        = refineBucketScale d3 xScale "days" bs).
Proof.
  intros d3 xScale bucketScale bs. split.
  - destruct (refineBucketScale_shape d3 xScale bucketScale bs)
      as (_ & k1 & k & _ & Hk & -> & _).
    now apply hierarchyAt_In.
  - intros Hout. rewrite !refineBucketScale_unfold.
    destruct (refineStart_spec d3 xScale bucketScale) as (_ & Hi0 & _ & Hd).
    specialize (Hd Hout).
    assert (Heq : startIndex d3 xScale bucketScale
                  = startIndex d3 xScale "days").
    { rewrite <- (indexOf_hierarchyAt _ Hi0), Hd. reflexivity. }
    rewrite Heq. reflexivity.
Qed.

Lemma refineBucketScale_in_hierarchy_witness :
  refineBucketScale D3Utc.d3 thirtyDaysScale "millennium"
    (BucketSize (Some 50%Q) None)
  = refineBucketScale D3Utc.d3 thirtyDaysScale "days"
      (BucketSize (Some 50%Q) None).
Proof.
  apply (refineBucketScale_in_hierarchy D3Utc.d3 thirtyDaysScale
           "millennium" (BucketSize (Some 50%Q) None)).
  simpl. intros H.
  repeat (destruct H as [H|H]; [discriminate H|]). exact H.
Defined.

(** X13: [getTimeScale] always returns a granularity of
    [TIMESCALE_HIERARCHY], never ['millennium'] nor any other string,
    whatever the domain, the ticks and the constraints. *)
Theorem getTimeScale_in_hierarchy :
  forall (d3 : library) (xScale : D3.scale)
         (numberDisplayedTicks : option (list (string * Z)))
         (breakpointLabel : option string)
         (bucketSize : option bucketSize),
    In (getTimeScale d3 xScale numberDisplayedTicks breakpointLabel
          bucketSize)
       TIMESCALE_HIERARCHY.
Proof.
  intros d3 xScale ndt label bucketSize. unfold getTimeScale.
  destruct (validateDomain (domain xScale)) as [info|]; [|simpl; tauto].
  destruct (lookup_BUCKET_SCALE_MAP_defined _
              (tickScale_range d3 xScale info ndt label))
    as (bucketScale & -> & Hin).
  destruct (refineBucketScale_shape d3 xScale bucketScale
              (match bucketSize with
               | Some bs => bs
               | None => BucketSize None None
               end)) as (_ & k1 & k & _ & Hk & Hr & _).
  destruct bucketSize as [[minW maxW]|]; [|exact Hin].
  cbn [minWidth maxWidth] in *.
  destruct minW, maxW; try exact Hin;
    rewrite Hr; now apply hierarchyAt_In.
Qed.

(** X14: on a validated domain and without size constraints,
    [shouldUseHeatmap] is true exactly when the detected tick granularity
    is coarser than days. *)
Theorem shouldUseHeatmap_iff_ticks_coarser_than_days :
  forall (d3 : library) (xScale : D3.scale)
         (numberDisplayedTicks : option (list (string * Z)))
         (breakpointLabel : option string) (s e : Z),
    twoValidBounds (domain xScale) s e ->
    (shouldUseHeatmap d3 xScale numberDisplayedTicks breakpointLabel None
     = true
     <-> In (tickScale d3 xScale (DomainInfo s e) numberDisplayedTicks
               breakpointLabel)
            COARSER_THAN_DAYS).
Proof.
  intros d3 xScale ndt label s e Hvalid.
  apply validateDomain_Some in Hvalid.
  unfold shouldUseHeatmap, getTimeScale. rewrite Hvalid.
  cbn [isValidDate instanceofDate getTime negb orb andb start end_].
  pose proof (tickScale_range d3 xScale (DomainInfo s e) ndt label) as Hr.
  destruct Hr as [<-|[<-|[<-|[<-|[<-|[<-|[<-|[<-|[<-|[<-|[]]]]]]]]]]];
    vm_compute; split; intros H; try discriminate H; try reflexivity;
    try tauto;
    repeat (destruct H as [H|H]; [discriminate H|]); contradiction.
Qed.

Lemma shouldUseHeatmap_iff_ticks_coarser_than_days_witness :
  shouldUseHeatmap D3Utc.d3 yearlyTicksScale None None None = true.
Proof.
  apply (shouldUseHeatmap_iff_ticks_coarser_than_days D3Utc.d3
           yearlyTicksScale None None
           (D3Utc.utc 2020 1 1) (D3Utc.utc 2025 1 1)).
  - exists []. reflexivity.
  - vm_compute. tauto.
Defined.

(** X15: with only [minWidth] set the refined granularity is never finer
    than the one the walk starts from, and with only [maxWidth] set it is
    never coarser. *)
Theorem refineBucketScale_direction :
  forall (d3 : library) (xScale : D3.scale) (bucketScale : string)
         (bs : bucketSize),
    (maxWidth bs = None ->
     startIndex d3 xScale bucketScale
     <= indexOf TIMESCALE_HIERARCHY
          (refineBucketScale d3 xScale bucketScale bs))
    /\ (minWidth bs = None ->
        indexOf TIMESCALE_HIERARCHY
          (refineBucketScale d3 xScale bucketScale bs)
        <= startIndex d3 xScale bucketScale).
Proof.
  intros d3 xScale bucketScale bs.
  destruct (refineBucketScale_shape d3 xScale bucketScale bs)
    as (Hi0 & k1 & k & Hk1 & Hk & -> & Hmin & Hmax).
  rewrite (indexOf_hierarchyAt k Hk). split.
  - intros Hnone. rewrite Hnone in Hmax. lia.
  - intros Hnone. rewrite Hnone in Hmin. subst k1.
    destruct (maxWidth bs) as [m|]; [|lia].
    destruct Hmax as [[_ ->]|[_ [[_ ->]|(_ & Hlt & _)]]]; lia.
Qed.

Lemma refineBucketScale_direction_witness :
  startIndex D3Utc.d3 thirtyDaysScale "days"
  <= indexOf TIMESCALE_HIERARCHY
       (refineBucketScale D3Utc.d3 thirtyDaysScale "days"
          (BucketSize (Some 50%Q) None)).
Proof.
  apply (refineBucketScale_direction D3Utc.d3 thirtyDaysScale "days"
           (BucketSize (Some 50%Q) None)).
  reflexivity.
Defined.

(** X16: with a single constraint set, refining again changes nothing:
    the refined granularity is a fixed point of the refinement. *)
Theorem refineBucketScale_idempotent_single_constraint :
  forall (d3 : library) (xScale : D3.scale) (bucketScale : string)
         (bs : bucketSize),
    minWidth bs = None \/ maxWidth bs = None ->
    refineBucketScale d3 xScale
      (refineBucketScale d3 xScale bucketScale bs) bs
    = refineBucketScale d3 xScale bucketScale bs.
Proof.
  intros d3 xScale bucketScale bs Hsingle.
  destruct (refineBucketScale_shape d3 xScale bucketScale bs)
    as (Hi0 & k1 & k & Hk1 & Hk & Hr & Hmin & Hmax).
  rewrite Hr.
  destruct (refineBucketScale_shape d3 xScale (hierarchyAt k) bs)
    as (_ & j1 & j & Hj1 & Hj & Hr' & Hmin' & Hmax').
  rewrite (startIndex_hierarchyAt d3 xScale k Hk) in *.
  rewrite Hr'. f_equal.
  destruct Hsingle as [Hnone|Hnone].
  - (* only maxWidth *)
    rewrite Hnone in Hmin, Hmin'. subst k1 j1.
    destruct (maxWidth bs) as [m|]; [|lia].
    destruct Hmax' as [[_ ->]|[Hwide [[_ ->]|(Hpos & Hlt & _)]]];
      try reflexivity.
    exfalso.
    destruct Hmax as [[Hfit ->]|[_ [[Hz ->]|(_ & _ & _ & [Hfit|Hz])]]].
    + now apply Qlt_not_le in Hwide.
    + lia.
    + now apply Qlt_not_le in Hwide.
    + lia.
  - (* only minWidth *)
    rewrite Hnone in Hmax, Hmax'. subst k j.
    destruct (minWidth bs) as [m|]; [|lia].
    destruct Hmin' as [[_ ->]|(Hnarrow & _ & Hj1w)]; [reflexivity|].
    destruct Hmin as [[Hfit ->]|(_ & _ & [Hfit|Hlast])].
    + now apply Qlt_not_le in Hnarrow.
    + now apply Qlt_not_le in Hnarrow.
    + lia.
Qed.

Lemma refineBucketScale_idempotent_single_constraint_witness :
  refineBucketScale D3Utc.d3 thirtyDaysScale
    (refineBucketScale D3Utc.d3 thirtyDaysScale "days"
       (BucketSize (Some 50%Q) None))
    (BucketSize (Some 50%Q) None)
  = refineBucketScale D3Utc.d3 thirtyDaysScale "days"
      (BucketSize (Some 50%Q) None).
Proof.
  apply (refineBucketScale_idempotent_single_constraint D3Utc.d3
           thirtyDaysScale "days" (BucketSize (Some 50%Q) None)).
  right. reflexivity.
Defined.

(** With both constraints set the refinement need not be a fixed point:
    from ['days'] with [minWidth = 50] and [maxWidth = 60] it gives
    ['hours'], and from ['hours'] it gives ['minutes']. *)
Example refineBucketScale_not_idempotent_with_both :
  let bs := BucketSize (Some 50%Q) (Some 60%Q) in
  refineBucketScale D3Utc.d3 thirtyDaysScale "days" bs = "hours"
  /\ refineBucketScale D3Utc.d3 thirtyDaysScale "hours" bs = "minutes".
Proof. split; vm_compute; reflexivity. Qed.

(** With both constraints set the walk towards finer granularities starts
    below the initial granularity: from ['milliseconds'] with
    [minWidth = 50] and [maxWidth = 60] the result is ['weeks'], 70px
    wide. *)
Example refineBucketScale_from_milliseconds :
  refineBucketScale D3Utc.d3 thirtyDaysScale "milliseconds"
    (BucketSize (Some 50%Q) (Some 60%Q))
  = "weeks"
  /\ (60 < calculateBucketWidth D3Utc.d3 thirtyDaysScale "weeks")%Q.
Proof. split; vm_compute; reflexivity. Qed.

(** X17: when the bucket widths grow with the granularity and some
    granularity of the hierarchy meets both constraints, the refined
    granularity meets both. *)
Theorem refineBucketScale_meets_both_when_possible :
  forall (d3 : library) (xScale : D3.scale) (bucketScale : string)
         (bs : bucketSize) (mn mx : Q) (g : Z),
    widthsGrow d3 xScale ->
    minWidth bs = Some mn ->
    maxWidth bs = Some mx ->
    0 <= g < HIERARCHY_LENGTH ->
    (mn <= widthAt d3 xScale g)%Q ->
    (widthAt d3 xScale g <= mx)%Q ->
    let r := refineBucketScale d3 xScale bucketScale bs in
    (mn <= calculateBucketWidth d3 xScale r)%Q
    /\ (calculateBucketWidth d3 xScale r <= mx)%Q.
Proof.
  intros d3 xScale bucketScale bs mn mx g Hgrow Hmn Hmx Hg Hgmin Hgmax r.
  subst r.
  destruct (refineBucketScale_shape d3 xScale bucketScale bs)
    as (Hi0 & k1 & k & Hk1 & Hk & -> & Hmin & Hmax).
  rewrite Hmn in Hmin. rewrite Hmx in Hmax.
  fold (widthAt d3 xScale k).
  (* the granularity [g] bounds the walks *)
  assert (Hlt_index : forall a b,
    0 <= a < HIERARCHY_LENGTH -> 0 <= b < HIERARCHY_LENGTH ->
    (widthAt d3 xScale a < widthAt d3 xScale b)%Q -> a < b).
  { intros a b Ha Hb Hlt.
    destruct (Z.lt_ge_cases a b) as [Hab|Hab]; [exact Hab|].
    exfalso. apply (Qlt_not_le _ _ Hlt). apply Hgrow; lia. }
  destruct Hmin as [[Hfit0 ->]|(Hnarrow0 & Hbelow & Hk1w)].
  - (* the start is wide enough *)
    destruct Hmax as [[Hfit ->]|[Hwide [[Hz ->]|(Hpos & Hlt & Habove & Hkw)]]].
    + now split.
    + (* start index 0 and too wide: [g] would have to be below 0 *)
      exfalso.
      assert (g < startIndex d3 xScale bucketScale).
      { apply Hlt_index; try lia.
        apply Qle_lt_trans with (y := mx); assumption. }
      lia.
    + assert (Hgi0 : g < startIndex d3 xScale bucketScale).
      { apply Hlt_index; try lia.
        apply Qle_lt_trans with (y := mx); assumption. }
      assert (Hgk : g <= k).
      { destruct (Z.lt_ge_cases k g) as [Hkg|Hkg]; [|exact Hkg].
        exfalso. specialize (Habove g ltac:(lia)).
        now apply Qlt_not_le in Habove. }
      assert (Hfitk : (widthAt d3 xScale k <= mx)%Q).
      { destruct Hkw as [Hkw| ->]; [exact Hkw|].
        replace g with 0 in Hgmax by lia. exact Hgmax. }
      split; [|exact Hfitk].
      apply Qle_trans with (y := widthAt d3 xScale g); [exact Hgmin|].
      apply Hgrow; lia.
  - (* the start is too narrow: [g] is coarser *)
    assert (Hgi0 : startIndex d3 xScale bucketScale < g).
    { apply Hlt_index; try lia.
      apply Qlt_le_trans with (y := mn); assumption. }
    assert (Hk1g : k1 <= g).
    { destruct (Z.lt_ge_cases g k1) as [Hgk|Hgk]; [|exact Hgk].
      exfalso. specialize (Hbelow g ltac:(lia)).
      now apply Qlt_not_le in Hbelow. }
    assert (Hfit1 : (mn <= widthAt d3 xScale k1)%Q).
    { destruct Hk1w as [Hw|Hlast]; [exact Hw|].
      replace k1 with g by lia. exact Hgmin. }
    assert (Hfit1' : (widthAt d3 xScale k1 <= mx)%Q).
    { apply Qle_trans with (y := widthAt d3 xScale g); [|exact Hgmax].
      apply Hgrow; lia. }
    destruct Hmax as [[_ ->]|[Hwide _]]; [now split|].
    exfalso. now apply Qlt_not_le in Hwide.
Qed.

Lemma thirtyDaysScale_widthsGrow : widthsGrow D3Utc.d3 thirtyDaysScale.
Proof.
  intros i j Hi Hij Hj. rewrite HIERARCHY_LENGTH_value in Hj.
  assert (Hci : i = 0 \/ i = 1 \/ i = 2 \/ i = 3 \/ i = 4 \/ i = 5
                \/ i = 6 \/ i = 7 \/ i = 8) by lia.
  assert (Hcj : j = 0 \/ j = 1 \/ j = 2 \/ j = 3 \/ j = 4 \/ j = 5
                \/ j = 6 \/ j = 7 \/ j = 8) by lia.
  destruct Hci as [->|[->|[->|[->|[->|[->|[->|[->| ->]]]]]]]];
    destruct Hcj as [->|[->|[->|[->|[->|[->|[->|[->| ->]]]]]]]];
    try lia; vm_compute; intros Hgt; discriminate Hgt.
Qed.

Lemma refineBucketScale_meets_both_when_possible_witness :
  let r := refineBucketScale D3Utc.d3 thirtyDaysScale "days"
             (BucketSize (Some 50%Q) (Some 80%Q)) in
  (50 <= calculateBucketWidth D3Utc.d3 thirtyDaysScale r)%Q
  /\ (calculateBucketWidth D3Utc.d3 thirtyDaysScale r <= 80)%Q.
Proof.
  apply (refineBucketScale_meets_both_when_possible D3Utc.d3
           thirtyDaysScale "days" (BucketSize (Some 50%Q) (Some 80%Q))
           50%Q 80%Q 5).
  - exact thirtyDaysScale_widthsGrow.
  - reflexivity.
  - reflexivity.
  - rewrite HIERARCHY_LENGTH_value. lia.
  - vm_compute. intros Hgt. discriminate Hgt.
  - vm_compute. intros Hgt. discriminate Hgt.
Defined.

(** X18: when the tick generator yields fewer than two ticks, the
    granularity without size constraints is the table entry of the
    granularity of the domain's duration [end - start]: one level finer
    than the duration's own granularity. *)
Theorem getTimeScale_falls_back_to_duration :
  forall (d3 : library) (xScale : D3.scale)
         (numberDisplayedTicks : option (list (string * Z)))
         (breakpointLabel : option string) (s e : Z),
    twoValidBounds (domain xScale) s e ->
    (List.length
       (ticks xScale (tickCount numberDisplayedTicks breakpointLabel))
     < 2)%nat ->
    lookup BUCKET_SCALE_MAP (durationScale (e - s))
    = Some (getTimeScale d3 xScale numberDisplayedTicks breakpointLabel None)
    /\ rank (getTimeScale d3 xScale numberDisplayedTicks breakpointLabel None)
       = Z.max 0 (rank (durationScale (e - s)) - 1).
Proof.
  intros d3 xScale ndt label s e Hvalid Hfew.
  apply validateDomain_Some in Hvalid.
  unfold getTimeScale, tickScale. rewrite Hvalid. cbv zeta.
  cbn [start end_].
  replace (Z.of_nat (List.length (ticks xScale (tickCount ndt label))) <? 2)
    with true by (symmetry; apply Z.ltb_lt; lia).
  rewrite detectTickScaleFromDuration_durationScale.
  unfold durationScale.
  repeat match goal with
  | |- context [?d >=? ?n] => destruct (Z.geb_spec d n)
  end; split; reflexivity.
Qed.

Lemma getTimeScale_falls_back_to_duration_witness :
  lookup BUCKET_SCALE_MAP
    (durationScale (D3Utc.utc 2020 1 8 - D3Utc.utc 2020 1 1))
  = Some (getTimeScale D3Utc.d3 singleTickScale None None None)
  /\ rank (getTimeScale D3Utc.d3 singleTickScale None None None)
     = Z.max 0
         (rank (durationScale (D3Utc.utc 2020 1 8 - D3Utc.utc 2020 1 1)) - 1).
Proof.
  apply (getTimeScale_falls_back_to_duration D3Utc.d3 singleTickScale
           None None (D3Utc.utc 2020 1 1) (D3Utc.utc 2020 1 8)).
  - exists []. reflexivity.
  - simpl. lia.
Defined.

(** ** The rectangle of a bucket *)

Section DoubleFacts.

Import SpecFloat.

Lemma SFcompare_refl (a : spec_float) :
  SFcompare a a = Some Eq \/ SFcompare a a = None.
Proof.
  destruct a as [s|s| |s m e]; simpl; auto.
  - destruct s; auto.
  - rewrite Z.compare_refl.
    change (Pos.compare_cont Eq m m) with (Pos.compare m m).
    rewrite Pos.compare_refl. destruct s; auto.
Qed.

Lemma SFcompare_Lt_Gt (a b : spec_float) :
  SFcompare a b = Some Lt -> SFcompare b a = Some Gt.
Proof.
  destruct a as [s|s| |s m e], b as [s'|s'| |s' m' e']; simpl;
    try discriminate;
    try (destruct s; try discriminate; destruct s'; try discriminate;
         reflexivity);
    try (destruct s; discriminate || reflexivity);
    try (destruct s'; discriminate || reflexivity).
  change (Pos.compare_cont Eq m m') with (Pos.compare m m').
  change (Pos.compare_cont Eq m' m) with (Pos.compare m' m).
  rewrite (Z.compare_antisym e e'), (Pos.compare_antisym m m').
  destruct s, s'; try discriminate; try reflexivity;
    destruct (e ?= e'); simpl; try discriminate; try reflexivity;
    destruct (m ?= m')%positive; simpl; discriminate || reflexivity.
Qed.

Lemma SFcompare_antisym (a b : spec_float) :
  SFcompare b a
  = match SFcompare a b with
    | Some c => Some (CompOpp c)
    | None => None
    end.
Proof.
  destruct a as [s|s| |s m e], b as [s'|s'| |s' m' e']; simpl;
    try reflexivity;
    try (destruct s; destruct s'; reflexivity);
    try (destruct s; reflexivity);
    try (destruct s'; reflexivity).
  change (Pos.compare_cont Eq m m') with (Pos.compare m m').
  change (Pos.compare_cont Eq m' m) with (Pos.compare m' m).
  rewrite (Z.compare_antisym e e'), (Pos.compare_antisym m m').
  destruct s, s'; try reflexivity;
    destruct (e ?= e'); simpl; try reflexivity;
    destruct (m ?= m')%positive; reflexivity.
Qed.

Lemma ltb_irrefl (a : Double.number) : Double.ltb a a = false.
Proof.
  unfold Double.ltb, SFltb.
  destruct (SFcompare_refl a) as [-> | ->]; reflexivity.
Qed.

Lemma ltb_asym (a b : Double.number) :
  Double.ltb a b = true -> Double.ltb b a = false.
Proof.
  unfold Double.ltb, SFltb.
  destruct (SFcompare a b) as [[| |]|] eqn:H; try discriminate.
  intros _. now rewrite (SFcompare_Lt_Gt a b H).
Qed.

(** On numbers that are not [NaN], [b < a] is false exactly when
    [a <= b]. *)
Lemma not_ltb_leb (a b : Double.number) :
  Double.isNaN a = false -> Double.isNaN b = false ->
  Double.ltb b a = false -> Double.leb a b = true.
Proof.
  unfold Double.ltb, Double.leb, SFltb, SFleb.
  rewrite (SFcompare_antisym a b).
  destruct (SFcompare a b) as [[| |]|] eqn:H; simpl;
    try reflexivity; try discriminate.
  destruct a, b; simpl in *; discriminate.
Qed.

Lemma max_not_NaN (a b : Double.number) :
  Double.isNaN (Double.max a b) = false ->
  Double.isNaN a = false /\ Double.isNaN b = false.
Proof.
  unfold Double.max.
  destruct (Double.isNaN a) eqn:Ha, (Double.isNaN b) eqn:Hb; simpl;
    try discriminate.
  intros _. split; reflexivity.
Qed.

(** [Math.max] is never below an argument. *)
Lemma max_not_below_l (a b : Double.number) :
  Double.ltb (Double.max a b) a = false.
Proof.
  unfold Double.max.
  destruct (Double.isNaN a || Double.isNaN b); [reflexivity|].
  destruct (Double.ltb a b) eqn:Hab; [now apply ltb_asym|].
  destruct (Double.ltb b a) eqn:Hba; [apply ltb_irrefl|].
  destruct a as [[|]| | |]; try apply ltb_irrefl. exact Hba.
Qed.

Lemma max_not_below_r (a b : Double.number) :
  Double.ltb (Double.max a b) b = false.
Proof.
  unfold Double.max.
  destruct (Double.isNaN a || Double.isNaN b); [reflexivity|].
  destruct (Double.ltb a b) eqn:Hab; [apply ltb_irrefl|].
  destruct (Double.ltb b a) eqn:Hba; [exact Hab|].
  destruct a as [[|]| | |]; try exact Hab. apply ltb_irrefl.
Qed.

(** [Math.max(0, a)] for a negative [a] is [+0]. *)
Lemma max_zero_negative (a : Double.number) :
  Double.ltb a Double.zero = true -> Double.max Double.zero a = Double.zero.
Proof.
  intros Hlt. unfold Double.max.
  destruct a as [s|s| |s m e]; try discriminate; cbn [Double.isNaN orb].
  - rewrite (ltb_asym _ _ Hlt), Hlt. reflexivity.
  - rewrite (ltb_asym _ _ Hlt), Hlt. reflexivity.
Qed.

(** [Math.max(0, a)] for [a >= 0] is equal to [a]. *)
Lemma max_zero_nonnegative (a : Double.number) :
  Double.ltb a Double.zero = false -> Double.isNaN a = false ->
  Double.eqb (Double.max Double.zero a) a = true.
Proof.
  intros Hlt Hnan. unfold Double.max.
  change (Double.isNaN Double.zero) with false. cbn [orb].
  rewrite Hnan, Hlt.
  destruct (Double.ltb Double.zero a) eqn:H0a; cbv iota.
  - unfold Double.eqb, SFeqb.
    destruct (SFcompare_refl a) as [-> | H]; [reflexivity|].
    destruct a; discriminate.
  - destruct a as [s|s| |s m e]; try discriminate; try reflexivity;
      destruct s; discriminate.
Qed.

(** [a - 0] is [a]. *)
Lemma sub_zero (a : Double.number) : Double.sub a Double.zero = a.
Proof. destruct a as [[|]|[|]| |]; reflexivity. Qed.

End DoubleFacts.

(** X19: the rectangle [calculateBucketPosition] gives a bucket never
    starts left of pixel 0 and is never narrower than [minBucketWidth],
    whatever doubles the scale returns: [x < 0] and
    [width < minBucketWidth] are false, and [0 <= x] and
    [minBucketWidth <= width] are true unless [x], respectively [width],
    is [NaN].  When the bucket starts left of pixel 0 the rectangle starts
    at 0 and its width is the larger of [minBucketWidth] and the pixel of
    the bucket's end; when it starts at a pixel that is not negative the
    rectangle starts there and its width is the larger of the bucket's
    pixel width and [minBucketWidth]. *)
Theorem calculateBucketPosition_clamps :
  forall (Event : Type) (d : Heatmap.bucket Event)
         (xScale : option Z -> Double.number) (timeInterval : interval)
         (minBucketWidth : Double.number),
    let p := Heatmap.calculateBucketPosition d xScale timeInterval
               minBucketWidth in
    let bucketStart := xScale (Some (Heatmap.date d)) in
    let bucketEnd :=
      xScale (timeClip (offset timeInterval (Heatmap.date d) 1)) in
    (Double.ltb (Heatmap.x p) Double.zero = false
     /\ (Double.isNaN (Heatmap.x p) = false ->
         Double.leb Double.zero (Heatmap.x p) = true))
    /\ (Double.ltb (Heatmap.width p) minBucketWidth = false
        /\ (Double.isNaN (Heatmap.width p) = false ->
            Double.leb minBucketWidth (Heatmap.width p) = true))
    /\ (Double.ltb bucketStart Double.zero = true ->
        Heatmap.x p = Double.zero
        /\ Heatmap.width p = Double.max minBucketWidth bucketEnd)
    /\ (Double.ltb bucketStart Double.zero = false ->
        Double.isNaN bucketStart = false ->
        Double.eqb (Heatmap.x p) bucketStart = true
        /\ Heatmap.width p
           = Double.max (Double.sub bucketEnd bucketStart) minBucketWidth).
Proof.
  intros Event d xScale timeInterval minBucketWidth p bucketStart bucketEnd.
  assert (Hx : Double.ltb (Heatmap.x p) Double.zero = false).
  { subst p. unfold Heatmap.calculateBucketPosition. cbv zeta.
    destruct (_ && _); apply max_not_below_l. }
  assert (Hw : Double.ltb (Heatmap.width p) minBucketWidth = false).
  { subst p. unfold Heatmap.calculateBucketPosition. cbv zeta.
    destruct (_ && _); cbn [Heatmap.width];
      [apply max_not_below_l | apply max_not_below_r]. }
  assert (Hmin : Double.isNaN (Heatmap.width p) = false ->
                 Double.isNaN minBucketWidth = false).
  { subst p. unfold Heatmap.calculateBucketPosition. cbv zeta.
    destruct (_ && _); cbn [Heatmap.width]; intros H;
      apply max_not_NaN in H; tauto. }
  split; [split; [exact Hx|]|split; [split; [exact Hw|]|]].
  - intros Hnan. now apply not_ltb_leb.
  - intros Hnan. apply not_ltb_leb; auto.
  - clear Hx Hw Hmin.
    subst p. unfold Heatmap.calculateBucketPosition. cbv zeta.
    fold bucketStart. fold bucketEnd.
    destruct (Double.ltb bucketStart Double.zero) eqn:Hneg.
    + rewrite (max_zero_negative bucketStart Hneg).
      change (Double.eqb Double.zero Double.zero) with true.
      cbn [andb Heatmap.x Heatmap.width]. rewrite sub_zero.
      split; [intros _; split; reflexivity | discriminate].
    + rewrite andb_false_r. cbn [Heatmap.x Heatmap.width].
      split; [discriminate|]. intros _ Hnan.
      split; [now apply max_zero_nonnegative | reflexivity].
Qed.

(** A bucket starting a day before the week of [weekPixels], with a
    minimum width of 2: the rectangle starts at pixel 0 and is 2 pixels
    wide. *)
Lemma calculateBucketPosition_clamps_witness :
  let p := Heatmap.calculateBucketPosition
             (Heatmap.Bucket (D3Utc.utc 2019 12 31) 1 [tt]) weekPixels
             D3Utc.timeDay (Double.ofZ 2) in
  Heatmap.x p = Double.zero /\ Heatmap.width p = Double.ofZ 2.
Proof.
  cbv zeta.
  destruct (calculateBucketPosition_clamps unit
              (Heatmap.Bucket (D3Utc.utc 2019 12 31) 1 [tt]) weekPixels
              D3Utc.timeDay (Double.ofZ 2))
    as (_ & _ & Hleft & _).
  destruct Hleft as [Hx Hw]; [vm_compute; reflexivity|].
  split; [exact Hx|]. rewrite Hw. vm_compute. reflexivity.
Defined.

(** The right edge of the rectangle can fall short of the pixel of the
    bucket's end: between the pixels [0.1] and [0.35000000000000003] the
    width is rounded to [0.25], and [0.1 + 0.25] is below the end. *)
Example calculateBucketPosition_rounding :
  let p := Heatmap.calculateBucketPosition
             (Heatmap.Bucket (D3Utc.utc 2020 1 1) 1 [tt]) roundedPixels
             D3Utc.timeDay (Double.ofZ 0) in
  Heatmap.width p = SpecFloat.S754_finite false 4503599627370496 (-54)
  /\ Double.ltb (Double.add (Heatmap.x p) (Heatmap.width p))
       (roundedPixels (Some (D3Utc.utc 2020 1 2)))
     = true.
Proof. split; vm_compute; reflexivity. Qed.
